(** * NovaMD workspace storage and git synchronisation

    A shallow embedding of [backend/internal/filesystem/filesystem.go]
    (package [filesystem]), of the later [storage] version of its walkers
    and of the [git] client it drives, together with the properties of
    path sandboxing, directory listing, file round trips, name search,
    statistics and the registry of repository handles.

    Conventions.
    - Go [int] identifiers are [Z]; [fmt.Sprintf("%d", n)] is the decimal
      rendering of [n].
    - Go strings are [string] (sequences of bytes); [[]byte] is
      [list Byte.byte].
    - A Go function returning [(T, error)] returns [result T]; one that
      returns only [error] returns [option error] ([None] is [nil]).
    - The host file system is a tree of [node]s; the process working
      directory is the root of that tree.
    - Of the permissions only the read permission of directories is
      followed.  The process may write wherever it gets to: a creation,
      a write or a removal fails here for the shape of the tree only (a
      file in the way, a missing directory, a directory that cannot be
      emptied), never for a missing write permission or a full disk.
    - [path/filepath] is the Unix flavour (separator [/], no volumes).
    - [strings.ToLower] and [strings.EqualFold] go by the case tables of
      Go's [unicode] package; they are the methods of [strs.Unicode], and
      the properties hold for every instance of it.
    - The go-git library is a state machine on clones and remotes; what
      the client cannot decide (network, credentials) is an [Env]. *)

From Stdlib Require Import ZArith String Ascii List DecimalString Decimal DecimalZ DecimalPos.
From Stdlib Require Import Strings.Byte.
From Stdlib Require Import Permutation Sorted Lia Bool.
From stdpp Require Import gmap strings list fin_maps.

Open Scope string_scope.
Open Scope Z_scope.

(** ** Errors *)

(** The errors the embedded functions can return.  The constructors that
    wrap a cause correspond to [fmt.Errorf("...: %w", err)]. *)
Inductive error : Type :=
  | ErrOutsideWorkspace      (* "invalid path: outside of workspace" *)
  | ErrFileNotFound          (* "file not found" *)
  | ErrWorkspaceMissing      (* "workspace directory does not exist" *)
  | ErrGitNotConfigured      (* "git settings not configured for this workspace" *)
  | ErrRepoNotInitialized    (* "repository not initialized" *)
  | ErrNotExist              (* ENOENT *)
  | ErrNotDir                (* ENOTDIR *)
  | ErrIsDir                 (* EISDIR *)
  | ErrPermission            (* EACCES *)
  | SkipDir                  (* filepath.SkipDir *)
  | SkipAll                  (* filepath.SkipAll *)
  | NoErrAlreadyUpToDate     (* git.NoErrAlreadyUpToDate *)
  | ErrNilDereference        (* the panic of a call through a nil value *)
  | ErrLibrary (op : string) (* any other failure a library call reports *)
  | ErrWrap (msg : string) (cause : error).

Definition isSkipDir (e : error) : bool :=
  match e with
  | SkipDir => true
  | _ => false
  end.

Definition isSkipAll (e : error) : bool :=
  match e with
  | SkipAll => true
  | _ => false
  end.

Definition isAlreadyUpToDate (e : error) : bool :=
  match e with
  | NoErrAlreadyUpToDate => true
  | _ => false
  end.

Inductive result (A : Type) : Type :=
  | Ok (a : A)
  | Err (e : error).
Arguments Ok {A} a.
Arguments Err {A} e.

(** ** Strings and paths: [strings], [fmt], [path/filepath] *)

Module strs.

(** [strings.HasPrefix(s, prefix)]: a byte-wise prefix test. *)
Definition HasPrefix (s pre : string) : bool := String.prefix pre s.

(** The lower-case form of one byte.  Only the ASCII letters [A]-[Z] have
    one; every other byte, and so every byte of a multi-byte UTF-8
    sequence, is left as it is. *)
Definition lowerByte (c : ascii) : ascii :=
  let n := N_of_ascii c in
  if (65 <=? n)%N && (n <=? 90)%N then ascii_of_N (n + 32) else c.

(** Every byte of the string is below [utf8.RuneSelf]. *)
Fixpoint isASCII (s : string) : bool :=
  match s with
  | EmptyString => true
  | String c r => (N_of_ascii c <? 128)%N && isASCII r
  end.

(** What [strings.ToLower] returns for a string of ASCII bytes: the
    string with its letters [A]-[Z] in lower case. *)
Fixpoint lowerASCII (s : string) : string :=
  match s with
  | EmptyString => EmptyString
  | String c r => String (lowerByte c) (lowerASCII r)
  end.

(** What [strings.EqualFold] returns for two strings of ASCII bytes:
    whether they are equal byte by byte up to the case of letters. *)
Fixpoint equalFoldASCII (s t : string) : bool :=
  match s, t with
  | EmptyString, EmptyString => true
  | String a s', String b t' =>
      Ascii.eqb (lowerByte a) (lowerByte b) && equalFoldASCII s' t'
  | _, _ => false
  end.

(** [strings.ToLower] and [strings.EqualFold].  Outside ASCII both go by
    the case tables of Go's [unicode] package, which are no part of these
    sources: the two functions are taken as they come, with what the
    [strings] package lays down for them.  Both have a path of their own
    for ASCII strings, where they are [lowerASCII] and [equalFoldASCII];
    and [EqualFold], which compares the two strings rune by rune up to
    simple case folding, is an equivalence of strings. *)
Class Unicode : Type := MkUnicode {
  ToLower : string -> string;
  EqualFold : string -> string -> bool;
  ToLower_ascii : forall s : string, isASCII s = true -> ToLower s = lowerASCII s;
  EqualFold_ascii : forall s t : string,
    isASCII s = true -> isASCII t = true -> EqualFold s t = equalFoldASCII s t;
  EqualFold_reflexive : forall s : string, EqualFold s s = true;
  EqualFold_symmetric : forall s t : string, EqualFold s t = EqualFold t s;
  EqualFold_transitive : forall s t u : string,
    EqualFold s t = true -> EqualFold t u = true -> EqualFold s u = true
}.

(** The two functions with no letters but those of ASCII: every other
    byte is taken as it is.  Go's functions agree with these on ASCII
    strings; the examples below, whose names are ASCII, are computed with
    them. *)
#[global] Instance asciiOnly : Unicode.
Proof.
  refine {| ToLower := lowerASCII; EqualFold := equalFoldASCII |}.
  - reflexivity.
  - reflexivity.
  - intros s. induction s as [|c s IH]; simpl; [reflexivity|].
    now rewrite Ascii.eqb_refl.
  - intros s. induction s as [|c s IH]; intros [|d t]; simpl; try reflexivity.
    now rewrite Ascii.eqb_sym, IH.
  - intros s. induction s as [|c s IH]; intros [|d t] [|e u]; simpl;
      try reflexivity; try discriminate.
    intros H1 H2. apply andb_prop in H1, H2.
    destruct H1 as [H1 H1'], H2 as [H2 H2'].
    apply Ascii.eqb_eq in H1, H2. rewrite H1, H2, Ascii.eqb_refl. simpl.
    now apply (IH t u).
Defined.

(** The comparison [s < t] of two Go strings: byte-wise lexicographic. *)
Definition lt (s t : string) : bool := String.ltb s t.

End strs.

Module fmt.

(** [fmt.Sprintf("%d", n)]. *)
Definition Sprintf_d (n : Z) : string := NilZero.string_of_int (Z.to_int n).

End fmt.

Module filepath.

Import strs.

(** The elements of a path between separators, empty ones included:
    [strings.Split(path, "/")]. *)
Fixpoint splitSlash (s : string) : list string :=
  match s with
  | EmptyString => [EmptyString]
  | String c r =>
      if Ascii.eqb c "/" then EmptyString :: splitSlash r
      else match splitSlash r with
           | [] => [String c EmptyString]
           | h :: t => String c h :: t
           end
  end.

(** [strings.Join(elems, "/")]. *)
Definition joinSlash (elems : list string) : string := String.concat "/" elems.

(** One element of [filepath.Clean]'s scan.  [out] holds the elements kept
    so far, last one first.  An empty element (doubled separator) and [.]
    are dropped; [..] removes the element before it, unless there is none
    (then it is dropped in a rooted path and kept otherwise) or that
    element is itself a kept [..]. *)
Definition cleanStep (rooted : bool) (out : list string) (seg : string) : list string :=
  if String.eqb seg "" || String.eqb seg "." then out
  else if String.eqb seg ".." then
    match out with
    | top :: rest => if String.eqb top ".." then seg :: out else rest
    | [] => if rooted then [] else [seg]
    end
  else seg :: out.

Definition cleanElems (rooted : bool) (path : string) : list string :=
  rev (fold_left (cleanStep rooted) (splitSlash path) []).

(** [filepath.Clean]: the shortest path equivalent to [path] by purely
    lexical processing; the empty result is [.]. *)
Definition Clean (path : string) : string :=
  let rooted := HasPrefix path "/" in
  let out := cleanElems rooted path in
  if rooted then "/" ++ joinSlash out
  else match out with
       | [] => "."
       | _ => joinSlash out
       end.

(** [filepath.Join]: the elements from the first non-empty one on are
    joined with the separator and cleaned; with no non-empty element the
    result is the empty string. *)
Fixpoint Join (elem : list string) : string :=
  match elem with
  | [] => ""
  | e :: rest => if String.eqb e "" then Join rest else Clean (joinSlash elem)
  end.

(** [filepath.Dir]: everything before the last separator, cleaned. *)
Definition Dir (path : string) : string :=
  match rev (splitSlash path) with
  | [] => "."
  | _ :: before =>
      match before with
      | [] => "."
      | _ => Clean (joinSlash (rev before) ++ "/")
      end
  end.

(** [filepath.Base]: the last element of [path], trailing separators
    set aside; [.] for the empty path and [/] for one made of separators
    only. *)
Definition Base (path : string) : string :=
  if String.eqb path "" then "."
  else match List.filter (fun x => negb (String.eqb x "")) (rev (splitSlash path)) with
       | [] => "/"
       | last :: _ => last
       end.

(** Drops the longest common prefix of two element lists. *)
Fixpoint dropCommon (base targ : list string) : list string * list string :=
  match base, targ with
  | b :: base', t :: targ' =>
      if String.eqb b t then dropCommon base' targ' else (base, targ)
  | _, _ => (base, targ)
  end.

(** [filepath.Rel(basepath, targpath)]: both paths are cleaned, the common
    leading elements are dropped, and the result climbs out of what is
    left of the base with [..] before descending into what is left of the
    target.  It fails when one path is rooted and the other is not, and
    when the base would have to be left through an unknown [..]. *)
Definition Rel (basepath targpath : string) : result string :=
  let base := Clean basepath in
  let targ := Clean targpath in
  if String.eqb targ base then Ok "."
  else
    let bRooted := HasPrefix base "/" in
    let tRooted := HasPrefix targ "/" in
    if negb (Bool.eqb bRooted tRooted) then Err (ErrLibrary "Rel")
    else
      let '(b, t) := dropCommon (cleanElems bRooted base) (cleanElems tRooted targ) in
      match b with
      | [] => Ok (joinSlash t)
      | b0 :: _ =>
          if String.eqb b0 ".." then Err (ErrLibrary "Rel")
          else Ok (joinSlash (map (fun _ => "..") b ++ t))
      end.

End filepath.

Arguments filepath.Clean : simpl never.
Arguments filepath.Join : simpl never.
Arguments filepath.Rel : simpl never.
Arguments filepath.Base : simpl never.
Arguments filepath.Dir : simpl never.


(** ** The host file system: [os] *)

Module os.

(** A file system object: a regular file with its bytes, or a directory
    with its entries.  [readable] is the read permission of a directory:
    listing an unreadable directory fails, passing through it does not.
    Other kinds of objects (links, devices) are not modelled. *)
#[warnings="-register-all"]
Inductive node : Type :=
  | File (content : list byte)
  | Dir (readable : bool) (entries : list (string * node)).

Definition isDir (n : node) : bool :=
  match n with
  | Dir _ _ => true
  | File _ => false
  end.

(** The size [os.FileInfo.Size] reports (for a directory the value is
    system dependent; no embedded function reads it). *)
Definition size (n : node) : Z :=
  match n with
  | File content => Z.of_nat (List.length content)
  | Dir _ _ => 0
  end.

(** The names of the entries of a directory. *)
Definition names (n : node) : list string :=
  match n with
  | Dir _ entries => map fst entries
  | File _ => []
  end.

(** The entry called [name] of a directory. *)
Fixpoint find (name : string) (entries : list (string * node)) : option node :=
  match entries with
  | [] => None
  | (x, c) :: rest => if String.eqb name x then Some c else find name rest
  end.

(** Binds [name] to [c]: in place when the name is taken, as a new entry
    otherwise. *)
Fixpoint set (name : string) (c : node) (entries : list (string * node))
  : list (string * node) :=
  match entries with
  | [] => [(name, c)]
  | (x, c0) :: rest =>
      if String.eqb name x then (name, c) :: rest else (x, c0) :: set name c rest
  end.

(** At the root of the tree [..] stays at the root. *)
Fixpoint dropDotDot (elems : list string) : list string :=
  match elems with
  | x :: rest => if String.eqb x ".." then dropDotDot rest else elems
  | [] => []
  end.

(** The elements that lead from the root of the tree to [path]; a
    relative path starts at the working directory, which is the root. *)
Definition resolve (path : string) : list string :=
  dropDotDot (filepath.cleanElems (strs.HasPrefix path "/") path).

(** The object [elems] leads to from [n]. *)
Fixpoint lookup (elems : list string) (n : node) : result node :=
  match elems with
  | [] => Ok n
  | x :: rest =>
      match n with
      | File _ => Err ErrNotDir
      | Dir _ entries =>
          match find x entries with
          | Some c => lookup rest c
          | None => Err ErrNotExist
          end
      end
  end.

(** [os.Stat] / [os.Lstat]. *)
Definition Stat (root : node) (path : string) : result node :=
  lookup (resolve path) root.

(** [os.IsNotExist]. *)
Definition IsNotExist {A} (r : result A) : bool :=
  match r with
  | Err ErrNotExist => true
  | _ => false
  end.

(** [os.ReadFile]. *)
Definition ReadFile (root : node) (path : string) : result (list byte) :=
  match lookup (resolve path) root with
  | Ok (File content) => Ok content
  | Ok (Dir _ _) => Err ErrIsDir
  | Err e => Err e
  end.

(** Creates the directories that [elems] names below [n] and are missing;
    fails when one of them exists as a file, the one failure of
    [os.MkdirAll] followed here. *)
Fixpoint mkdirAll (elems : list string) (n : node) : result node :=
  match n with
  | File _ => Err ErrNotDir
  | Dir r entries =>
      match elems with
      | [] => Ok n
      | x :: rest =>
          let c := match find x entries with
                   | Some c => c
                   | None => Dir true []
                   end in
          match mkdirAll rest c with
          | Ok c' => Ok (Dir r (set x c' entries))
          | Err e => Err e
          end
      end
  end.

(** [os.MkdirAll]; the new file system and the error. *)
Definition MkdirAll (root : node) (path : string) : node * option error :=
  match mkdirAll (resolve path) root with
  | Ok root' => (root', None)
  | Err e => (root, Some e)
  end.

(** Creates or truncates the file [elems] names below [n] and writes
    [content]; the directory that holds it must exist. *)
Fixpoint writeFile (elems : list string) (content : list byte) (n : node)
  : result node :=
  match n with
  | File _ => Err ErrNotDir
  | Dir r entries =>
      match elems with
      | [] => Err ErrIsDir
      | [x] =>
          match find x entries with
          | Some (Dir _ _) => Err ErrIsDir
          | _ => Ok (Dir r (set x (File content) entries))
          end
      | x :: rest =>
          match find x entries with
          | Some c =>
              match writeFile rest content c with
              | Ok c' => Ok (Dir r (set x c' entries))
              | Err e => Err e
              end
          | None => Err ErrNotExist
          end
      end
  end.

(** [os.WriteFile]; the new file system and the error. *)
Definition WriteFile (root : node) (path : string) (content : list byte)
  : node * option error :=
  match writeFile (resolve path) content root with
  | Ok root' => (root', None)
  | Err e => (root, Some e)
  end.

(** What a walker holds for one entry of a directory: its name, the
    object, and [descend], the walker's own continuation into that object
    (which keeps the walkers structurally recursive on the tree although
    they sort the entries before they visit them). *)
Record DirEntry (K : Type) : Type := MkDirEntry {
  Name : string;
  Node : node;
  descend : K
}.
Arguments MkDirEntry {K} _ _ _.
Arguments Name {K} _.
Arguments Node {K} _.
Arguments descend {K} _.

Definition IsDir {K} (e : DirEntry K) : bool := isDir (Node e).

(** Insertion of [x] into a list ordered by the string [key]. *)
Fixpoint insertBy {A : Type} (key : A -> string) (x : A) (l : list A) : list A :=
  match l with
  | [] => [x]
  | y :: rest =>
      if String.leb (key x) (key y) then x :: l else y :: insertBy key x rest
  end.

Definition sortBy {A : Type} (key : A -> string) (l : list A) : list A :=
  fold_right (insertBy key) [] l.

(** The entries in the order [os.ReadDir] and [filepath.Walk] visit them:
    sorted by file name. *)
Definition sortByName {K} (l : list (DirEntry K)) : list (DirEntry K) :=
  sortBy Name l.

(** [os.ReadDir] on a directory whose entries are [entries]. *)
Definition ReadDir {K} (readable : bool) (entries : list (DirEntry K))
  : result (list (DirEntry K)) :=
  if readable then Ok (sortByName entries) else Err ErrPermission.

(** Takes the entries called [name] out of a directory. *)
Definition unset (name : string) (entries : list (string * node)) : list (string * node) :=
  List.filter (fun xc => negb (String.eqb name (fst xc))) entries.

(** Removes the file or the empty directory [elems] names below [n]. *)
Fixpoint remove (elems : list string) (n : node) : result node :=
  match n with
  | File _ => Err ErrNotDir
  | Dir r entries =>
      match elems with
      | [] => Err (ErrLibrary "remove of the root")
      | [x] =>
          match find x entries with
          | None => Err ErrNotExist
          | Some (Dir _ (_ :: _)) => Err (ErrLibrary "directory not empty")
          | Some _ => Ok (Dir r (unset x entries))
          end
      | x :: rest =>
          match find x entries with
          | Some c =>
              match remove rest c with
              | Ok c' => Ok (Dir r (set x c' entries))
              | Err e => Err e
              end
          | None => Err ErrNotExist
          end
      end
  end.

(** [os.Remove]; the new file system and the error. *)
Definition Remove (root : node) (path : string) : node * option error :=
  match remove (resolve path) root with
  | Ok root' => (root', None)
  | Err e => (root, Some e)
  end.

(** What [os.RemoveAll] leaves of an object that it is to remove with
    everything in it; [None] when nothing is left.  It has to read a
    directory to empty it: a directory that cannot be read stays as it
    is, unless it is empty, and a directory in which something stays,
    stays. *)
Fixpoint purge (n : node) : option node :=
  match n with
  | File _ => None
  | Dir r entries =>
      if r then
        match flat_map (fun xc => match purge (snd xc) with
                                  | None => []
                                  | Some c => [(fst xc, c)]
                                  end) entries with
        | [] => None
        | kept => Some (Dir r kept)
        end
      else match entries with
           | [] => None
           | _ => Some n
           end
  end.

(** Removes what [elems] names below [n] with everything in it, as far
    as it can: the new tree and the error.  Nothing to remove is no
    error; a file on the way is one, and so is a directory that could not
    be emptied, whatever else has been removed by then. *)
Fixpoint removeAll (elems : list string) (n : node) : node * option error :=
  match n with
  | File _ => (n, Some ErrNotDir)
  | Dir r entries =>
      match elems with
      | [] => (n, Some (ErrLibrary "remove of the root"))
      | [x] =>
          match find x entries with
          | None => (n, None)
          | Some c =>
              match purge c with
              | None => (Dir r (unset x entries), None)
              | Some c' => (Dir r (set x c' entries), Some ErrPermission)
              end
          end
      | x :: rest =>
          match find x entries with
          | Some c =>
              let '(c', err) := removeAll rest c in
              (Dir r (set x c' entries), err)
          | None => (n, None)
          end
      end
  end.

(** [os.RemoveAll]: nil for the empty path, an error for a path whose
    last element is [.]. *)
Definition RemoveAll (root : node) (path : string) : node * option error :=
  if String.eqb path "" then (root, None)
  else if String.eqb (List.last (filepath.splitSlash path) "") "."
  then (root, Some (ErrLibrary "invalid argument"))
  else removeAll (resolve path) root.

End os.

(** ** Walking a tree: [filepath.Walk] and [filepath.WalkDir] *)

Module walker.

Import os.

(** What [os.FileInfo] and [fs.DirEntry] report about an object. *)
Record FileInfo : Type := MkFileInfo {
  infoName : string;
  infoIsDir : bool;
  infoSize : Z
}.

Definition infoOf (name : string) (n : node) : FileInfo :=
  {| infoName := name; infoIsDir := isDir n; infoSize := size n |}.

Section Walk.

(** The state the callback closes over and updates. *)
Context {S : Type}.

(** [filepath.WalkFunc] and [fs.WalkDirFunc]: path, object (nil when it
    could not be examined), incoming error; returns the updated state
    and the error that steers the walk. *)
Definition WalkFunc : Type :=
  string -> option FileInfo -> option error -> S -> S * option error.

Variable fn : WalkFunc.

Definition cont : Type := string -> S -> S * option error.

(** The loop of [filepath.walk] over the sorted names of a directory.
    [SkipDir] returned for an entry that is a directory skips that entry
    only; returned for a file it ends the loop and is handed up, as every
    other error is.  The entries of a directory that was just read exist,
    so that [lstat] on them succeeds. *)
Fixpoint walkNames (names : list (DirEntry cont)) (path : string) (s : S)
  : S * option error :=
  match names with
  | [] => (s, None)
  | e :: rest =>
      let filename := filepath.Join [path; Name e] in
      let '(s1, err) := descend e filename s in
      match err with
      | None => walkNames rest path s1
      | Some er =>
          if negb (IsDir e) || negb (isSkipDir er) then (s1, Some er)
          else walkNames rest path s1
      end
  end.

(** [filepath.walk]: the callback on the object, then, for a directory
    it could read and the callback did not refuse, on everything in
    it. *)
Fixpoint walk (name : string) (n : node) (path : string) (s : S)
  : S * option error :=
  match n with
  | File _ => fn path (Some (infoOf name n)) None s
  | Dir r entries =>
      let names :=
        ReadDir r (map (fun xc => MkDirEntry (fst xc) (snd xc) (walk (fst xc) (snd xc)))
                       entries) in
      let err := match names with
                 | Err e => Some e
                 | Ok _ => None
                 end in
      let '(s1, err1) := fn path (Some (infoOf name n)) err s in
      match names, err1 with
      | Ok names, None => walkNames names path s1
      | _, _ => (s1, err1)
      end
  end.

(** What [Walk] and [WalkDir] return for the error of the root. *)
Definition rootError (err : option error) : option error :=
  match err with
  | Some e => if isSkipDir e || isSkipAll e then None else Some e
  | None => None
  end.

(** [filepath.Walk(root, fn)] on the file system [disk]. *)
Definition Walk (disk : node) (root : string) (s : S) : S * option error :=
  let '(s1, err) :=
    match Stat disk root with
    | Err e => fn root None (Some e) s
    | Ok n => walk (filepath.Base root) n root s
    end in
  (s1, rootError err).

(** The loop of [filepath.walkDir] over the entries of a directory:
    [SkipDir] from any entry ends the loop, every other error stops the
    walk. *)
Fixpoint walkDirEntries (dirs : list (DirEntry cont)) (path : string) (s : S)
  : S * option error :=
  match dirs with
  | [] => (s, None)
  | d1 :: rest =>
      let path1 := filepath.Join [path; Name d1] in
      let '(s1, err) := descend d1 path1 s in
      match err with
      | None => walkDirEntries rest path s1
      | Some er => if isSkipDir er then (s1, None) else (s1, Some er)
      end
  end.

(** [filepath.walkDir]: the callback on the object; a directory it did
    not refuse is read (a failure is reported to the callback by a second
    call) and its entries walked. *)
Fixpoint walkDir (name : string) (n : node) (path : string) (s : S)
  : S * option error :=
  match n with
  | File _ => fn path (Some (infoOf name n)) None s
  | Dir r entries =>
      let '(s1, err) := fn path (Some (infoOf name n)) None s in
      match err with
      | Some e => (s1, if isSkipDir e then None else Some e)
      | None =>
          match ReadDir r (map (fun xc => MkDirEntry (fst xc) (snd xc)
                                            (walkDir (fst xc) (snd xc)))
                               entries) with
          | Ok dirs => walkDirEntries dirs path s1
          | Err e =>
              let '(s2, err2) := fn path (Some (infoOf name n)) (Some e) s1 in
              match err2 with
              | Some e2 => (s2, if isSkipDir e2 then None else Some e2)
              | None => (s2, None)
              end
          end
      end
  end.

(** [filepath.WalkDir(root, fn)] on the file system [disk]. *)
Definition WalkDir (disk : node) (root : string) (s : S) : S * option error :=
  let '(s1, err) :=
    match Stat disk root with
    | Err e => fn root None (Some e) s
    | Ok n => walkDir (filepath.Base root) n root s
    end in
  (s1, rootError err).

End Walk.

End walker.

(** ** The git client: package [git] *)

Module git.

(** A commit, as far as the client determines it: the message and the
    author identity. *)
Record CommitObject : Type := MkCommit {
  Message : string;
  AuthorName : string;
  AuthorEmail : string
}.

#[global] Instance CommitObject_eq_dec : EqDecision CommitObject.
Proof. solve_decision. Defined.

(** [CommitHash]: the identifier of a commit; here the commit itself. *)
Abbreviation CommitHash := CommitObject (only parsing).

(** A local clone: the URL it tracks and the history of its branch,
    newest commit first. *)
Record LocalRepo : Type := MkLocalRepo {
  Origin : string;
  History : list CommitObject
}.

(** [http.BasicAuth]: the credential sent to the remote. *)
Record BasicAuth : Type := MkBasicAuth {
  AuthUsername : string;
  AuthPassword : string
}.

(** The calls into the go-git library. *)
Inductive Op : Type :=
  | OpPlainClone (workDir url : string) (auth : BasicAuth)
  | OpPlainOpen (workDir : string)
  | OpWorktree (workDir : string)
  | OpPull (workDir : string) (auth : BasicAuth)
  | OpAdd (workDir : string)
  | OpCommit (workDir message : string)
  | OpPush (workDir : string) (auth : BasicAuth).

(** Everything outside the process that the library touches: the clones
    on disk by working directory (a clone is there exactly when the
    directory has a [.git]), the remote repositories by URL, the working
    directories that hold something of their own besides a clone (the
    files of the workspace; the library calls below leave this set as it
    is), and the log of the library calls made so far, oldest first. *)
Record World : Type := MkWorld {
  clones : gmap string LocalRepo;
  remotes : gmap string (list CommitObject);
  occupied : gset string;
  trace : list Op
}.

(** The conditions the client does not control (network, credentials
    accepted by the remote, disk): [env op] tells that the call [op] fails
    for such a reason. *)
Definition Env : Type := Op -> bool.

Definition record (op : Op) (w : World) : World :=
  {| clones := clones w; remotes := remotes w; occupied := occupied w;
     trace := trace w ++ [op] |}.

Definition setClone (workDir : string) (r : LocalRepo) (w : World) : World :=
  {| clones := <[workDir := r]> (clones w); remotes := remotes w;
     occupied := occupied w; trace := trace w |}.

Definition setRemote (url : string) (h : list CommitObject) (w : World) : World :=
  {| clones := clones w; remotes := <[url := h]> (remotes w);
     occupied := occupied w; trace := trace w |}.

(** [*git.Repository]: an open clone, named by its working directory. *)
Abbreviation Repository := string (only parsing).

(** What a fetch that fails leaves of [git.PlainClone]: the library has
    initialised a repository in the directory and named the remote by
    then, and it removes what it made only when the directory was absent or
    empty before the call.  In a directory that held something the
    initialised repository stays, with the remote and no history. *)
Definition abandonClone (workDir url : string) (w : World) : World :=
  if bool_decide (workDir ∈ occupied w) then setClone workDir (MkLocalRepo url []) w
  else w.

(** [git.PlainClone]: returns a repository and an error, like the library.
    A directory that has a clone is refused before anything is made, and
    no repository is returned.  Otherwise a repository is initialised in
    the directory and the remote fetched; the repository is returned
    whether the fetch succeeds or not, in the second case together with the
    error and after [abandonClone].  (A failure of [env] stands for a
    failure of the fetch: network, credential, remote.) *)
Definition PlainClone (env : Env) (workDir url : string) (auth : BasicAuth) (w : World)
  : World * option Repository * option error :=
  let w := record (OpPlainClone workDir url auth) w in
  match clones w !! workDir with
  | Some _ => (w, None, Some (ErrLibrary "repository already exists"))
  | None =>
      if env (OpPlainClone workDir url auth)
      then (abandonClone workDir url w, Some workDir, Some (ErrLibrary "clone"))
      else match remotes w !! url with
           | Some h => (setClone workDir (MkLocalRepo url h) w, Some workDir, None)
           | None =>
               (abandonClone workDir url w, Some workDir,
                Some (ErrLibrary "repository not found"))
           end
  end.

(** [git.PlainOpen]. *)
Definition PlainOpen (env : Env) (workDir : string) (w : World)
  : World * result Repository :=
  let w := record (OpPlainOpen workDir) w in
  if env (OpPlainOpen workDir) then (w, Err (ErrLibrary "open"))
  else match clones w !! workDir with
       | Some _ => (w, Ok workDir)
       | None => (w, Err (ErrLibrary "repository does not exist"))
       end.

(** [Repository.Worktree]. *)
Definition Worktree (env : Env) (r : Repository) (w : World)
  : World * result Repository :=
  let w := record (OpWorktree r) w in
  if env (OpWorktree r) then (w, Err (ErrLibrary "worktree")) else (w, Ok r).

(** [Worktree.Pull]: fast-forwards the clone to its remote; reports
    [NoErrAlreadyUpToDate] when there is nothing to fetch. *)
Definition WorktreePull (env : Env) (r : Repository) (auth : BasicAuth) (w : World)
  : World * option error :=
  let w := record (OpPull r auth) w in
  if env (OpPull r auth) then (w, Some (ErrLibrary "pull"))
  else match clones w !! r with
       | None => (w, Some (ErrLibrary "repository does not exist"))
       | Some c =>
           match remotes w !! Origin c with
           | None => (w, Some (ErrLibrary "repository not found"))
           | Some h =>
               if bool_decide (h = History c) then (w, Some NoErrAlreadyUpToDate)
               else if bool_decide (History c `suffix_of` h)
               then (setClone r (MkLocalRepo (Origin c) h) w, None)
               else (w, Some (ErrLibrary "non-fast-forward update"))
           end
       end.

(** [Worktree.Add]. *)
Definition WorktreeAdd (env : Env) (r : Repository) (w : World)
  : World * option error :=
  let w := record (OpAdd r) w in
  if env (OpAdd r) then (w, Some (ErrLibrary "add")) else (w, None).

(** [Worktree.Commit]: a new commit on top of the clone's history. *)
Definition WorktreeCommit (env : Env) (r : Repository) (message name email : string)
    (w : World) : World * result CommitHash :=
  let w := record (OpCommit r message) w in
  if env (OpCommit r message) then (w, Err (ErrLibrary "commit"))
  else match clones w !! r with
       | None => (w, Err (ErrLibrary "repository does not exist"))
       | Some c =>
           let commit := MkCommit message name email in
           (setClone r (MkLocalRepo (Origin c) (commit :: History c)) w, Ok commit)
       end.

(** [Repository.Push]: fast-forwards the remote to the clone; reports
    [NoErrAlreadyUpToDate] when the remote has everything. *)
Definition RepositoryPush (env : Env) (r : Repository) (auth : BasicAuth) (w : World)
  : World * option error :=
  let w := record (OpPush r auth) w in
  if env (OpPush r auth) then (w, Some (ErrLibrary "push"))
  else match clones w !! r with
       | None => (w, Some (ErrLibrary "repository does not exist"))
       | Some c =>
           match remotes w !! Origin c with
           | None => (w, Some (ErrLibrary "repository not found"))
           | Some h =>
               if bool_decide (h = History c) then (w, Some NoErrAlreadyUpToDate)
               else if bool_decide (h `suffix_of` History c)
               then (setRemote (Origin c) (History c) w, None)
               else (w, Some (ErrLibrary "non-fast-forward update"))
           end
       end.

(** [Config]: the configuration of a client. *)
Record Config : Type := MkConfig {
  URL : string;
  Username : string;
  Token : string;
  WorkDir : string;
  CommitName : string;
  CommitEmail : string
}.

(** [client]: the configuration and the repository, nil until a clone or
    an open returns one. *)
Record client : Type := MkClient {
  config : Config;
  repo : option Repository
}.

(** The credential every remote call of a client is made with. *)
Definition authOf (c : client) : BasicAuth :=
  {| AuthUsername := Username (config c); AuthPassword := Token (config c) |}.

(** [New]. *)
Definition New (url username token workDir commitName commitEmail : string) : client :=
  {| config := MkConfig url username token workDir commitName commitEmail;
     repo := None |}.

(** [client.Clone]: the repository field takes what [PlainClone]
    returns, also when it returns an error with it. *)
Definition Clone (env : Env) (c : client) (w : World) : client * World * option error :=
  let auth := authOf c in
  let '(w1, r, err) := PlainClone env (WorkDir (config c)) (URL (config c)) auth w in
  match err with
  | Some e => (MkClient (config c) r, w1, Some (ErrWrap "failed to clone repository" e))
  | None => (MkClient (config c) r, w1, None)
  end.

(** [client.Pull]. *)
Definition Pull (env : Env) (c : client) (w : World) : World * option error :=
  match repo c with
  | None => (w, Some ErrRepoNotInitialized)
  | Some r =>
      let '(w1, wt) := Worktree env r w in
      match wt with
      | Err e => (w1, Some (ErrWrap "failed to get worktree" e))
      | Ok wt =>
          let auth := authOf c in
          let '(w2, err) := WorktreePull env wt auth w1 in
          match err with
          | Some e =>
              if isAlreadyUpToDate e then (w2, None)
              else (w2, Some (ErrWrap "failed to pull changes" e))
          | None => (w2, None)
          end
      end
  end.

(** [client.Commit]. *)
Definition Commit (env : Env) (c : client) (message : string) (w : World)
  : World * result CommitHash :=
  match repo c with
  | None => (w, Err ErrRepoNotInitialized)
  | Some r =>
      let '(w1, wt) := Worktree env r w in
      match wt with
      | Err e => (w1, Err (ErrWrap "failed to get worktree" e))
      | Ok wt =>
          let '(w2, err) := WorktreeAdd env wt w1 in
          match err with
          | Some e => (w2, Err (ErrWrap "failed to add changes" e))
          | None =>
              let '(w3, h) :=
                WorktreeCommit env wt message (CommitName (config c))
                               (CommitEmail (config c)) w2 in
              match h with
              | Err e => (w3, Err (ErrWrap "failed to commit changes" e))
              | Ok hash => (w3, Ok hash)
              end
          end
      end
  end.

(** [client.Push]. *)
Definition Push (env : Env) (c : client) (w : World) : World * option error :=
  match repo c with
  | None => (w, Some ErrRepoNotInitialized)
  | Some r =>
      let auth := authOf c in
      let '(w1, err) := RepositoryPush env r auth w in
      match err with
      | Some e =>
          if isAlreadyUpToDate e then (w1, None)
          else (w1, Some (ErrWrap "failed to push changes" e))
      | None => (w1, None)
      end
  end.

(** [client.EnsureRepo]: clone when the working directory has no
    [.git], open and pull otherwise. *)
Definition EnsureRepo (env : Env) (c : client) (w : World)
  : client * World * option error :=
  match clones w !! WorkDir (config c) with
  | None => Clone env c w
  | Some _ =>
      let '(w1, r) := PlainOpen env (WorkDir (config c)) w in
      match r with
      | Err e =>
          (MkClient (config c) None, w1,
           Some (ErrWrap "failed to open existing repository" e))
      | Ok rp =>
          let c1 := MkClient (config c) (Some rp) in
          let '(w2, err) := Pull env c1 w1 in
          (c1, w2, err)
      end
  end.

End git.

(** ** The storage service: package [filesystem] *)

Module filesystem.

(** [FileNode]: a file or directory of a listing.  [Children] is nil for
    a file and the (possibly empty) listing of the directory otherwise. *)
#[warnings="-register-all"]
Inductive FileNode : Type := MkFileNode {
  ID : string;
  Name : string;
  Path : string;
  Children : option (list FileNode)
}.

(** [FileSystem]: the root directory of all workspaces and the registry
    of repository handles, by user and workspace.  The registry holds
    pointers in the source; here it holds the handles, and an operation
    that changes a handle stores the new value. *)
Record FileSystem : Type := MkFileSystem {
  RootDir : string;
  GitRepos : gmap Z (gmap Z git.client)
}.

(** [FileCountStats]. *)
Record FileCountStats : Type := MkFileCountStats {
  TotalFiles : Z;
  TotalSize : Z
}.

(** [New]. *)
Definition New (rootDir : string) : FileSystem :=
  {| RootDir := rootDir; GitRepos := ∅ |}.

(** [GetWorkspacePath]. *)
Definition GetWorkspacePath (fs : FileSystem) (userID workspaceID : Z) : string :=
  filepath.Join [RootDir fs; fmt.Sprintf_d userID; fmt.Sprintf_d workspaceID].

(** [ValidatePath]. *)
Definition ValidatePath (fs : FileSystem) (userID workspaceID : Z) (path : string)
  : result string :=
  let workspacePath := GetWorkspacePath fs userID workspaceID in
  let fullPath := filepath.Join [workspacePath; path] in
  let cleanPath := filepath.Clean fullPath in
  if negb (strs.HasPrefix cleanPath workspacePath) then Err ErrOutsideWorkspace
  else Ok cleanPath.

Section Listing.

Context {U : strs.Unicode}.

(** [sort.Slice]: the library's sort, not stable; the listing is defined
    for any function in its place. *)
Variable sort_Slice : forall A : Type, (A -> A -> bool) -> list A -> list A.

(** What walking into an entry gives, from the directory path and the
    prefix of the identifiers. *)
Definition listing : Type := string -> string -> result (list FileNode).

(** The [less] function of both sorts: by lower-cased name. *)
Definition lessLower (a b : os.DirEntry listing) : bool :=
  strs.lt (strs.ToLower (os.Name a)) (strs.ToLower (os.Name b)).

(** The loop over the directories: each is walked and appended with its
    children; the first failure ends the listing. *)
Fixpoint addDirs (dirs : list (os.DirEntry listing)) (dir pre : string)
    (nodes : list FileNode) : result (list FileNode) :=
  match dirs with
  | [] => Ok nodes
  | entry :: rest =>
      let name := os.Name entry in
      let path := filepath.Join [pre; name] in
      let fullPath := filepath.Join [dir; name] in
      match os.descend entry fullPath path with
      | Err e => Err e
      | Ok children =>
          let node := {| ID := path; Name := name; Path := path;
                         Children := Some children |} in
          addDirs rest dir pre (nodes ++ [node])
      end
  end.

(** The loop over the files. *)
Fixpoint addFiles (files : list (os.DirEntry listing)) (pre : string)
    (nodes : list FileNode) : list FileNode :=
  match files with
  | [] => nodes
  | entry :: rest =>
      let name := os.Name entry in
      let path := filepath.Join [pre; name] in
      let node := {| ID := path; Name := name; Path := path; Children := None |} in
      addFiles rest pre (nodes ++ [node])
  end.

(** [walkDirectory], on the object [n] found at [dir]. *)
Fixpoint walkDirectory (n : os.node) (dir pre : string) : result (list FileNode) :=
  match n with
  | os.File _ => Err ErrNotDir
  | os.Dir r es =>
      match os.ReadDir r
              (map (fun xc => os.MkDirEntry (fst xc) (snd xc) (walkDirectory (snd xc)))
                   es) with
      | Err e => Err e
      | Ok entries =>
          let dirs := List.filter (fun e => os.IsDir e) entries in
          let files := List.filter (fun e => negb (os.IsDir e)) entries in
          let dirs := sort_Slice _ lessLower dirs in
          let files := sort_Slice _ lessLower files in
          match addDirs dirs dir pre [] with
          | Err e => Err e
          | Ok nodes => Ok (addFiles files pre nodes)
          end
      end
  end.

(** [ListFilesRecursively], on the file system [disk]. *)
Definition ListFilesRecursively (fs : FileSystem) (disk : os.node)
    (userID workspaceID : Z) : result (list FileNode) :=
  let workspacePath := GetWorkspacePath fs userID workspaceID in
  match os.Stat disk workspacePath with
  | Err e => Err e
  | Ok n => walkDirectory n workspacePath ""
  end.

End Listing.

(** The callback of [FindFileByName]; its state is [foundPaths]. *)
Definition findFn {U : strs.Unicode} (workspacePath filename : string)
  : @walker.WalkFunc (list string) :=
  fun path info err foundPaths =>
    match err with
    | Some e => (foundPaths, Some e)
    | None =>
        match info with
        | None => (foundPaths, Some ErrNilDereference)
        | Some info =>
            if negb (walker.infoIsDir info) then
              match filepath.Rel workspacePath path with
              | Err e => (foundPaths, Some e)
              | Ok relPath =>
                  if strs.EqualFold (walker.infoName info) filename
                  then ((foundPaths ++ [relPath])%list, None)
                  else (foundPaths, None)
              end
            else (foundPaths, None)
        end
    end.

(** [FindFileByName], on the file system [disk]. *)
Definition FindFileByName {U : strs.Unicode} (fs : FileSystem) (disk : os.node)
    (userID workspaceID : Z) (filename : string) : result (list string) :=
  let workspacePath := GetWorkspacePath fs userID workspaceID in
  let '(foundPaths, err) :=
    walker.Walk (findFn workspacePath filename) disk workspacePath [] in
  match err with
  | Some e => Err e
  | None =>
      match foundPaths with
      | [] => Err ErrFileNotFound
      | _ => Ok foundPaths
      end
  end.

(** [GetFileContent]. *)
Definition GetFileContent (fs : FileSystem) (disk : os.node) (userID workspaceID : Z)
    (filePath : string) : result (list byte) :=
  match ValidatePath fs userID workspaceID filePath with
  | Err e => Err e
  | Ok fullPath => os.ReadFile disk fullPath
  end.

(** [SaveFile]; returns the new file system and the error. *)
Definition SaveFile (fs : FileSystem) (disk : os.node) (userID workspaceID : Z)
    (filePath : string) (content : list byte) : os.node * option error :=
  match ValidatePath fs userID workspaceID filePath with
  | Err e => (disk, Some e)
  | Ok fullPath =>
      let dir := filepath.Dir fullPath in
      let '(disk1, err) := os.MkdirAll disk dir in
      match err with
      | Some e => (disk1, Some e)
      | None => os.WriteFile disk1 fullPath content
      end
  end.

(** [DeleteFile]; returns the new file system and the error. *)
Definition DeleteFile (fs : FileSystem) (disk : os.node) (userID workspaceID : Z)
    (filePath : string) : os.node * option error :=
  match ValidatePath fs userID workspaceID filePath with
  | Err e => (disk, Some e)
  | Ok fullPath => os.Remove disk fullPath
  end.

(** [InitializeUserWorkspace]. *)
Definition InitializeUserWorkspace (fs : FileSystem) (disk : os.node)
    (userID workspaceID : Z) : os.node * option error :=
  let workspacePath := GetWorkspacePath fs userID workspaceID in
  let '(disk1, err) := os.MkdirAll disk workspacePath in
  match err with
  | Some e => (disk1, Some (ErrWrap "failed to create workspace directory" e))
  | None => (disk1, None)
  end.

(** [DeleteUserWorkspace]. *)
Definition DeleteUserWorkspace (fs : FileSystem) (disk : os.node)
    (userID workspaceID : Z) : os.node * option error :=
  let workspacePath := GetWorkspacePath fs userID workspaceID in
  let '(disk1, err) := os.RemoveAll disk workspacePath in
  match err with
  | Some e => (disk1, Some (ErrWrap "failed to delete workspace directory" e))
  | None => (disk1, None)
  end.

(** [CreateWorkspaceDirectory]. *)
Definition CreateWorkspaceDirectory (fs : FileSystem) (disk : os.node)
    (userID workspaceID : Z) : os.node * option error :=
  os.MkdirAll disk (GetWorkspacePath fs userID workspaceID).

(** Addition of Go's [int] and [int64]: 64 bits, two's complement. *)
Definition wrap64 (z : Z) : Z := (z + 2 ^ 63) mod 2 ^ 64 - 2 ^ 63.

Definition add64 (a b : Z) : Z := wrap64 (a + b).

(** The callback of [countFilesInPath]; its state is [result].  The
    object does not change during the walk, so [d.Info()] succeeds. *)
Definition countFn (directoryPath : string) : @walker.WalkFunc FileCountStats :=
  fun path d err result =>
    match err with
    | Some e => (result, Some e)
    | None =>
        match d with
        | None => (result, Some ErrNilDereference)
        | Some d =>
            if walker.infoIsDir d && String.eqb (walker.infoName d) ".git"
            then (result, Some SkipDir)
            else if negb (walker.infoIsDir d) then
              match filepath.Rel directoryPath path with
              | Err e => (result, Some (ErrWrap "failed to get relative path" e))
              | Ok relPath =>
                  ({| TotalFiles := add64 (TotalFiles result) 1;
                      TotalSize := add64 (TotalSize result) (walker.infoSize d) |},
                   None)
              end
            else (result, None)
        end
    end.

(** [countFilesInPath], on the file system [disk]. *)
Definition countFilesInPath (disk : os.node) (directoryPath : string)
  : result FileCountStats :=
  let '(result, err) :=
    walker.WalkDir (countFn directoryPath) disk directoryPath (MkFileCountStats 0 0) in
  match err with
  | Some e => Err (ErrWrap "error counting files" e)
  | None => Ok result
  end.

(** [GetFileStats]. *)
Definition GetFileStats (fs : FileSystem) (disk : os.node) (userID workspaceID : Z)
  : result FileCountStats :=
  let workspacePath := GetWorkspacePath fs userID workspaceID in
  if os.IsNotExist (os.Stat disk workspacePath) then Err ErrWorkspaceMissing
  else countFilesInPath disk workspacePath.

(** Modelled from the spec: [gitutils.New], the four-argument constructor
    of the client version that [filesystem.go] imports, is not among the
    sources; it is taken to be [New] of the [git] client with an empty
    commit identity. *)
Definition newGitRepo (url username token workDir : string) : git.client :=
  git.New url username token workDir "" "".

(** The assignment [repos[userID][workspaceID] = c]; the inner map is
    there when it is reached. *)
Definition assign (repos : gmap Z (gmap Z git.client)) (userID workspaceID : Z)
    (c : git.client) : gmap Z (gmap Z git.client) :=
  match repos !! userID with
  | Some userRepos => <[userID := <[workspaceID := c]> userRepos]> repos
  | None => repos
  end.

(** [getGitRepo]. *)
Definition getGitRepo (fs : FileSystem) (userID workspaceID : Z) : option git.client :=
  match GitRepos fs !! userID with
  | None => None
  | Some userRepos => userRepos !! workspaceID
  end.

(** [SetupGitRepo]: the handle is stored first, then [EnsureRepo] runs on
    the stored handle and its error is returned. *)
Definition SetupGitRepo (env : git.Env) (fs : FileSystem) (userID workspaceID : Z)
    (gitURL gitUser gitToken : string) (w : git.World)
  : FileSystem * git.World * option error :=
  let workspacePath := GetWorkspacePath fs userID workspaceID in
  let repos := GitRepos fs in
  let repos :=
    match repos !! userID with
    | Some _ => repos
    | None => <[userID := ∅]> repos
    end in
  let c := newGitRepo gitURL gitUser gitToken workspacePath in
  let repos := assign repos userID workspaceID c in
  let '(c1, w1, err) := git.EnsureRepo env c w in
  (MkFileSystem (RootDir fs) (assign repos userID workspaceID c1), w1, err).

(** [DisableGitRepo]. *)
Definition DisableGitRepo (fs : FileSystem) (userID workspaceID : Z) : FileSystem :=
  match GitRepos fs !! userID with
  | Some userRepos =>
      let userRepos := delete workspaceID userRepos in
      let repos := <[userID := userRepos]> (GitRepos fs) in
      if bool_decide (size userRepos = 0%nat)
      then MkFileSystem (RootDir fs) (delete userID repos)
      else MkFileSystem (RootDir fs) repos
  | None => fs
  end.

(** [StageCommitAndPush]; of what [Commit] returns only the error is
    looked at. *)
Definition StageCommitAndPush (env : git.Env) (fs : FileSystem) (userID workspaceID : Z)
    (message : string) (w : git.World) : git.World * option error :=
  match getGitRepo fs userID workspaceID with
  | None => (w, Some ErrGitNotConfigured)
  | Some repo =>
      let '(w1, r) := git.Commit env repo message w in
      match r with
      | Err e => (w1, Some e)
      | Ok _ => git.Push env repo w1
      end
  end.

(** [Pull]. *)
Definition Pull (env : git.Env) (fs : FileSystem) (userID workspaceID : Z)
    (w : git.World) : git.World * option error :=
  match getGitRepo fs userID workspaceID with
  | None => (w, Some ErrGitNotConfigured)
  | Some repo => git.Pull env repo w
  end.

End filesystem.

(** ** A sort for [sort.Slice], and sample states *)

(** Insertion of [x] before the first element it is less than. *)
Fixpoint insertLess {A : Type} (less : A -> A -> bool) (x : A) (l : list A) : list A :=
  match l with
  | [] => [x]
  | y :: rest => if less x y then x :: l else y :: insertLess less x rest
  end.

(** Insertion sort: one of the functions [sort.Slice] may be. *)
Definition insertionSort (A : Type) (less : A -> A -> bool) (l : list A) : list A :=
  fold_right (insertLess less) [] l.

Module sample.

Import os.

Definition fs : filesystem.FileSystem := filesystem.New "/data".

(** The workspace of user 7, workspace 12: two directories whose names
    differ by case only, files at the top level, a [.git] directory with
    an unreadable directory inside, and an empty directory. *)
Definition workspace : node :=
  Dir true
    [("notes", Dir true [("A.md", File [x68; x69])]);
     ("NOTES", Dir true [("a.MD", File [x00])]);
     ("b.txt", File []);
     ("B.txt", File [xff]);
     ("a.md", File [x01; x02; x03]);
     (".git", Dir true [("config", File [x01]);
                        ("objects", Dir false [("x", File [x01; x02])])]);
     ("Zed", Dir true [])].

(** The same workspace without its [.git]. *)
Definition plainWorkspace : node :=
  Dir true
    [("notes", Dir true [("A.md", File [x68; x69])]);
     ("NOTES", Dir true [("a.MD", File [x00])]);
     ("b.txt", File []);
     ("B.txt", File [xff]);
     ("a.md", File [x01; x02; x03]);
     ("Zed", Dir true [])].

Definition diskOf (ws : node) : node :=
  Dir true [("data", Dir true [("7", Dir true [("12", ws)])])].

Definition disk : node := diskOf workspace.

Definition plainDisk : node := diskOf plainWorkspace.

End sample.

(** ** Predicates of the specification *)

(** The registry invariant: a user that is present has at least one
    workspace with a handle. *)
Definition registry_inv (repos : gmap Z (gmap Z git.client)) : Prop :=
  forall (userID : Z) (userRepos : gmap Z git.client),
    repos !! userID = Some userRepos -> userRepos <> ∅.

Module sample_git.

Definition url : string := "https://git.example.org/notes.git".

(** No call that needs anything outside the process succeeds. *)
Definition offline : git.Env := fun _ => true.

(** Every call succeeds as far as the environment is concerned. *)
Definition online : git.Env := fun _ => false.

(** Only pushes fail. *)
Definition pushDown : git.Env :=
  fun op => match op with
            | git.OpPush _ _ => true
            | _ => false
            end.

(** Only commits fail. *)
Definition commitDown : git.Env :=
  fun op => match op with
            | git.OpCommit _ _ => true
            | _ => false
            end.

Definition initial : git.CommitObject := git.MkCommit "initial" "ann" "ann@example.org".

(** A remote with one commit and no clone anywhere. *)
Definition world : git.World :=
  git.MkWorld ∅ {[ url := [initial] ]} ∅ [].

(** The same, with files in the working directory [/data/7/12]. *)
Definition inhabited : git.World :=
  git.MkWorld ∅ {[ url := [initial] ]} {[ "/data/7/12" ]} [].

End sample_git.

Module sample_registry.

Definition handle : git.client :=
  filesystem.newGitRepo sample_git.url "ann" "secret" "/data/7/12".

(** A registry with the single handle of user 7, workspace 12. *)
Definition fs : filesystem.FileSystem :=
  filesystem.MkFileSystem "/data" {[ 7 := {[ 12 := handle ]} ]}.

End sample_registry.

Module sample_sync.

(** A handle with a commit identity, as the [git] package makes it. *)
Definition handle0 : git.client :=
  git.New sample_git.url "ann" "secret" "/data/7/12" "Ann" "ann@example.org".

(** The handle and the world after a first [EnsureRepo] with the remote in
    reach. *)
Definition handle : git.client :=
  fst (fst (git.EnsureRepo sample_git.online handle0 sample_git.world)).

Definition world : git.World :=
  snd (fst (git.EnsureRepo sample_git.online handle0 sample_git.world)).

Definition fs : filesystem.FileSystem :=
  filesystem.MkFileSystem "/data" {[ 7 := {[ 12 := handle ]} ]}.

End sample_sync.

(** No push among the library calls [ops]. *)
Definition noPush (ops : list git.Op) : Prop :=
  Forall (fun op => match op with
                    | git.OpPush _ _ => False
                    | _ => True
                    end) ops.

(** No clone among the library calls [ops]. *)
Definition noClone (ops : list git.Op) : Prop :=
  Forall (fun op => match op with
                    | git.OpPlainClone _ _ _ => False
                    | _ => True
                    end) ops.

(** Every directory of the tree can be read. *)
Fixpoint readableAll (n : os.node) : bool :=
  match n with
  | os.File _ => true
  | os.Dir r entries => r && forallb (fun xc => readableAll (snd xc)) entries
  end.

(** A node of a listing that stands for a directory. *)
Definition isDirNode (f : filesystem.FileNode) : bool :=
  match filesystem.Children f with
  | Some _ => true
  | None => false
  end.

(** The key both sorts compare: the lower-cased name. *)
Definition lowerKey {U : strs.Unicode} (f : filesystem.FileNode) : string :=
  strs.ToLower (filesystem.Name f).

(** Keys in sorted order: no key is less than one before it. *)
Definition sortedKeys (keys : list string) : Prop :=
  StronglySorted (fun a b => strs.lt b a = false) keys.

(** The order of a listing: the directory nodes, sorted by lower-cased
    name, before the file nodes, sorted by lower-cased name, and the
    children of every directory node in that order again. *)
#[warnings="-register-all"]
Inductive dirsFirst {U : strs.Unicode} : list filesystem.FileNode -> Prop :=
  | dirsFirst_intro (dirs files : list filesystem.FileNode) :
      Forall (fun d => isDirNode d = true) dirs ->
      Forall (fun f => isDirNode f = false) files ->
      sortedKeys (map lowerKey dirs) ->
      sortedKeys (map lowerKey files) ->
      Forall (fun d => forall children,
                  filesystem.Children d = Some children -> dirsFirst children) dirs ->
      dirsFirst (dirs ++ files).

(** The node [f] of a listing is the node of the entry [xc] of a
    directory: it has the name of the entry; for a file it has no
    children; for a directory it has children, and they are the nodes of
    the entries of that directory, one for each entry, in some order. *)
#[warnings="-register-all"]
Inductive nodeFor : string * os.node -> filesystem.FileNode -> Prop :=
  | nodeFor_file (name : string) (content : list byte) (f : filesystem.FileNode) :
      filesystem.Name f = name ->
      filesystem.Children f = None ->
      nodeFor (name, os.File content) f
  | nodeFor_dir (name : string) (r : bool) (entries paired : list (string * os.node))
      (f : filesystem.FileNode) (children : list filesystem.FileNode) :
      filesystem.Name f = name ->
      filesystem.Children f = Some children ->
      Permutation paired entries ->
      Forall2 nodeFor paired children ->
      nodeFor (name, os.Dir r entries) f.

(** [nodes] is a listing of the directory [n]: the nodes of its entries,
    one for each entry, in some order. *)
Definition listingOfDir (n : os.node) (nodes : list filesystem.FileNode) : Prop :=
  match n with
  | os.File _ => False
  | os.Dir _ entries =>
      exists paired : list (string * os.node),
        Permutation paired entries /\ Forall2 nodeFor paired nodes
  end.

(** What [sort.Slice] asks of [less]: a strict weak order. *)
Definition strictWeakOrder {A : Type} (less : A -> A -> bool) : Prop :=
  (forall x, less x x = false) /\
  (forall x y z, less x y = true -> less y z = true -> less x z = true) /\
  (forall x y z, less x y = false -> less y z = false -> less x z = false).

(** What [sort.Slice] gives for such a [less]: the same elements, none
    less than one before it.  Nothing is promised on the order of
    elements that compare equal. *)
Definition sortsSlices (sort : forall A : Type, (A -> A -> bool) -> list A -> list A)
  : Prop :=
  forall (A : Type) (less : A -> A -> bool) (l : list A),
    Permutation (sort A less l) l /\
    (strictWeakOrder less ->
     StronglySorted (fun a b => less b a = false) (sort A less l)).

(** ** Valid names and clean paths *)

(** No separator in the string. *)
Fixpoint slashFree (s : string) : bool :=
  match s with
  | EmptyString => true
  | String c r => negb (Ascii.eqb c "/") && slashFree r
  end.

(** Every byte of the string passes the test. *)
Fixpoint allChars (p : ascii -> bool) (s : string) : bool :=
  match s with
  | EmptyString => true
  | String c r => p c && allChars p r
  end.

(** The bytes [%d] writes: the digits and the sign. *)
Definition isDecimalChar (c : ascii) : bool :=
  let n := N_of_ascii c in
  ((48 <=? n)%N && (n <=? 57)%N) || (n =? 45)%N.

(** An element [filepath.Clean] keeps: not empty, not [.], no separator. *)
Definition plain (x : string) : bool :=
  negb (String.eqb x "") && negb (String.eqb x ".") && slashFree x.

(** A name a directory entry can have. *)
Definition validName (x : string) : bool :=
  plain x && negb (String.eqb x "..").

(** Every entry of the tree has a valid name. *)
Fixpoint validNames (n : os.node) : bool :=
  match n with
  | os.File _ => true
  | os.Dir _ entries =>
      forallb (fun xc => validName (fst xc) && validNames (snd xc)) entries
  end.

Definition allDotDot (stack : list string) : bool :=
  forallb (fun x => String.eqb x "..") stack.

Definition noDotDot (stack : list string) : bool :=
  forallb (fun x => negb (String.eqb x "..")) stack.

(** The [..] elements of a stack of kept elements (last element first)
    are all at its bottom. *)
Fixpoint dotsAtBottom (stack : list string) : bool :=
  match stack with
  | [] => true
  | x :: rest => if String.eqb x ".." then allDotDot rest else dotsAtBottom rest
  end.

(** The stacks [filepath.Clean] ends with: plain elements, no [..] in a
    rooted path and only leading ones otherwise. *)
Definition stackOK (rooted : bool) (stack : list string) : bool :=
  forallb plain stack && (if rooted then noDotDot stack else dotsAtBottom stack).

(** The path [filepath.Clean] writes for the kept elements. *)
Definition render (rooted : bool) (elems : list string) : string :=
  if rooted then "/" ++ filepath.joinSlash elems
  else match elems with
       | [] => "."
       | _ => filepath.joinSlash elems
       end.

(** A path relative to the walked root, from its elements. *)
Definition relString (elems : list string) : string :=
  match elems with
  | [] => "."
  | _ => filepath.joinSlash elems
  end.

(** ** The files a walk meets *)

(** The files of a tree in the order [filepath.Walk] meets them: a
    directory's entries in the order of their names, everything below an
    entry before the next entry.  Each file comes with the names that lead
    to it from the root of the walk and with its own name. *)
Fixpoint filesInWalkOrder (name : string) (n : os.node) (rel : list string)
  : list (list string * string) :=
  match n with
  | os.File _ => [(rel, name)]
  | os.Dir _ entries =>
      flat_map (fun e => os.descend e (rel ++ [os.Name e])%list)
               (os.sortByName
                  (map (fun xc => os.MkDirEntry (fst xc) (snd xc)
                                    (filesInWalkOrder (fst xc) (snd xc)))
                       entries))
  end.

(** The relative paths of the files whose name equals [filename] up to
    the case of letters, in the order of [files]. *)
Definition matchingPaths {U : strs.Unicode} (filename : string)
    (files : list (list string * string)) : list string :=
  map (fun f => relString (fst f))
      (List.filter (fun f => strs.EqualFold (snd f) filename) files).

(** Every file of a tree, with the names that lead to it from the root
    (its own name last) and its size. *)
Fixpoint allFiles (n : os.node) (rel : list string) : list (list string * Z) :=
  match n with
  | os.File _ => [(rel, os.size n)]
  | os.Dir _ entries =>
      flat_map (fun xc => allFiles (snd xc) (rel ++ [fst xc])%list) entries
  end.

(** The file with these names lies in a directory called [.git], at any
    depth. *)
Definition underGit (rel : list string) : bool :=
  existsb (fun x => String.eqb x ".git") (removelast rel).

(** The sizes of the files of a workspace that lie in no [.git]
    directory, one per file. *)
Definition workspaceSizes (n : os.node) : list Z :=
  map snd (List.filter (fun f => negb (underGit (fst f))) (allFiles n [])).

(** The sizes the walk of [countFilesInPath] counts below an object
    called [name]: nothing below a directory called [.git]. *)
Fixpoint countedSizes (name : string) (n : os.node) : list Z :=
  match n with
  | os.File _ => [os.size n]
  | os.Dir _ entries =>
      if String.eqb name ".git" then []
      else flat_map (fun xc => countedSizes (fst xc) (snd xc)) entries
  end.

(** Every directory that lies in no [.git] directory, and is not one,
    can be read. *)
Fixpoint readableOutsideGit (name : string) (n : os.node) : bool :=
  match n with
  | os.File _ => true
  | os.Dir r entries =>
      String.eqb name ".git"
      || (r && forallb (fun xc => readableOutsideGit (fst xc) (snd xc)) entries)
  end.

(** The same for a workspace directory, whatever its own name. *)
Definition workspaceReadable (n : os.node) : bool :=
  match n with
  | os.File _ => true
  | os.Dir r entries =>
      r && forallb (fun xc => readableOutsideGit (fst xc) (snd xc)) entries
  end.

Definition sumZ (l : list Z) : Z := fold_right Z.add 0 l.

Module sample_find.

Import os.

(** A workspace with [notes/A.md] and [NOTES/a.MD]. *)
Definition twoNotes : node :=
  Dir true [("notes", Dir true [("A.md", File [x68; x69])]);
            ("NOTES", Dir true [("a.MD", File [x00])])].

(** A workspace in which the order of the walk is not the order of the
    relative paths as strings: [a] is walked before [a.d], yet [a.d/x.md]
    is less than [a/x.md]. *)
Definition dotted : node :=
  Dir true [("a.d", Dir true [("x.md", File [])]);
            ("a", Dir true [("x.md", File [])])].

End sample_find.

(** ** Auxiliary notions of the proofs *)

(** The node [addFiles] makes of a file entry. *)
Definition fileNodeOf (pre : string) (e : os.DirEntry filesystem.listing)
  : filesystem.FileNode :=
  {| filesystem.ID := filepath.Join [pre; os.Name e]; filesystem.Name := os.Name e;
     filesystem.Path := filepath.Join [pre; os.Name e]; filesystem.Children := None |}.

(** The name and the object of an entry. *)
Definition pairOf {K : Type} (e : os.DirEntry K) : string * os.node :=
  (os.Name e, os.Node e).

(** Walking into the entry gives a listing of its directory, and an
    ordered one. *)
Definition goodDir {U : strs.Unicode} (e : os.DirEntry filesystem.listing) : Prop :=
  forall dir pre, exists children,
    os.descend e dir pre = Ok children /\ dirsFirst children /\
    listingOfDir (os.Node e) children.

(** The stack of a path that lies [names] below a clean path. *)
Definition below (stack names : list string) : list string := (rev names ++ stack)%list.

(** What the walk of [FindFileByName] into one entry does to the paths
    found so far, for a walk rooted at the clean path of stack [base]. *)
Definition findsBelow {U : strs.Unicode} (rooted : bool) (base : list string) (filename : string)
    (xc : string * os.node) : Prop :=
  validName (fst xc) = true /\
  forall (names found : list string),
    forallb validName names = true ->
    walker.walk (filesystem.findFn (render rooted (rev base)) filename) (fst xc) (snd xc)
                (render rooted (rev (below base names))) found
    = ((found ++ matchingPaths filename (filesInWalkOrder (fst xc) (snd xc) names))%list,
       None).

(** The statistics after [sizes] more files. *)
Definition counted (a b : Z) (sizes : list Z) : filesystem.FileCountStats :=
  {| filesystem.TotalFiles := filesystem.wrap64 (a + Z.of_nat (List.length sizes));
     filesystem.TotalSize := filesystem.wrap64 (b + sumZ sizes) |}.

(** What the walk of [countFilesInPath] into one entry does to the
    statistics, for a walk rooted at the clean path of stack [base]. *)
Definition countsBelow (rooted : bool) (base : list string) (xc : string * os.node)
  : Prop :=
  validName (fst xc) = true /\
  forall (names : list string) (a b : Z),
    forallb validName names = true ->
    walker.walkDir (filesystem.countFn (render rooted (rev base))) (fst xc) (snd xc)
                   (render rooted (rev (below base names)))
                   {| filesystem.TotalFiles := filesystem.wrap64 a;
                      filesystem.TotalSize := filesystem.wrap64 b |}
    = (counted a b (countedSizes (fst xc) (snd xc)), None).

(** The errors [Pull] and [Push] can return: the not-initialised error or
    a wrapped cause that is not the up-to-date sentinel. *)
Definition surfaced (messages : list string) (e : error) : Prop :=
  e = ErrRepoNotInitialized \/
  exists (msg : string) (cause : error),
    e = ErrWrap msg cause /\ In msg messages /\ isAlreadyUpToDate cause = false.

(** ** Paths without [..] *)

(** An element that [filepath.Clean] does not drop. *)
Definition kept (x : string) : bool :=
  negb (String.eqb x "" || String.eqb x ".").

(** The elements of [path] that name something: neither empty nor [.]. *)
Definition keptNames (path : string) : list string :=
  List.filter kept (filepath.splitSlash path).

(** No element of [path] is [..]. *)
Definition dotDotFree (path : string) : bool :=
  noDotDot (filepath.splitSlash path).

(** The path of the object that [names] lead to from [root]. *)
Definition under (root : string) (names : list string) : string :=
  match names with
  | [] => root
  | _ => root ++ "/" ++ filepath.joinSlash names
  end.

(** ** The content of a listing *)

(** What a listing says of one object: [ID], [Name], [Path], and
    whether it has children, that is, stands for a directory. *)
Definition listed : Type := (string * string * string * bool)%type.

(** A node of a listing and all the nodes below it. *)
Fixpoint flatten (f : filesystem.FileNode) : list listed :=
  match f with
  | filesystem.MkFileNode id name path children =>
      (id, name, path, match children with Some _ => true | None => false end)
      :: match children with
         | Some nodes => flat_map flatten nodes
         | None => []
         end
  end.

(** The prefix of the identifiers in the directory that [rel] leads to
    from the workspace: empty at the top. *)
Definition prefixOf (rel : list string) : string :=
  match rel with
  | [] => ""
  | _ => filepath.joinSlash rel
  end.

(** What is to be said of the object [n] called [name] in the directory
    that [rel] leads to, and of all the objects in it: the path relative
    to the workspace is both [ID] and [Path]. *)
Fixpoint listedBelow (rel : list string) (name : string) (n : os.node) : list listed :=
  let path := filepath.joinSlash (rel ++ [name]) in
  (path, name, path, os.isDir n)
  :: match n with
     | os.File _ => []
     | os.Dir _ entries =>
         flat_map (fun xc => listedBelow (rel ++ [name]) (fst xc) (snd xc)) entries
     end.

(** The same for every object in the directory [n] that [rel] leads to. *)
Definition listedIn (rel : list string) (n : os.node) : list listed :=
  match n with
  | os.File _ => []
  | os.Dir _ entries => flat_map (fun xc => listedBelow rel (fst xc) (snd xc)) entries
  end.

(** The same for an entry as the walk holds it. *)
Definition listedEntry (rel : list string) (e : os.DirEntry filesystem.listing)
  : list listed :=
  listedBelow rel (os.Name e) (os.Node e).

(** Walking into the entry, a directory of the directory that [rel] leads
    to, lists what is in it. *)
Definition listsBelow (rel : list string) (e : os.DirEntry filesystem.listing) : Prop :=
  validName (os.Name e) = true /\
  os.IsDir e = true /\
  forall dir : string, exists children : list filesystem.FileNode,
    os.descend e dir (filepath.joinSlash (rel ++ [os.Name e])) = Ok children /\
    Permutation (flat_map flatten children) (listedIn (rel ++ [os.Name e]) (os.Node e)).

(** ** Directories as a file system has them *)



(** ** The size of what a path names *)

(** The size of the regular file that [names] lead to in [n], if there
    is one. *)
Definition sizeAt (names : list string) (n : os.node) : list Z :=
  match os.lookup names n with
  | Ok (os.File content) => [Z.of_nat (List.length content)]
  | _ => []
  end.

(** None of the names is [.git]. *)
Definition noGit (names : list string) : bool :=
  forallb (fun x => negb (String.eqb x ".git")) names.

(** ** Where the library is called *)

(** The library call is made on the working directory [workDir], and
    with the credential [auth] when it takes one. *)
Definition callOn (workDir : string) (auth : git.BasicAuth) (op : git.Op) : Prop :=
  match op with
  | git.OpPlainClone d _ a => d = workDir /\ a = auth
  | git.OpPlainOpen d => d = workDir
  | git.OpWorktree d => d = workDir
  | git.OpPull d a => d = workDir /\ a = auth
  | git.OpAdd d => d = workDir
  | git.OpCommit d _ => d = workDir
  | git.OpPush d a => d = workDir /\ a = auth
  end.

(** The calls made from [w] to [w1] are all of that kind. *)
Definition callsOn (workDir : string) (auth : git.BasicAuth) (w w1 : git.World) : Prop :=
  exists ops : list git.Op,
    git.trace w1 = (git.trace w ++ ops)%list /\ Forall (callOn workDir auth) ops.

(** * Properties *)

Import filesystem.

(** ** Sample evaluations of the path functions *)

Example Clean_samples :
  map filepath.Clean
      [""; "/"; "/.."; "a/.."; "../a"; "a/../../b"; "/a//b/./c/.."; "a/b/"]
  = ["."; "/"; "/"; "."; "../a"; "../b"; "/a/b"; "a/b"].
Proof. reflexivity. Qed.

Example Join_samples :
  map filepath.Join
      [[""; ""]; [""; "a"]; ["a"; ""; "b"]; ["/data"; "7"; "12"]; ["a"; "../.."]]
  = [""; "a"; "a/b"; "/data/7/12"; ".."].
Proof. reflexivity. Qed.

Example Dir_samples :
  map filepath.Dir ["/data/7/12/notes/a.md"; "a"; "/a"; "a/b/"; ""]
  = ["/data/7/12/notes"; "."; "/"; "a/b"; "."].
Proof. reflexivity. Qed.

Example Base_samples :
  map filepath.Base ["/data/7/12"; "a/b//"; "///"; ""; "x"] = ["12"; "b"; "/"; "."; "x"].
Proof. reflexivity. Qed.

Example Rel_samples :
  map (filepath.Rel "/data/7/12")
      ["/data/7/12/notes/a.md"; "/data/7/12"; "/data/7/123/x"; "data"]
  = [Ok "notes/a.md"; Ok "."; Ok "../123/x"; Err (ErrLibrary "Rel")].
Proof. reflexivity. Qed.

Example ToLower_sample : strs.lowerASCII "NoTes-01.MD" = "notes-01.md".
Proof. reflexivity. Qed.

(** ** Path sandboxing *)

Lemma prefix_append (s t : string) : String.prefix s (s ++ t) = true.
Proof.
  induction s as [|a s IH]; simpl.
  - destruct t; reflexivity.
  - destruct (ascii_dec a a) as [_|Hne]; [exact IH | contradiction].
Qed.

(** What [ValidatePath] decides on: a bare prefix test of the cleaned
    path against the workspace path. *)
Lemma ValidatePath_prefix (fs : FileSystem) (userID workspaceID : Z) (path : string) :
  let root := GetWorkspacePath fs userID workspaceID in
  let cleanPath := filepath.Clean (filepath.Join [root; path]) in
  ValidatePath fs userID workspaceID path
  = if String.prefix root cleanPath then Ok cleanPath else Err ErrOutsideWorkspace.
Proof.
  cbv zeta. unfold ValidatePath, strs.HasPrefix.
  destruct (String.prefix _ _); reflexivity.
Qed.

(** Every path that cleans to a descendant of the workspace root is
    accepted and returned cleaned. *)
Lemma ValidatePath_descendant (fs : FileSystem) (userID workspaceID : Z)
    (path rest : string) :
  filepath.Clean (filepath.Join [GetWorkspacePath fs userID workspaceID; path])
  = GetWorkspacePath fs userID workspaceID ++ "/" ++ rest ->
  ValidatePath fs userID workspaceID path
  = Ok (GetWorkspacePath fs userID workspaceID ++ "/" ++ rest).
Proof.
  intros H. rewrite ValidatePath_prefix. cbv zeta. rewrite H.
  now rewrite prefix_append.
Qed.

(** C1. The descendant check of [ValidatePath] is not separator-aware:
    with the workspace root [/data/7/12], the relative path
    [../123/secret.md], which cleans to a file of the sibling directory
    [/data/7/123], is accepted and resolved instead of being refused with
    the outside-of-workspace error; the workspace root itself ([.]), not a
    strict descendant, is accepted as well.  A path under [/data/7/13],
    which shares no such prefix, is refused. *)
Theorem ValidatePath_accepts_sibling_prefix :
  GetWorkspacePath (New "/data") 7 12 = "/data/7/12" /\
  ValidatePath (New "/data") 7 12 "../123/secret.md" = Ok "/data/7/123/secret.md" /\
  ValidatePath (New "/data") 7 12 "." = Ok "/data/7/12" /\
  ValidatePath (New "/data") 7 12 "../13/secret.md" = Err ErrOutsideWorkspace.
Proof. repeat split; reflexivity. Qed.

(** ** Round trip of a saved file *)

Lemma find_set (name : string) (c : os.node) (entries : list (string * os.node)) :
  os.find name (os.set name c entries) = Some c.
Proof.
  induction entries as [|[x c0] rest IH]; simpl.
  - now rewrite String.eqb_refl.
  - destruct (String.eqb name x) eqn:E; simpl.
    + now rewrite String.eqb_refl.
    + now rewrite E.
Qed.

Lemma writeFile_lookup (elems : list string) (content : list byte) :
  forall n n' : os.node,
    os.writeFile elems content n = Ok n' -> os.lookup elems n' = Ok (os.File content).
Proof.
  induction elems as [|x rest IH]; intros n n' H.
  - destruct n; simpl in H; discriminate.
  - destruct n as [|r entries]; simpl in H; [discriminate|].
    destruct rest as [|y rest'].
    + destruct (os.find x entries) as [[|]|]; inversion H; subst; simpl;
        now rewrite find_set.
    + destruct (os.find x entries) as [c|]; [|discriminate].
      destruct (os.writeFile (y :: rest') content c) as [c'|e] eqn:Hw; [|discriminate].
      inversion H; subst.
      change (os.lookup (x :: y :: rest') (os.Dir r (os.set x c' entries)))
        with (match os.find x (os.set x c' entries) with
              | Some c0 => os.lookup (y :: rest') c0
              | None => Err ErrNotExist
              end).
      rewrite find_set. now apply (IH c).
Qed.

Lemma WriteFile_ReadFile (disk disk' : os.node) (path : string) (content : list byte) :
  os.WriteFile disk path content = (disk', None) -> os.ReadFile disk' path = Ok content.
Proof.
  unfold os.WriteFile, os.ReadFile. intros H.
  destruct (os.writeFile (os.resolve path) content disk) as [d|e] eqn:Hw;
    inversion H; subst.
  now rewrite (writeFile_lookup _ _ _ _ Hw).
Qed.

(** C5. A successful [SaveFile] of any bytes followed by [GetFileContent]
    of the same path returns exactly those bytes. *)
Theorem SaveFile_GetFileContent (fs : FileSystem) (disk disk' : os.node)
    (userID workspaceID : Z) (filePath : string) (content : list byte) :
  SaveFile fs disk userID workspaceID filePath content = (disk', None) ->
  GetFileContent fs disk' userID workspaceID filePath = Ok content.
Proof.
  unfold SaveFile, GetFileContent. intros H.
  destruct (ValidatePath fs userID workspaceID filePath) as [fullPath|e];
    [|inversion H].
  destruct (os.MkdirAll disk (filepath.Dir fullPath)) as [disk1 [e|]];
    [inversion H|].
  now apply WriteFile_ReadFile with disk1.
Qed.

(** The round trip on the sample disk, for binary content that is not
    UTF-8 and for a path whose directories do not exist yet. *)
Lemma SaveFile_GetFileContent_witness :
  GetFileContent sample.fs
    (fst (SaveFile sample.fs sample.disk 7 12 "new/dir/f.bin" [xff; x00; xc3]))
    7 12 "new/dir/f.bin"
  = Ok [xff; x00; xc3].
Proof.
  apply (SaveFile_GetFileContent sample.fs sample.disk).
  vm_compute. reflexivity.
Defined.

Example SaveFile_empty_content :
  SaveFile sample.fs sample.disk 7 12 "b.txt" [] = (sample.disk, None) /\
  GetFileContent sample.fs sample.disk 7 12 "b.txt" = Ok [].
Proof. split; vm_compute; reflexivity. Qed.

Example SaveFile_failures :
  snd (SaveFile sample.fs sample.disk 7 12 "a.md/x" [x01]) = Some ErrNotDir /\
  snd (SaveFile sample.fs sample.disk 7 12 "notes" [x01]) = Some ErrIsDir /\
  snd (SaveFile sample.fs sample.disk 7 12 "../../8/1/x" [x01]) = Some ErrOutsideWorkspace.
Proof. repeat split; vm_compute; reflexivity. Qed.

(** ** The registry of repository handles *)

(** The registry after [SetupGitRepo]: the handle [EnsureRepo] ran on is
    bound to the key, whatever [EnsureRepo] returned. *)
Lemma SetupGitRepo_unfold (env : git.Env) (fs : FileSystem) (userID workspaceID : Z)
    (gitURL gitUser gitToken : string) (w : git.World) :
  SetupGitRepo env fs userID workspaceID gitURL gitUser gitToken w
  = let r := git.EnsureRepo env
               (newGitRepo gitURL gitUser gitToken
                           (GetWorkspacePath fs userID workspaceID)) w in
    (MkFileSystem (RootDir fs)
       (<[userID := <[workspaceID := fst (fst r)]> (default ∅ (GitRepos fs !! userID))]>
          (GitRepos fs)),
     snd (fst r), snd r).
Proof.
  unfold SetupGitRepo. cbv zeta.
  destruct (git.EnsureRepo env _ w) as [[c1 w1] err]. simpl.
  destruct (GitRepos fs !! userID) as [userRepos|] eqn:E; unfold assign; simpl.
  - rewrite E, lookup_insert_eq, !insert_insert_eq. reflexivity.
  - rewrite !lookup_insert_eq, !insert_insert_eq. reflexivity.
Qed.

Lemma getGitRepo_SetupGitRepo_other (env : git.Env) (fs : FileSystem)
    (userID workspaceID : Z) (gitURL gitUser gitToken : string) (w : git.World)
    (u' w' : Z) :
  (u', w') <> (userID, workspaceID) ->
  getGitRepo (fst (fst (SetupGitRepo env fs userID workspaceID gitURL gitUser gitToken w)))
             u' w'
  = getGitRepo fs u' w'.
Proof.
  intros Hne. rewrite SetupGitRepo_unfold. cbv zeta. unfold getGitRepo. simpl.
  destruct (decide (u' = userID)) as [->|Hu].
  - rewrite lookup_insert_eq.
    assert (w' <> workspaceID) by congruence.
    rewrite lookup_insert_ne by congruence.
    destruct (GitRepos fs !! userID); simpl; [reflexivity | apply lookup_empty].
  - rewrite lookup_insert_ne by congruence. reflexivity.
Qed.

(** C2.  When [EnsureRepo] fails inside [SetupGitRepo], its error is
    what the caller gets, the handle it ran on stays registered under the
    (user, workspace) key, and every other key of the registry is as
    before. *)
Theorem SetupGitRepo_failure_keeps_handle (env : git.Env) (fs fs' : FileSystem)
    (userID workspaceID : Z) (gitURL gitUser gitToken : string) (w w' : git.World)
    (e : error) :
  SetupGitRepo env fs userID workspaceID gitURL gitUser gitToken w = (fs', w', Some e) ->
  exists c : git.client,
    git.EnsureRepo env
      (newGitRepo gitURL gitUser gitToken (GetWorkspacePath fs userID workspaceID)) w
    = (c, w', Some e) /\
    getGitRepo fs' userID workspaceID = Some c /\
    forall u1 w1 : Z, (u1, w1) <> (userID, workspaceID) ->
                      getGitRepo fs' u1 w1 = getGitRepo fs u1 w1.
Proof.
  intros H.
  pose proof (getGitRepo_SetupGitRepo_other env fs userID workspaceID
                gitURL gitUser gitToken w) as Hother.
  rewrite H in Hother. simpl in Hother.
  rewrite SetupGitRepo_unfold in H. cbv zeta in H.
  destruct (git.EnsureRepo env _ w) as [[c1 w1] err]. simpl in H.
  inversion H; subst. exists c1. split; [reflexivity|]. split; [|exact Hother].
  unfold getGitRepo. simpl. now rewrite !lookup_insert_eq.
Qed.

Lemma SetupGitRepo_failure_keeps_handle_witness :
  exists c : git.client,
    git.EnsureRepo sample_git.offline
      (newGitRepo sample_git.url "ann" "secret" (GetWorkspacePath sample.fs 7 12))
      sample_git.world
    = (c,
       snd (fst (SetupGitRepo sample_git.offline sample.fs 7 12
                   sample_git.url "ann" "secret" sample_git.world)),
       Some (ErrWrap "failed to clone repository" (ErrLibrary "clone"))) /\
    getGitRepo
      (fst (fst (SetupGitRepo sample_git.offline sample.fs 7 12
                   sample_git.url "ann" "secret" sample_git.world))) 7 12
    = Some c /\
    forall u1 w1 : Z, (u1, w1) <> (7, 12) ->
      getGitRepo
        (fst (fst (SetupGitRepo sample_git.offline sample.fs 7 12
                     sample_git.url "ann" "secret" sample_git.world))) u1 w1
      = getGitRepo sample.fs u1 w1.
Proof.
  apply (SetupGitRepo_failure_keeps_handle sample_git.offline sample.fs).
  rewrite SetupGitRepo_unfold. reflexivity.
Defined.

(** [SetupGitRepo] does not undo the registration when [EnsureRepo]
    fails: with the remote out of reach, the call on an empty registry
    returns the clone error and yet leaves under the key the handle
    [EnsureRepo] ran on, which by then holds the repository [PlainClone]
    returned together with its error; the registry is not what it was. *)
Lemma SetupGitRepo_failure_not_atomic :
  let r := SetupGitRepo sample_git.offline sample.fs 7 12
             sample_git.url "ann" "secret" sample_git.world in
  snd r = Some (ErrWrap "failed to clone repository" (ErrLibrary "clone")) /\
  getGitRepo sample.fs 7 12 = None /\
  getGitRepo (fst (fst r)) 7 12
  = Some (git.MkClient (git.MkConfig sample_git.url "ann" "secret" "/data/7/12" "" "")
                       (Some "/data/7/12")) /\
  GitRepos (fst (fst r)) <> GitRepos sample.fs.
Proof.
  cbv zeta. rewrite SetupGitRepo_unfold. cbv zeta.
  assert (Hget : getGitRepo sample.fs 7 12 = None) by reflexivity.
  split; [reflexivity|]. split; [exact Hget|]. split.
  - unfold getGitRepo. simpl. rewrite !lookup_insert_eq. reflexivity.
  - simpl. intros Heq.
    assert (Hl : (∅ : gmap Z (gmap Z git.client)) !! 7 = None) by apply lookup_empty.
    change (GitRepos sample.fs) with (∅ : gmap Z (gmap Z git.client)) in Heq.
    rewrite <- Heq, lookup_insert_eq in Hl. discriminate.
Qed.

Lemma registry_inv_New (rootDir : string) : registry_inv (GitRepos (New rootDir)).
Proof. intros u m H. simpl in H. rewrite lookup_empty in H. discriminate. Qed.

Lemma registry_inv_SetupGitRepo (env : git.Env) (fs : FileSystem) (userID workspaceID : Z)
    (gitURL gitUser gitToken : string) (w : git.World) :
  registry_inv (GitRepos fs) ->
  registry_inv
    (GitRepos (fst (fst (SetupGitRepo env fs userID workspaceID gitURL gitUser gitToken w)))).
Proof.
  intros Hinv u m. rewrite SetupGitRepo_unfold. cbv zeta. simpl.
  destruct (decide (u = userID)) as [->|Hu].
  - rewrite lookup_insert_eq. intros [= <-]. apply insert_non_empty.
  - rewrite lookup_insert_ne by congruence. apply Hinv.
Qed.

Lemma DisableGitRepo_lookup (fs : FileSystem) (userID workspaceID : Z)
    (userRepos : gmap Z git.client) :
  GitRepos fs !! userID = Some userRepos ->
  GitRepos (DisableGitRepo fs userID workspaceID)
  = if bool_decide (delete workspaceID userRepos = ∅)
    then delete userID (GitRepos fs)
    else <[userID := delete workspaceID userRepos]> (GitRepos fs).
Proof.
  intros H. unfold DisableGitRepo. rewrite H.
  destruct (decide (delete workspaceID userRepos = ∅)) as [He|Hne].
  - rewrite He, map_size_empty. simpl.
    rewrite bool_decide_eq_true_2 by reflexivity. simpl.
    apply delete_insert_eq.
  - rewrite (bool_decide_eq_false_2 (size _ = 0%nat)).
    + now rewrite (bool_decide_eq_false_2 _ Hne).
    + intros Hs. apply Hne. now apply map_size_empty_iff.
Qed.

Lemma registry_inv_DisableGitRepo (fs : FileSystem) (userID workspaceID : Z) :
  registry_inv (GitRepos fs) -> registry_inv (GitRepos (DisableGitRepo fs userID workspaceID)).
Proof.
  intros Hinv.
  destruct (GitRepos fs !! userID) as [userRepos|] eqn:E.
  - rewrite (DisableGitRepo_lookup _ _ _ _ E).
    destruct (bool_decide_reflect (delete workspaceID userRepos = ∅)) as [He|Hne];
      intros u m.
    + destruct (decide (u = userID)) as [->|Hu].
      * rewrite lookup_delete_eq. discriminate.
      * rewrite lookup_delete_ne by congruence. apply Hinv.
    + destruct (decide (u = userID)) as [->|Hu].
      * rewrite lookup_insert_eq. now intros [= <-].
      * rewrite lookup_insert_ne by congruence. apply Hinv.
  - unfold DisableGitRepo. now rewrite E.
Qed.

Lemma getGitRepo_DisableGitRepo (fs : FileSystem) (userID workspaceID : Z) :
  getGitRepo (DisableGitRepo fs userID workspaceID) userID workspaceID = None.
Proof.
  unfold getGitRepo.
  destruct (GitRepos fs !! userID) as [userRepos|] eqn:E.
  - rewrite (DisableGitRepo_lookup _ _ _ _ E).
    destruct (bool_decide (delete workspaceID userRepos = ∅)).
    + now rewrite lookup_delete_eq.
    + rewrite lookup_insert_eq. apply lookup_delete_eq.
  - unfold DisableGitRepo. now rewrite E, E.
Qed.

Lemma DisableGitRepo_absent (fs : FileSystem) (userID workspaceID : Z) :
  registry_inv (GitRepos fs) ->
  getGitRepo fs userID workspaceID = None ->
  DisableGitRepo fs userID workspaceID = fs.
Proof.
  intros Hinv Hget. unfold getGitRepo in Hget.
  destruct (GitRepos fs !! userID) as [userRepos|] eqn:E.
  - assert (Hfs : GitRepos (DisableGitRepo fs userID workspaceID) = GitRepos fs).
    { rewrite (DisableGitRepo_lookup _ _ _ _ E), (delete_id _ _ Hget).
      rewrite bool_decide_eq_false_2 by (now apply (Hinv userID)).
      now apply insert_id. }
    destruct fs as [root repos]. simpl in *.
    unfold DisableGitRepo in *. simpl in *. rewrite E in *.
    destruct (bool_decide _); simpl in *; now rewrite Hfs.
  - unfold DisableGitRepo. now rewrite E.
Qed.

(** C10. The registry keeps the invariant that every user present in
    the outer map has a non-empty inner map: it holds of the registry
    [New] makes, [SetupGitRepo] and [DisableGitRepo] preserve it,
    [DisableGitRepo] removes the handle, removes the user's key as well
    when the inner map becomes empty and keeps the rest of the inner map
    otherwise, and it leaves the file system value unchanged when the
    (user, workspace) entry is absent. *)
Theorem registry_invariant (env : git.Env) (fs : FileSystem) (userID workspaceID : Z)
    (gitURL gitUser gitToken : string) (w : git.World) :
  registry_inv (GitRepos fs) ->
  registry_inv (GitRepos (New (RootDir fs))) /\
  registry_inv
    (GitRepos (fst (fst (SetupGitRepo env fs userID workspaceID gitURL gitUser gitToken w))))
  /\
  registry_inv (GitRepos (DisableGitRepo fs userID workspaceID)) /\
  getGitRepo (DisableGitRepo fs userID workspaceID) userID workspaceID = None /\
  (forall userRepos : gmap Z git.client,
      GitRepos fs !! userID = Some userRepos ->
      GitRepos (DisableGitRepo fs userID workspaceID) !! userID
      = if bool_decide (delete workspaceID userRepos = ∅) then None
        else Some (delete workspaceID userRepos)) /\
  (getGitRepo fs userID workspaceID = None -> DisableGitRepo fs userID workspaceID = fs).
Proof.
  intros Hinv.
  split; [apply registry_inv_New|].
  split; [now apply registry_inv_SetupGitRepo|].
  split; [now apply registry_inv_DisableGitRepo|].
  split; [apply getGitRepo_DisableGitRepo|].
  split; [|now apply DisableGitRepo_absent].
  intros userRepos E. rewrite (DisableGitRepo_lookup _ _ _ _ E).
  destruct (bool_decide _).
  - apply lookup_delete_eq.
  - apply lookup_insert_eq.
Qed.

Lemma sample_registry_inv : registry_inv (GitRepos sample_registry.fs).
Proof.
  intros u m. simpl. destruct (decide (u = 7)) as [->|Hu].
  - rewrite lookup_singleton_eq. intros [= <-]. apply insert_non_empty.
  - rewrite lookup_singleton_ne by congruence. discriminate.
Qed.

Lemma registry_invariant_witness :
  registry_inv (GitRepos sample_registry.fs) /\
  registry_inv (GitRepos (DisableGitRepo sample_registry.fs 7 12)) /\
  getGitRepo (DisableGitRepo sample_registry.fs 7 12) 7 12 = None.
Proof.
  split; [exact sample_registry_inv|].
  pose proof (registry_invariant sample_git.offline sample_registry.fs 7 12
                sample_git.url "ann" "secret" sample_git.world sample_registry_inv)
    as (_ & _ & Hdis & Hget & _).
  split; [exact Hdis | exact Hget].
Defined.

Example DisableGitRepo_last_handle :
  GitRepos (DisableGitRepo sample_registry.fs 7 12) = ∅ /\
  DisableGitRepo sample_registry.fs 7 13 = sample_registry.fs /\
  DisableGitRepo sample_registry.fs 8 12 = sample_registry.fs.
Proof. split; [|split]; vm_compute; reflexivity. Qed.

(** ** The git client *)

Ltac git_unfold :=
  unfold git.Commit, git.Push, git.Pull, git.Clone, git.EnsureRepo,
    git.Worktree, git.WorktreeAdd, git.WorktreeCommit, git.WorktreePull,
    git.RepositoryPush, git.PlainClone, git.PlainOpen, git.abandonClone,
    git.record, git.setClone, git.setRemote in *.

Ltac git_cases :=
  repeat match goal with
         | H : context [match ?x with _ => _ end] |- _ =>
             lazymatch x with
             | context [match _ with _ => _ end] => fail
             | _ => destruct x eqn:?; simpl in H; try discriminate H
             end
         end.

Lemma snoc2 {A : Type} (l : list A) (a b : A) :
  ((l ++ [a]) ++ [b])%list = (l ++ [a; b])%list.
Proof. rewrite <- app_assoc. reflexivity. Qed.

Lemma snoc3 {A : Type} (l : list A) (a b c : A) :
  (((l ++ [a]) ++ [b]) ++ [c])%list = (l ++ [a; b; c])%list.
Proof. rewrite snoc2, <- app_assoc. reflexivity. Qed.

(** A successful [Commit] makes the three library calls in order and puts
    one commit, with the handle's identity, on top of the clone; the
    remotes are not touched. *)
Lemma Commit_ok (env : git.Env) (c : git.client) (message : string)
    (w w1 : git.World) (h : git.CommitHash) :
  git.Commit env c message w = (w1, Ok h) ->
  exists (r : git.Repository) (lr : git.LocalRepo),
    git.repo c = Some r /\
    git.clones w !! r = Some lr /\
    h = git.MkCommit message (git.CommitName (git.config c)) (git.CommitEmail (git.config c)) /\
    git.clones w1 = <[r := git.MkLocalRepo (git.Origin lr) (h :: git.History lr)]> (git.clones w) /\
    git.remotes w1 = git.remotes w /\
    git.trace w1 = (git.trace w ++ [git.OpWorktree r; git.OpAdd r; git.OpCommit r message])%list.
Proof.
  intros H. git_unfold. simpl in H. git_cases.
  inversion H; subst; simpl. eexists _, _.
  repeat split; try reflexivity; try eassumption.
  apply snoc3.
Qed.

(** A failed [Commit] leaves clones and remotes as they were and makes no
    push. *)
Lemma Commit_err (env : git.Env) (c : git.client) (message : string)
    (w w1 : git.World) (e : error) :
  git.Commit env c message w = (w1, Err e) ->
  git.clones w1 = git.clones w /\
  git.remotes w1 = git.remotes w /\
  exists ops : list git.Op, git.trace w1 = (git.trace w ++ ops)%list /\ noPush ops.
Proof.
  intros H. git_unfold. simpl in H. git_cases;
    inversion H; subst; simpl; (split; [reflexivity|]); (split; [reflexivity|]).
  all: first
    [ exists (@nil git.Op); split; [now rewrite app_nil_r | constructor]
    | eexists [_]; split; [reflexivity | repeat constructor]
    | eexists [_; _]; split; [apply snoc2 | repeat constructor]
    | eexists [_; _; _]; split; [apply snoc3 | repeat constructor] ].
Qed.

(** [Push] on an open handle makes exactly one push call with the stored
    credential, never changes a clone, and changes no remote when it
    fails. *)
Lemma Push_open (env : git.Env) (c : git.client) (r : git.Repository)
    (w w1 : git.World) (err : option error) :
  git.repo c = Some r ->
  git.Push env c w = (w1, err) ->
  git.clones w1 = git.clones w /\
  git.trace w1 = (git.trace w ++ [git.OpPush r (git.authOf c)])%list /\
  (err <> None -> git.remotes w1 = git.remotes w).
Proof.
  intros Hr H. git_unfold. rewrite Hr in H. simpl in H. git_cases;
    inversion H; subst; simpl; repeat split; try reflexivity; congruence.
Qed.

(** C6. [StageCommitAndPush] without a registered handle returns the
    git-not-configured error and touches nothing, no library call is
    made; with a handle it commits first: a failed commit is returned as
    it is, without any push and with clones and remotes as before; after a
    successful commit the push runs next, on the world the commit left,
    and its outcome is the outcome of the call; when that push fails the
    new commit stays on top of the local clone and the remotes are as
    before the call. *)
Theorem StageCommitAndPush_commit_then_push (env : git.Env) (fs : FileSystem)
    (userID workspaceID : Z) (message : string) (w : git.World) :
  (getGitRepo fs userID workspaceID = None ->
   StageCommitAndPush env fs userID workspaceID message w = (w, Some ErrGitNotConfigured))
  /\
  (forall (repo : git.client) (w1 : git.World) (e : error),
      getGitRepo fs userID workspaceID = Some repo ->
      git.Commit env repo message w = (w1, Err e) ->
      StageCommitAndPush env fs userID workspaceID message w = (w1, Some e) /\
      git.clones w1 = git.clones w /\
      git.remotes w1 = git.remotes w /\
      exists ops : list git.Op, git.trace w1 = (git.trace w ++ ops)%list /\ noPush ops)
  /\
  (forall (repo : git.client) (w1 : git.World) (h : git.CommitHash),
      getGitRepo fs userID workspaceID = Some repo ->
      git.Commit env repo message w = (w1, Ok h) ->
      exists (r : git.Repository) (lr : git.LocalRepo) (w2 : git.World)
             (err : option error),
        git.repo repo = Some r /\
        git.clones w !! r = Some lr /\
        StageCommitAndPush env fs userID workspaceID message w = (w2, err) /\
        git.Push env repo w1 = (w2, err) /\
        git.trace w2
        = (git.trace w ++ [git.OpWorktree r; git.OpAdd r; git.OpCommit r message;
                           git.OpPush r (git.authOf repo)])%list /\
        git.clones w2
        = <[r := git.MkLocalRepo (git.Origin lr) (h :: git.History lr)]> (git.clones w) /\
        (err <> None -> git.remotes w2 = git.remotes w)).
Proof.
  split; [|split].
  - intros Hget. unfold StageCommitAndPush. now rewrite Hget.
  - intros repo w1 e Hget Hc. split.
    + unfold StageCommitAndPush. now rewrite Hget, Hc.
    + now apply Commit_err in Hc.
  - intros repo w1 h Hget Hc.
    destruct (Commit_ok _ _ _ _ _ _ Hc) as (r & lr & Hr & Hlr & _ & Hcl & Hrem & Htr).
    destruct (git.Push env repo w1) as [w2 err] eqn:Hp.
    destruct (Push_open _ _ _ _ _ _ Hr Hp) as (Hcl2 & Htr2 & Hrem2).
    exists r, lr, w2, err. repeat split; try assumption.
    + unfold StageCommitAndPush. now rewrite Hget, Hc.
    + rewrite Htr2, Htr, <- app_assoc. reflexivity.
    + now rewrite Hcl2.
    + intros Hne. now rewrite (Hrem2 Hne).
Qed.

(** With only the push failing, the call on the sample handle returns the
    push error, the commit is on top of the local history and the remote
    still ends at the initial commit. *)
Lemma StageCommitAndPush_commit_then_push_witness :
  let out := StageCommitAndPush sample_git.pushDown sample_sync.fs 7 12 "edit"
               sample_sync.world in
  snd out = Some (ErrWrap "failed to push changes" (ErrLibrary "push")) /\
  git.History <$> (git.clones (fst out) !! "/data/7/12")
  = Some [git.MkCommit "edit" "Ann" "ann@example.org"; sample_git.initial] /\
  git.remotes (fst out) = git.remotes sample_sync.world /\
  git.remotes sample_sync.world !! sample_git.url = Some [sample_git.initial].
Proof.
  cbv zeta.
  destruct (StageCommitAndPush_commit_then_push sample_git.pushDown sample_sync.fs
              7 12 "edit" sample_sync.world) as (_ & _ & H).
  destruct (H sample_sync.handle
              (fst (git.Commit sample_git.pushDown sample_sync.handle "edit"
                      sample_sync.world))
              (git.MkCommit "edit" "Ann" "ann@example.org"))
    as (r & lr & w2 & err & Hr & Hlr & Hs & Hp & Htr & Hcl & Hrem);
    [reflexivity | reflexivity |].
  rewrite Hs. simpl.
  assert (Herr : err = Some (ErrWrap "failed to push changes" (ErrLibrary "push"))).
  { apply (f_equal snd) in Hp. simpl in Hp. rewrite <- Hp. reflexivity. }
  split; [exact Herr|]. split; [|split].
  - apply (f_equal fst) in Hs. simpl in Hs. rewrite <- Hs. reflexivity.
  - apply Hrem. rewrite Herr. discriminate.
  - reflexivity.
Defined.

Example StageCommitAndPush_scenarios :
  (* everything up: the remote receives the commit *)
  (let out := StageCommitAndPush sample_git.online sample_sync.fs 7 12 "edit"
                sample_sync.world in
   snd out = None /\
   git.remotes (fst out) !! sample_git.url
   = Some [git.MkCommit "edit" "Ann" "ann@example.org"; sample_git.initial] /\
   git.trace (fst out)
   = [git.OpPlainClone "/data/7/12" sample_git.url (git.MkBasicAuth "ann" "secret");
      git.OpWorktree "/data/7/12"; git.OpAdd "/data/7/12";
      git.OpCommit "/data/7/12" "edit";
      git.OpPush "/data/7/12" (git.MkBasicAuth "ann" "secret")]) /\
  (* the commit fails: no push *)
  (let out := StageCommitAndPush sample_git.commitDown sample_sync.fs 7 12 "edit"
                sample_sync.world in
   snd out = Some (ErrWrap "failed to commit changes" (ErrLibrary "commit")) /\
   git.trace (fst out)
   = [git.OpPlainClone "/data/7/12" sample_git.url (git.MkBasicAuth "ann" "secret");
      git.OpWorktree "/data/7/12"; git.OpAdd "/data/7/12";
      git.OpCommit "/data/7/12" "edit"]) /\
  (* no handle for the workspace *)
  StageCommitAndPush sample_git.online sample_sync.fs 7 13 "edit" sample_sync.world
  = (sample_sync.world, Some ErrGitNotConfigured).
Proof. repeat split; vm_compute; reflexivity. Qed.

(** [Clone] makes one clone call, with the stored URL and credential; when
    it succeeds the working directory holds a clone and the handle is
    open on it. *)
Lemma Clone_spec (env : git.Env) (c c1 : git.client) (w w1 : git.World)
    (err : option error) :
  git.Clone env c w = (c1, w1, err) ->
  git.config c1 = git.config c /\
  git.trace w1
  = (git.trace w ++ [git.OpPlainClone (git.WorkDir (git.config c)) (git.URL (git.config c))
                                      (git.authOf c)])%list /\
  (err = None ->
   git.repo c1 = Some (git.WorkDir (git.config c)) /\
   is_Some (git.clones w1 !! git.WorkDir (git.config c))).
Proof.
  intros H. git_unfold. simpl in H. git_cases;
    inversion H; subst; simpl; repeat split; try reflexivity; try discriminate.
  all: rewrite lookup_insert_eq; eauto.
Qed.

(** With a clone in the working directory [EnsureRepo] opens it, makes no
    clone call, and, when the open and the work tree are to be had, goes
    on to exactly one pull with the stored credential; the clone stays. *)
Lemma EnsureRepo_present (env : git.Env) (c : git.client) (w : git.World)
    (lr : git.LocalRepo) :
  git.clones w !! git.WorkDir (git.config c) = Some lr ->
  exists ops : list git.Op,
    git.trace (snd (fst (git.EnsureRepo env c w)))
    = (git.trace w ++ git.OpPlainOpen (git.WorkDir (git.config c)) :: ops)%list /\
    noClone ops /\
    (env (git.OpPlainOpen (git.WorkDir (git.config c))) = false ->
     env (git.OpWorktree (git.WorkDir (git.config c))) = false ->
     ops = [git.OpWorktree (git.WorkDir (git.config c));
            git.OpPull (git.WorkDir (git.config c)) (git.authOf c)]).
Proof.
  intros Hlr.
  destruct (git.EnsureRepo env c w) as [[c' w'] err] eqn:H. simpl.
  unfold git.EnsureRepo in H. rewrite Hlr in H.
  unfold git.PlainOpen in H. cbv zeta in H.
  change (git.clones (git.record (git.OpPlainOpen (git.WorkDir (git.config c))) w))
    with (git.clones w) in H.
  rewrite Hlr in H.
  destruct (env (git.OpPlainOpen _)) eqn:Eo.
  { inversion H; subst. exists []. repeat split; [constructor | discriminate]. }
  unfold git.Pull, git.Worktree in H. cbn [git.repo] in H. cbv zeta in H.
  destruct (env (git.OpWorktree _)) eqn:Ew.
  { inversion H; subst.
    exists [git.OpWorktree (git.WorkDir (git.config c))].
    repeat split; [apply snoc2 | repeat constructor | discriminate]. }
  exists [git.OpWorktree (git.WorkDir (git.config c));
          git.OpPull (git.WorkDir (git.config c)) (git.authOf c)].
  split; [|split; [repeat constructor | reflexivity]].
  change (git.authOf {| git.config := git.config c;
                        git.repo := Some (git.WorkDir (git.config c)) |})
    with (git.authOf c) in H.
  unfold git.WorktreePull in H. cbv zeta in H.
  destruct (env (git.OpPull _ _)); [inversion H; subst; apply snoc3|].
  unfold git.record in H. cbn [git.clones git.remotes] in H.
  rewrite Hlr in H.
  destruct (git.remotes w !! git.Origin lr); [|inversion H; subst; apply snoc3].
  repeat (destruct (bool_decide _)); inversion H; subst; apply snoc3.
Qed.

(** C7. [EnsureRepo] clones when the working directory has no clone, and
    opens and pulls when it has one.  So of two calls in succession on one
    handle, starting without a clone and the first succeeding, the first
    makes exactly one library call, the clone from the stored URL with the
    stored credential, and the second makes no clone call: it opens the
    clone and, unless the open or the work tree fails, makes exactly one
    pull. *)
Theorem EnsureRepo_clone_once (env1 env2 : git.Env) (c c1 : git.client)
    (w w1 : git.World) :
  git.clones w !! git.WorkDir (git.config c) = None ->
  git.EnsureRepo env1 c w = (c1, w1, None) ->
  let workDir := git.WorkDir (git.config c) in
  let clone := git.OpPlainClone workDir (git.URL (git.config c)) (git.authOf c) in
  git.EnsureRepo env1 c w = git.Clone env1 c w /\
  git.trace w1 = (git.trace w ++ [clone])%list /\
  exists ops : list git.Op,
    git.trace (snd (fst (git.EnsureRepo env2 c1 w1)))
    = (git.trace w ++ clone :: git.OpPlainOpen workDir :: ops)%list /\
    noClone ops /\
    (env2 (git.OpPlainOpen workDir) = false ->
     env2 (git.OpWorktree workDir) = false ->
     ops = [git.OpWorktree workDir; git.OpPull workDir (git.authOf c)]).
Proof.
  intros Hnone H. cbv zeta.
  assert (Hc : git.EnsureRepo env1 c w = git.Clone env1 c w).
  { unfold git.EnsureRepo. now rewrite Hnone. }
  split; [exact Hc|].
  rewrite Hc in H.
  destruct (Clone_spec _ _ _ _ _ _ H) as (Hcfg & Htr & Hok).
  destruct (Hok eq_refl) as (_ & lr & Hlr).
  split; [exact Htr|].
  rewrite <- Hcfg in Hlr.
  destruct (EnsureRepo_present env2 c1 w1 lr Hlr) as (ops & Htr2 & Hno & Hops).
  exists ops. rewrite Htr2, Htr, <- app_assoc, Hcfg.
  split; [reflexivity|]. split; [exact Hno|].
  intros Ho Hw. rewrite <- Hcfg in Ho, Hw. rewrite (Hops Ho Hw).
  unfold git.authOf. now rewrite Hcfg.
Qed.

Lemma EnsureRepo_clone_once_witness :
  git.trace sample_sync.world
  = [git.OpPlainClone "/data/7/12" sample_git.url (git.MkBasicAuth "ann" "secret")] /\
  git.trace (snd (fst (git.EnsureRepo sample_git.online sample_sync.handle
                         sample_sync.world)))
  = [git.OpPlainClone "/data/7/12" sample_git.url (git.MkBasicAuth "ann" "secret");
     git.OpPlainOpen "/data/7/12"; git.OpWorktree "/data/7/12";
     git.OpPull "/data/7/12" (git.MkBasicAuth "ann" "secret")].
Proof.
  destruct (EnsureRepo_clone_once sample_git.online sample_git.online
              sample_sync.handle0 sample_sync.handle sample_git.world
              sample_sync.world)
    as (_ & Htr & ops & Htr2 & _ & Hops); [reflexivity | reflexivity |].
  split; [exact Htr|].
  rewrite Htr2, (Hops eq_refl eq_refl). reflexivity.
Defined.

(** Two calls in succession can clone twice.  In a working directory that
    holds nothing, with the remote out of reach, the first call fails and
    the library removes what it made; the second call, with the remote
    back, finds no [.git] and clones again: two clone calls and no pull. *)
Lemma EnsureRepo_clones_twice :
  let first := git.EnsureRepo sample_git.offline sample_sync.handle0 sample_git.world in
  let second := git.EnsureRepo sample_git.online (fst (fst first)) (snd (fst first)) in
  git.clones sample_git.world !! git.WorkDir (git.config sample_sync.handle0) = None /\
  snd first = Some (ErrWrap "failed to clone repository" (ErrLibrary "clone")) /\
  snd second = None /\
  git.trace (snd (fst second))
  = [git.OpPlainClone "/data/7/12" sample_git.url (git.MkBasicAuth "ann" "secret");
     git.OpPlainClone "/data/7/12" sample_git.url (git.MkBasicAuth "ann" "secret")].
Proof. cbv zeta. repeat split; vm_compute; reflexivity. Qed.

Example EnsureRepo_scenarios :
  (* the second call of two finds the remote unchanged: success, no clone *)
  snd (git.EnsureRepo sample_git.online sample_sync.handle sample_sync.world) = None /\
  (* a clone that fails in a directory that holds files leaves the
     repository it initialised: the next call opens it and pulls *)
  (let first := git.EnsureRepo sample_git.offline sample_sync.handle0
                  sample_git.inhabited in
   git.History <$> (git.clones (snd (fst first)) !! "/data/7/12") = Some [] /\
   git.repo (fst (fst first)) = Some "/data/7/12" /\
   git.trace (snd (fst (git.EnsureRepo sample_git.online (fst (fst first))
                          (snd (fst first)))))
   = [git.OpPlainClone "/data/7/12" sample_git.url (git.MkBasicAuth "ann" "secret");
      git.OpPlainOpen "/data/7/12"; git.OpWorktree "/data/7/12";
      git.OpPull "/data/7/12" (git.MkBasicAuth "ann" "secret")]).
Proof. cbv zeta. repeat split; vm_compute; reflexivity. Qed.

(** ** Order of strings, and sorting *)

Lemma ascii_compare_eq (a b : ascii) : Ascii.compare a b = Eq <-> a = b.
Proof.
  split; [apply Ascii.compare_eq_iff|].
  intros ->. unfold Ascii.compare. apply N.compare_refl.
Qed.

Lemma ascii_compare_lt_trans (a b c : ascii) :
  Ascii.compare a b = Lt -> Ascii.compare b c = Lt -> Ascii.compare a c = Lt.
Proof.
  unfold Ascii.compare. rewrite !N.compare_lt_iff. apply N.lt_trans.
Qed.

Lemma string_compare_refl (s : string) : String.compare s s = Eq.
Proof.
  induction s as [|a s IH]; simpl; [reflexivity|].
  now rewrite (proj2 (ascii_compare_eq a a) eq_refl).
Qed.

Lemma string_compare_lt_trans (s t u : string) :
  String.compare s t = Lt -> String.compare t u = Lt -> String.compare s u = Lt.
Proof.
  revert t u. induction s as [|a s IH]; intros [|b t] [|c u]; simpl;
    try discriminate; try reflexivity.
  destruct (Ascii.compare a b) eqn:Eab; try discriminate;
    destruct (Ascii.compare b c) eqn:Ebc; try discriminate; intros H1 H2.
  - apply ascii_compare_eq in Eab, Ebc. subst.
    rewrite (proj2 (ascii_compare_eq c c) eq_refl). now apply (IH t).
  - apply ascii_compare_eq in Eab. subst. now rewrite Ebc.
  - apply ascii_compare_eq in Ebc. subst. now rewrite Eab.
  - now rewrite (ascii_compare_lt_trans _ _ _ Eab Ebc).
Qed.

Lemma string_compare_gt_lt (s t : string) :
  String.compare s t = Gt <-> String.compare t s = Lt.
Proof.
  rewrite (String.compare_antisym t s).
  destruct (String.compare s t); simpl; split; congruence.
Qed.

(** The byte-wise order of strings is a strict weak order. *)
Lemma strs_lt_strict_weak : strictWeakOrder strs.lt.
Proof.
  unfold strs.lt, String.ltb. split; [|split].
  - intros x. now rewrite string_compare_refl.
  - intros x y z Hxy Hyz.
    destruct (String.compare x y) eqn:E1; try discriminate.
    destruct (String.compare y z) eqn:E2; try discriminate.
    now rewrite (string_compare_lt_trans _ _ _ E1 E2).
  - intros x y z Hxy Hyz.
    destruct (String.compare x y) eqn:E1; try discriminate;
      destruct (String.compare y z) eqn:E2; try discriminate.
    + apply String.compare_eq_iff in E1, E2. subst. now rewrite string_compare_refl.
    + apply String.compare_eq_iff in E1. subst. now rewrite E2.
    + apply String.compare_eq_iff in E2. subst. now rewrite E1.
    + apply string_compare_gt_lt in E1, E2.
      pose proof (string_compare_lt_trans _ _ _ E2 E1) as H.
      apply string_compare_gt_lt in H. now rewrite H.
Qed.

(** A strict weak order on keys is one on what carries the keys. *)
Lemma strictWeakOrder_key {A B : Type} (key : A -> B) (less : B -> B -> bool) :
  strictWeakOrder less -> strictWeakOrder (fun a b => less (key a) (key b)).
Proof.
  intros (Hirr & Htr & Hneg). split; [|split].
  - intros x. apply Hirr.
  - intros x y z. apply Htr.
  - intros x y z. apply Hneg.
Qed.

Lemma lessLower_strict_weak {U : strs.Unicode} : strictWeakOrder lessLower.
Proof.
  exact (strictWeakOrder_key (fun e => strs.ToLower (os.Name e)) strs.lt
           strs_lt_strict_weak).
Qed.

Lemma StronglySorted_map {A B : Type} (f : A -> B) (R : B -> B -> Prop) (l : list A) :
  StronglySorted (fun a b => R (f a) (f b)) l -> StronglySorted R (map f l).
Proof.
  induction 1 as [|a l Hs IH Hall]; simpl; constructor.
  - exact IH.
  - rewrite List.Forall_forall in *. intros b Hb.
    apply in_map_iff in Hb. destruct Hb as (x & <- & Hx). now apply Hall.
Qed.

Lemma insertLess_perm {A : Type} (less : A -> A -> bool) (x : A) (l : list A) :
  Permutation (insertLess less x l) (x :: l).
Proof.
  induction l as [|y l IH]; simpl; [reflexivity|].
  destruct (less x y); [reflexivity|].
  rewrite IH. apply perm_swap.
Qed.

Lemma insertionSort_perm {A : Type} (less : A -> A -> bool) (l : list A) :
  Permutation (insertionSort A less l) l.
Proof.
  induction l as [|x l IH]; simpl; [reflexivity|].
  unfold insertionSort in *. simpl. rewrite insertLess_perm. now constructor.
Qed.

Lemma insertLess_sorted {A : Type} (less : A -> A -> bool) (x : A) (l : list A) :
  strictWeakOrder less ->
  StronglySorted (fun a b => less b a = false) l ->
  StronglySorted (fun a b => less b a = false) (insertLess less x l).
Proof.
  intros (Hirr & Htr & Hneg) Hs.
  induction Hs as [|y l Hs IH Hall]; simpl.
  - repeat constructor.
  - destruct (less x y) eqn:E.
    + constructor; [now constructor|].
      assert (Hyx : less y x = false).
      { destruct (less y x) eqn:E'; [|reflexivity].
        now rewrite <- (Hirr x), (Htr x y x E E'). }
      constructor; [exact Hyx|].
      rewrite List.Forall_forall in *. intros z Hz.
      apply (Hneg z y x); [now apply Hall | exact Hyx].
    + constructor; [exact IH|].
      rewrite List.Forall_forall in *. intros z Hz.
      apply (Permutation_in _ (insertLess_perm less x l)) in Hz.
      destruct Hz as [<-|Hz]; [exact E | now apply Hall].
Qed.

(** Insertion sort meets the contract of [sort.Slice]. *)
Lemma insertionSort_sortsSlices : sortsSlices insertionSort.
Proof.
  intros A less l. split; [apply insertionSort_perm|].
  intros Hswo. induction l as [|x l IH].
  - constructor.
  - unfold insertionSort in *. simpl. now apply insertLess_sorted.
Qed.

(** ** The listing *)

(** Induction on a tree, with the property at hand for every entry of a
    directory. *)
Lemma node_nested_ind (P : os.node -> Prop) :
  (forall content, P (os.File content)) ->
  (forall r entries, Forall (fun xc => P (snd xc)) entries -> P (os.Dir r entries)) ->
  forall n, P n.
Proof.
  intros HF HD. fix IH 1. intros [content|r entries]; [apply HF|].
  apply HD. induction entries as [|xc entries IHe]; constructor; [apply IH | exact IHe].
Qed.

Lemma insertBy_perm {A : Type} (key : A -> string) (x : A) (l : list A) :
  Permutation (os.insertBy key x l) (x :: l).
Proof.
  induction l as [|y l IH]; simpl; [reflexivity|].
  destruct (String.leb _ _); [reflexivity|].
  rewrite IH. apply perm_swap.
Qed.

Lemma sortBy_perm {A : Type} (key : A -> string) (l : list A) :
  Permutation (os.sortBy key l) l.
Proof.
  induction l as [|x l IH]; simpl; [reflexivity|].
  unfold os.sortBy in *. simpl. rewrite insertBy_perm. now constructor.
Qed.

(** [os.ReadDir] returns the entries of the directory, each once. *)
Lemma sortByName_perm {K : Type} (l : list (os.DirEntry K)) :
  Permutation (os.sortByName l) l.
Proof. apply sortBy_perm. Qed.

Lemma insertBy_map {A B : Type} (f : A -> B) (key : B -> string) (x : A) (l : list A) :
  os.insertBy key (f x) (map f l) = map f (os.insertBy (fun a => key (f a)) x l).
Proof.
  induction l as [|y l IH]; simpl; [reflexivity|].
  destruct (String.leb _ _); simpl; [reflexivity|]. now rewrite IH.
Qed.

(** Sorting by name what is attached to the entries sorts the entries. *)
Lemma sortBy_map {A B : Type} (f : A -> B) (key : B -> string) (l : list A) :
  os.sortBy key (map f l) = map f (os.sortBy (fun a => key (f a)) l).
Proof.
  induction l as [|x l IH]; simpl; [reflexivity|].
  unfold os.sortBy in *. simpl. now rewrite IH, insertBy_map.
Qed.

Lemma filter_split_perm {A : Type} (p : A -> bool) (l : list A) :
  Permutation (List.filter p l ++ List.filter (fun x => negb (p x)) l) l.
Proof.
  induction l as [|x l IH]; simpl; [reflexivity|].
  destruct (p x); simpl.
  - now constructor.
  - rewrite <- Permutation_middle. now constructor.
Qed.

Lemma Forall_filter_true {A : Type} (p : A -> bool) (l : list A) :
  Forall (fun x => p x = true) (List.filter p l).
Proof.
  apply List.Forall_forall. intros x Hx. now apply filter_In in Hx.
Qed.

Lemma Forall_filter_keep {A : Type} (P : A -> Prop) (p : A -> bool) (l : list A) :
  Forall P l -> Forall P (List.filter p l).
Proof.
  rewrite !List.Forall_forall. intros H x Hx. apply filter_In in Hx. now apply H.
Qed.

Lemma walkDirectory_Dir {U : strs.Unicode} (sort_Slice : forall A : Type, (A -> A -> bool) -> list A -> list A)
    (r : bool) (es : list (string * os.node)) (dir pre : string) :
  walkDirectory sort_Slice (os.Dir r es) dir pre
  = match os.ReadDir r
            (map (fun xc => os.MkDirEntry (fst xc) (snd xc)
                              (walkDirectory sort_Slice (snd xc))) es) with
    | Err e => Err e
    | Ok entries =>
        match addDirs (sort_Slice _ lessLower (List.filter (fun e => os.IsDir e) entries))
                      dir pre [] with
        | Err e => Err e
        | Ok nodes =>
            Ok (addFiles
                  (sort_Slice _ lessLower
                     (List.filter (fun e => negb (os.IsDir e)) entries))
                  pre nodes)
        end
    end.
Proof. reflexivity. Qed.

Lemma addFiles_spec (files : list (os.DirEntry listing)) (pre : string) :
  forall nodes, addFiles files pre nodes = (nodes ++ map (fileNodeOf pre) files)%list.
Proof.
  induction files as [|e files IH]; intros nodes; simpl.
  - now rewrite app_nil_r.
  - rewrite IH, <- app_assoc. reflexivity.
Qed.

Lemma addDirs_spec {U : strs.Unicode} (dirs : list (os.DirEntry listing)) :
  Forall goodDir dirs ->
  forall (dir pre : string) (nodes : list FileNode),
  exists dnodes : list FileNode,
    addDirs dirs dir pre nodes = Ok (nodes ++ dnodes)%list /\
    map Name dnodes = map os.Name dirs /\
    Forall (fun d => isDirNode d = true) dnodes /\
    Forall (fun d => forall children, Children d = Some children -> dirsFirst children)
           dnodes /\
    Forall2 nodeFor (map pairOf dirs) dnodes.
Proof.
  induction 1 as [|e dirs He Hall IH]; intros dir pre nodes; simpl.
  - exists []. rewrite app_nil_r. repeat split; constructor.
  - destruct (He (filepath.Join [dir; os.Name e]) (filepath.Join [pre; os.Name e]))
      as (children & Hd & Hch & Hlist).
    destruct (IH dir pre
                (nodes ++ [{| ID := filepath.Join [pre; os.Name e]; Name := os.Name e;
                              Path := filepath.Join [pre; os.Name e];
                              Children := Some children |}])%list)
      as (dnodes & Hadd & Hnames & Hdirs & Hsub & Hfor).
    exists ({| ID := filepath.Join [pre; os.Name e]; Name := os.Name e;
               Path := filepath.Join [pre; os.Name e];
               Children := Some children |} :: dnodes).
    rewrite Hd, Hadd, <- app_assoc. simpl.
    split; [reflexivity|]. split; [now rewrite Hnames|].
    split; [constructor; [reflexivity | assumption]|].
    split; [constructor; [simpl; now intros ch [= <-] | assumption]|].
    constructor; [|exact Hfor].
    unfold pairOf. unfold listingOfDir in Hlist.
    destruct (os.Node e) as [content|r entries]; [contradiction|].
    destruct Hlist as (paired & Hperm & Hpaired).
    now apply (nodeFor_dir _ r entries paired _ children).
Qed.

Lemma addFiles_nodeFor (pre : string) (files : list (os.DirEntry listing)) :
  Forall (fun e => os.IsDir e = false) files ->
  Forall2 nodeFor (map pairOf files) (map (fileNodeOf pre) files).
Proof.
  induction 1 as [|e files He _ IH]; simpl; constructor; [|exact IH].
  unfold pairOf. unfold os.IsDir in He.
  destruct (os.Node e) as [content|r entries]; [|discriminate].
  now constructor.
Qed.

Section ListingOrder.

Context {U : strs.Unicode}.

Variable sort_Slice : forall A : Type, (A -> A -> bool) -> list A -> list A.
Hypothesis sort_Slice_ok : sortsSlices sort_Slice.

Lemma sorted_lower_keys (l : list (os.DirEntry listing)) :
  sortedKeys (map strs.ToLower (map os.Name (sort_Slice _ lessLower l))).
Proof.
  rewrite map_map.
  apply (StronglySorted_map (fun e => strs.ToLower (os.Name e))
           (fun a b => strs.lt b a = false)).
  apply (proj2 (sort_Slice_ok _ lessLower l)), lessLower_strict_weak.
Qed.

Lemma walkDirectory_ordered (n : os.node) :
  readableAll n = true ->
  os.isDir n = true ->
  forall dir pre : string,
  exists nodes : list FileNode,
    walkDirectory sort_Slice n dir pre = Ok nodes /\
    dirsFirst nodes /\
    Permutation (map Name nodes) (os.names n) /\
    listingOfDir n nodes.
Proof.
  induction n as [content|r es IH] using node_nested_ind; [discriminate|].
  intros Hread _ dir pre. simpl in Hread.
  apply andb_prop in Hread. destruct Hread as [-> Hread].
  rewrite walkDirectory_Dir.
  set (entries := map (fun xc => os.MkDirEntry (fst xc) (snd xc)
                                   (walkDirectory sort_Slice (snd xc))) es).
  assert (Hgood : Forall (fun e => os.IsDir e = true -> goodDir e) entries).
  { subst entries. rewrite forallb_forall in Hread.
    apply List.Forall_forall. intros e He.
    apply in_map_iff in He. destruct He as (xc & <- & Hin).
    intros Hd d p. rewrite List.Forall_forall in IH.
    destruct (IH xc Hin (Hread xc Hin) Hd d p) as (nodes & Hw & Hord & _ & Hlist).
    exists nodes. now repeat split. }
  assert (Hnames : map os.Name entries = map fst es).
  { subst entries. rewrite map_map. reflexivity. }
  assert (Hpairs : map pairOf entries = es).
  { subst entries. rewrite map_map. unfold pairOf. simpl.
    rewrite <- (map_id es) at 2. apply map_ext. now intros [x c]. }
  clearbody entries. unfold os.ReadDir.
  pose proof (sortByName_perm entries) as Hperm.
  set (sorted := os.sortByName entries) in *. clearbody sorted.
  apply (Permutation_Forall (Permutation_sym Hperm)) in Hgood.
  set (dirs := sort_Slice _ lessLower (List.filter (fun e => os.IsDir e) sorted)).
  set (files := sort_Slice _ lessLower
                  (List.filter (fun e => negb (os.IsDir e)) sorted)).
  assert (Hdirs : Forall goodDir dirs).
  { apply (Permutation_Forall
             (Permutation_sym (proj1 (sort_Slice_ok _ lessLower _)))).
    apply List.Forall_forall. intros e He. apply filter_In in He.
    destruct He as [He Hd]. rewrite List.Forall_forall in Hgood. now apply Hgood. }
  destruct (addDirs_spec dirs Hdirs dir pre [])
    as (dnodes & -> & Hdn & Hdd & Hsub & Hfor).
  rewrite addFiles_spec. simpl.
  assert (Hsplit : Permutation (dirs ++ files) sorted).
  { subst dirs files.
    rewrite (proj1 (sort_Slice_ok _ lessLower _)),
      (proj1 (sort_Slice_ok _ lessLower _)).
    apply filter_split_perm. }
  exists (dnodes ++ map (fileNodeOf pre) files)%list.
  split; [reflexivity|]. split; [|split].
  - constructor; try assumption.
    + apply List.Forall_forall. intros f Hf.
      apply in_map_iff in Hf. now destruct Hf as (e & <- & _).
    + replace (map lowerKey dnodes) with (map strs.ToLower (map Name dnodes))
        by (rewrite map_map; reflexivity).
      rewrite Hdn. apply sorted_lower_keys.
    + replace (map lowerKey (map (fileNodeOf pre) files))
        with (map strs.ToLower (map os.Name files))
        by (rewrite !map_map; reflexivity).
      apply sorted_lower_keys.
  - rewrite map_app, Hdn, (map_map (fileNodeOf pre) Name).
    change (map (fun x => Name (fileNodeOf pre x)) files) with (map os.Name files).
    rewrite <- map_app, <- Hnames. apply Permutation_map.
    now rewrite Hsplit.
  - exists (map pairOf (dirs ++ files)). split.
    + rewrite <- Hpairs. apply Permutation_map. now rewrite Hsplit.
    + rewrite map_app. apply Forall2_app; [exact Hfor|].
      apply addFiles_nodeFor.
      apply (Permutation_Forall
               (Permutation_sym (proj1 (sort_Slice_ok _ lessLower _)))).
      apply List.Forall_forall. intros e He. apply filter_In in He.
      now apply negb_true_iff.
Qed.

End ListingOrder.

(** C4. For every workspace directory all of whose directories can be
    read, and whatever function meeting the contract of [sort.Slice] does
    the sorting, [ListFilesRecursively] returns a listing in which, at
    every level, the directory nodes come before the file nodes, each
    group is sorted by lower-cased name, and the children of each
    directory node are ordered in the same way; the names listed at the
    top are those of the entries of the workspace directory, each once.
    The listing is one of that directory: it has one node for each entry,
    without children for a file and with children for a subdirectory, and
    the children of the node of a subdirectory are a listing of the
    subdirectory in the same sense. *)
Theorem ListFilesRecursively_dirs_first {U : strs.Unicode}
    (sort_Slice : forall A : Type, (A -> A -> bool) -> list A -> list A)
    (fs : FileSystem) (disk n : os.node) (userID workspaceID : Z) :
  sortsSlices sort_Slice ->
  os.Stat disk (GetWorkspacePath fs userID workspaceID) = Ok n ->
  os.isDir n = true ->
  readableAll n = true ->
  exists nodes : list FileNode,
    ListFilesRecursively sort_Slice fs disk userID workspaceID = Ok nodes /\
    dirsFirst nodes /\
    Permutation (map Name nodes) (os.names n) /\
    listingOfDir n nodes.
Proof.
  intros Hsort Hstat Hdir Hread. unfold ListFilesRecursively. rewrite Hstat.
  now apply walkDirectory_ordered.
Qed.

Lemma ListFilesRecursively_dirs_first_witness :
  exists nodes : list FileNode,
    ListFilesRecursively insertionSort sample.fs sample.plainDisk 7 12 = Ok nodes /\
    dirsFirst nodes /\
    Permutation (map Name nodes) (os.names sample.plainWorkspace) /\
    listingOfDir sample.plainWorkspace nodes.
Proof.
  apply (ListFilesRecursively_dirs_first insertionSort sample.fs sample.plainDisk
           sample.plainWorkspace 7 12).
  - exact insertionSort_sortsSlices.
  - reflexivity.
  - reflexivity.
  - reflexivity.
Defined.

(** The listing of the sample workspace: names that differ by case only
    stay next to each other, in either order. *)
Example ListFilesRecursively_sample :
  ListFilesRecursively insertionSort sample.fs sample.plainDisk 7 12
  = Ok [ {| ID := "notes"; Name := "notes"; Path := "notes";
            Children := Some [ {| ID := "notes/A.md"; Name := "A.md";
                                  Path := "notes/A.md"; Children := None |} ] |};
         {| ID := "NOTES"; Name := "NOTES"; Path := "NOTES";
            Children := Some [ {| ID := "NOTES/a.MD"; Name := "a.MD";
                                  Path := "NOTES/a.MD"; Children := None |} ] |};
         {| ID := "Zed"; Name := "Zed"; Path := "Zed"; Children := Some [] |};
         {| ID := "a.md"; Name := "a.md"; Path := "a.md"; Children := None |};
         {| ID := "b.txt"; Name := "b.txt"; Path := "b.txt"; Children := None |};
         {| ID := "B.txt"; Name := "B.txt"; Path := "B.txt"; Children := None |} ].
Proof. vm_compute. reflexivity. Qed.

Example ListFilesRecursively_unreadable :
  ListFilesRecursively insertionSort sample.fs sample.disk 7 12 = Err ErrPermission /\
  ListFilesRecursively insertionSort sample.fs sample.disk 7 13 = Err ErrNotExist.
Proof. split; vm_compute; reflexivity. Qed.

(** ** Clean paths *)

Lemma splitSlash_nonempty (s : string) : filepath.splitSlash s <> [].
Proof.
  induction s as [|c s IH]; simpl; [discriminate|].
  destruct (Ascii.eqb c "/"); [discriminate|].
  destruct (filepath.splitSlash s); [contradiction | discriminate].
Qed.

Lemma splitSlash_slashFree (x : string) :
  slashFree x = true -> filepath.splitSlash x = [x].
Proof.
  induction x as [|c x IH]; simpl; [reflexivity|].
  intros H. apply andb_prop in H. destruct H as [Hc Hx].
  apply negb_true_iff in Hc. rewrite Hc, (IH Hx). reflexivity.
Qed.

Lemma splitSlash_app (s t : string) :
  filepath.splitSlash (s ++ "/" ++ t)
  = (filepath.splitSlash s ++ filepath.splitSlash t)%list.
Proof.
  induction s as [|c s IH]; simpl; [reflexivity|].
  destruct (Ascii.eqb c "/"); simpl.
  - simpl in IH. now rewrite IH.
  - simpl in IH. rewrite IH.
    destruct (filepath.splitSlash s) as [|h tl] eqn:E; [|reflexivity].
    now apply splitSlash_nonempty in E.
Qed.

Lemma splitSlash_elems (s : string) :
  Forall (fun x => slashFree x = true) (filepath.splitSlash s).
Proof.
  induction s as [|c s IH]; simpl; [repeat constructor|].
  destruct (Ascii.eqb c "/") eqn:E; [now constructor|].
  destruct (filepath.splitSlash s) as [|h tl]; [repeat constructor; simpl; now rewrite E|].
  inversion IH; subst. constructor; [|assumption].
  simpl. now rewrite E.
Qed.

Lemma splitSlash_joinSlash (elems : list string) :
  elems <> [] ->
  Forall (fun x => slashFree x = true) elems ->
  filepath.splitSlash (filepath.joinSlash elems) = elems.
Proof.
  intros Hne Hall. induction Hall as [|x elems Hx Hall IH]; [contradiction|].
  destruct elems as [|y elems].
  - simpl. now apply splitSlash_slashFree.
  - change (filepath.joinSlash (x :: y :: elems))
      with (x ++ "/" ++ filepath.joinSlash (y :: elems)).
    rewrite splitSlash_app, (splitSlash_slashFree x Hx), IH by discriminate.
    reflexivity.
Qed.

Lemma plain_slashFree (x : string) : plain x = true -> slashFree x = true.
Proof. unfold plain. intros H. now apply andb_prop in H. Qed.

Lemma cleanStep_push (rooted : bool) (stack : list string) (x : string) :
  validName x = true -> filepath.cleanStep rooted stack x = x :: stack.
Proof.
  unfold validName, plain, filepath.cleanStep. intros H.
  repeat (apply andb_prop in H; destruct H as [H ?]).
  repeat match goal with
         | H : negb _ = true |- _ => apply negb_true_iff in H; rewrite H
         end.
  reflexivity.
Qed.

Lemma allDotDot_top (stack : list string) (x : string) :
  allDotDot (x :: stack) = true -> x = "..".
Proof. simpl. intros H. apply andb_prop in H. now apply String.eqb_eq. Qed.

(** A stack of the clean form is what scanning its own elements gives. *)
Lemma cleanStep_fold_stack (rooted : bool) (stack : list string) :
  stackOK rooted stack = true ->
  fold_left (filepath.cleanStep rooted) (rev stack) [] = stack.
Proof.
  induction stack as [|x stack IH]; [reflexivity|].
  unfold stackOK. intros H. apply andb_prop in H. destruct H as [Hpl Hdd].
  simpl in Hpl. apply andb_prop in Hpl. destruct Hpl as [Hx Hpl].
  simpl rev. rewrite fold_left_app. simpl.
  assert (Htail : stackOK rooted stack = true).
  { unfold stackOK. rewrite Hpl. simpl. destruct rooted; simpl in Hdd.
    - now apply andb_prop in Hdd.
    - destruct (String.eqb x ".."); [|exact Hdd].
      clear -Hdd. induction stack as [|y stack IH]; [reflexivity|].
      simpl in *. apply andb_prop in Hdd. destruct Hdd as [-> Hdd]. exact Hdd. }
  rewrite (IH Htail).
  destruct (String.eqb x "..") eqn:E.
  - apply String.eqb_eq in E. subst x. destruct rooted; simpl in Hdd; [discriminate|].
    unfold filepath.cleanStep. simpl.
    destruct stack as [|top rest]; [reflexivity|].
    now rewrite (allDotDot_top _ _ Hdd).
  - apply cleanStep_push. unfold validName. now rewrite Hx, E.
Qed.

Lemma dotsAtBottom_tail (x : string) (stack : list string) :
  dotsAtBottom (x :: stack) = true -> dotsAtBottom stack = true.
Proof.
  simpl. destruct (String.eqb x ".."); [|trivial].
  induction stack as [|y stack IH]; [reflexivity|].
  simpl. intros H. apply andb_prop in H. destruct H as [-> H]. exact H.
Qed.

(** Scanning any elements without separators keeps the clean form. *)
Lemma cleanStep_stackOK (rooted : bool) (stack : list string) (seg : string) :
  slashFree seg = true ->
  stackOK rooted stack = true ->
  stackOK rooted (filepath.cleanStep rooted stack seg) = true.
Proof.
  intros Hseg H. unfold filepath.cleanStep.
  destruct (String.eqb seg "") eqn:E1; [exact H|].
  destruct (String.eqb seg ".") eqn:E2; [exact H|]. simpl.
  assert (Hplain : plain seg = true) by (unfold plain; now rewrite E1, E2, Hseg).
  unfold stackOK in *. apply andb_prop in H. destruct H as [Hpl Hdd].
  destruct (String.eqb seg "..") eqn:E3.
  - destruct stack as [|top rest].
    + destruct rooted; [reflexivity|]. simpl. now rewrite Hplain, E3.
    + simpl in Hpl. apply andb_prop in Hpl. destruct Hpl as [Htop Hrest].
      destruct (String.eqb top "..") eqn:E4.
      * destruct rooted; simpl in Hdd; rewrite E4 in Hdd; [discriminate|].
        simpl. now rewrite Hplain, Htop, Hrest, E3, E4, Hdd.
      * rewrite Hrest. simpl. destruct rooted; simpl in Hdd; rewrite E4 in Hdd.
        -- exact Hdd.
        -- exact Hdd.
  - simpl. rewrite Hplain, Hpl. simpl. destruct rooted; simpl.
    + now rewrite E3.
    + now rewrite E3.
Qed.

Lemma cleanStep_fold_stackOK (rooted : bool) (segs : list string) :
  Forall (fun x => slashFree x = true) segs ->
  forall stack, stackOK rooted stack = true ->
                stackOK rooted (fold_left (filepath.cleanStep rooted) segs stack) = true.
Proof.
  induction 1 as [|seg segs Hseg Hall IH]; intros stack H; simpl; [exact H|].
  apply IH. now apply cleanStep_stackOK.
Qed.

Lemma forallb_rev {A : Type} (p : A -> bool) (l : list A) :
  forallb p (rev l) = forallb p l.
Proof.
  induction l as [|x l IH]; [reflexivity|].
  simpl. rewrite forallb_app, IH. simpl. rewrite andb_true_r. apply andb_comm.
Qed.

Lemma Clean_render_eq (path : string) :
  filepath.Clean path
  = render (strs.HasPrefix path "/")
           (filepath.cleanElems (strs.HasPrefix path "/") path).
Proof. reflexivity. Qed.

(** The result of [filepath.Clean] is of the clean form. *)
Lemma Clean_stackOK (path : string) :
  stackOK (strs.HasPrefix path "/")
          (fold_left (filepath.cleanStep (strs.HasPrefix path "/"))
                     (filepath.splitSlash path) []) = true.
Proof.
  apply cleanStep_fold_stackOK; [apply splitSlash_elems|].
  unfold stackOK. now destruct (strs.HasPrefix path "/").
Qed.

Lemma prefix_slash_cons (c : ascii) (t : string) :
  String.prefix "/" (String c t) = Ascii.eqb "/" c.
Proof.
  change (String.prefix "/" (String c t))
    with (match ascii_dec "/" c with
          | left _ => String.prefix "" t
          | right _ => false
          end).
  destruct (ascii_dec "/" c) as [<-|Hne].
  - now destruct t.
  - symmetry. now apply Ascii.eqb_neq.
Qed.

Lemma plain_first_char (x : string) :
  plain x = true -> exists c r, x = String c r /\ c <> "/"%char.
Proof.
  intros H. pose proof (plain_slashFree _ H) as Hs.
  destruct x as [|c r]; [discriminate|].
  exists c, r. split; [reflexivity|].
  simpl in Hs. apply andb_prop in Hs. destruct Hs as [Hc _].
  now apply negb_true_iff, Ascii.eqb_neq in Hc.
Qed.

Lemma render_nonempty (rooted : bool) (elems : list string) :
  forallb plain elems = true -> String.eqb (render rooted elems) "" = false.
Proof.
  intros H. destruct rooted; [reflexivity|].
  destruct elems as [|x elems]; [reflexivity|].
  simpl in H. apply andb_prop in H. destruct H as [Hx _].
  destruct (plain_first_char _ Hx) as (c & r & -> & _).
  unfold render, filepath.joinSlash. simpl. now destruct elems.
Qed.

Lemma HasPrefix_render (rooted : bool) (elems : list string) :
  forallb plain elems = true -> strs.HasPrefix (render rooted elems) "/" = rooted.
Proof.
  intros H. destruct rooted.
  - unfold render, strs.HasPrefix. simpl. now destruct (filepath.joinSlash elems).
  - destruct elems as [|x elems]; [reflexivity|].
    simpl in H. apply andb_prop in H. destruct H as [Hx _].
    destruct (plain_first_char _ Hx) as (c & r & -> & Hc).
    unfold render, strs.HasPrefix, filepath.joinSlash.
    assert (Hp : forall t, String.prefix "/" (String c t) = false).
    { intros t. rewrite prefix_slash_cons. apply Ascii.eqb_neq. congruence. }
    cbn [String.concat]. destruct elems; [apply Hp|].
    change (String c r ++ ?t) with (String c (r ++ t)). apply Hp.
Qed.

Lemma stackOK_plain (rooted : bool) (stack : list string) :
  stackOK rooted stack = true -> forallb plain (rev stack) = true.
Proof.
  unfold stackOK. intros H. apply andb_prop in H. now rewrite forallb_rev.
Qed.

Lemma plain_elems_slashFree (elems : list string) :
  forallb plain elems = true -> Forall (fun x => slashFree x = true) elems.
Proof.
  rewrite forallb_forall, List.Forall_forall.
  intros H x Hx. now apply plain_slashFree, H.
Qed.

(** Scanning a rendered clean path gives back its stack. *)
Lemma render_fold_stack (rooted : bool) (stack : list string) :
  stackOK rooted stack = true ->
  fold_left (filepath.cleanStep rooted)
            (filepath.splitSlash (render rooted (rev stack))) [] = stack.
Proof.
  intros H. pose proof (stackOK_plain _ _ H) as Hpl.
  pose proof (cleanStep_fold_stack _ _ H) as Hfold.
  destruct (rev stack) as [|x elems] eqn:E.
  - assert (stack = []) as -> by (now apply (f_equal (@rev string)) in E;
                                   rewrite rev_involutive in E).
    now destruct rooted.
  - assert (Hsplit : filepath.splitSlash (filepath.joinSlash (x :: elems)) = x :: elems).
    { apply splitSlash_joinSlash; [discriminate | now apply plain_elems_slashFree]. }
    destruct rooted; unfold render.
    + change ("/" ++ filepath.joinSlash (x :: elems))
        with ("" ++ "/" ++ filepath.joinSlash (x :: elems)).
      rewrite splitSlash_app, Hsplit. exact Hfold.
    + rewrite Hsplit. exact Hfold.
Qed.

(** A rendered clean path is its own cleaning. *)
Lemma Clean_render (rooted : bool) (stack : list string) :
  stackOK rooted stack = true ->
  filepath.Clean (render rooted (rev stack)) = render rooted (rev stack).
Proof.
  intros H. rewrite Clean_render_eq.
  rewrite (HasPrefix_render _ _ (stackOK_plain _ _ H)).
  unfold filepath.cleanElems. now rewrite (render_fold_stack _ _ H).
Qed.

Lemma cleanElems_render (rooted : bool) (stack : list string) :
  stackOK rooted stack = true ->
  filepath.cleanElems rooted (render rooted (rev stack)) = rev stack.
Proof.
  intros H. unfold filepath.cleanElems. now rewrite (render_fold_stack _ _ H).
Qed.

Lemma stackOK_push (rooted : bool) (stack : list string) (x : string) :
  stackOK rooted stack = true -> validName x = true ->
  stackOK rooted (x :: stack) = true.
Proof.
  intros H Hx. rewrite <- (cleanStep_push rooted stack x Hx).
  apply cleanStep_stackOK; [|exact H].
  unfold validName in Hx. apply andb_prop in Hx. now apply plain_slashFree.
Qed.

Lemma prefix_slash_app (s t : string) :
  String.eqb s "" = false ->
  strs.HasPrefix (s ++ t) "/" = strs.HasPrefix s "/".
Proof.
  destruct s as [|c s]; [discriminate|]. intros _.
  unfold strs.HasPrefix.
  change (String c s ++ t) with (String c (s ++ t)).
  now rewrite !prefix_slash_cons.
Qed.

(** Joining a valid name to a clean path puts the name on its stack. *)
Lemma Join_render (rooted : bool) (stack : list string) (x : string) :
  stackOK rooted stack = true -> validName x = true ->
  filepath.Join [render rooted (rev stack); x] = render rooted (rev (x :: stack)).
Proof.
  intros H Hx. pose proof (stackOK_plain _ _ H) as Hpl.
  unfold filepath.Join. rewrite (render_nonempty _ _ Hpl).
  change (filepath.joinSlash [render rooted (rev stack); x])
    with (render rooted (rev stack) ++ "/" ++ x).
  rewrite Clean_render_eq, (prefix_slash_app _ _ (render_nonempty _ _ Hpl)),
    (HasPrefix_render _ _ Hpl).
  unfold filepath.cleanElems.
  assert (Hsx : slashFree x = true).
  { unfold validName in Hx. apply andb_prop in Hx. now apply plain_slashFree. }
  rewrite splitSlash_app, (splitSlash_slashFree x Hsx), fold_left_app,
    (render_fold_stack _ _ H).
  simpl fold_left. now rewrite (cleanStep_push _ _ _ Hx).
Qed.

Lemma dropCommon_app (base rest : list string) :
  filepath.dropCommon base (base ++ rest) = ([], rest).
Proof.
  induction base as [|b base IH]; simpl; [now destruct rest|].
  now rewrite String.eqb_refl.
Qed.

Lemma stackOK_below (rooted : bool) (stack names : list string) :
  stackOK rooted stack = true -> forallb validName names = true ->
  stackOK rooted (below stack names) = true.
Proof.
  intros H. unfold below. induction names as [|x names IH] using rev_ind; intros Hn.
  - exact H.
  - rewrite forallb_app in Hn. apply andb_prop in Hn. destruct Hn as [Hn Hx].
    simpl in Hx. rewrite andb_true_r in Hx.
    rewrite rev_app_distr. simpl. apply stackOK_push; [now apply IH | exact Hx].
Qed.

(** [filepath.Rel] from a clean path to a path below it by valid names
    gives those names. *)
Lemma Rel_below (rooted : bool) (stack names : list string) :
  stackOK rooted stack = true -> forallb validName names = true ->
  filepath.Rel (render rooted (rev stack)) (render rooted (rev (below stack names)))
  = Ok (relString names).
Proof.
  intros H Hn. pose proof (stackOK_below _ _ _ H Hn) as Hb.
  unfold filepath.Rel. cbv zeta.
  rewrite (Clean_render _ _ H), (Clean_render _ _ Hb).
  destruct names as [|x names].
  - unfold below. simpl. now rewrite String.eqb_refl.
  - destruct (String.eqb _ _) eqn:E.
    + exfalso. apply String.eqb_eq in E.
      apply (f_equal (filepath.cleanElems rooted)) in E.
      rewrite (cleanElems_render _ _ H), (cleanElems_render _ _ Hb) in E.
      unfold below in E. rewrite rev_app_distr, rev_involutive in E.
      apply (f_equal (@List.length string)) in E.
      rewrite length_app in E. simpl in E. lia.
    + rewrite (HasPrefix_render _ _ (stackOK_plain _ _ H)),
        (HasPrefix_render _ _ (stackOK_plain _ _ Hb)), eqb_reflx. simpl.
      rewrite (cleanElems_render _ _ H), (cleanElems_render _ _ Hb).
      unfold below. rewrite rev_app_distr, rev_involutive, dropCommon_app.
      reflexivity.
Qed.

(** ** The workspace path *)

Lemma string_of_uint_decimal (d : Decimal.uint) :
  allChars isDecimalChar (NilEmpty.string_of_uint d) = true.
Proof. induction d; simpl; try reflexivity; exact IHd. Qed.

(** [%d] writes at least one byte, digits and sign only. *)
Lemma Sprintf_d_decimal (n : Z) :
  allChars isDecimalChar (fmt.Sprintf_d n) = true /\ fmt.Sprintf_d n <> "".
Proof.
  unfold fmt.Sprintf_d, NilZero.string_of_int, NilZero.string_of_uint.
  destruct (Z.to_int n) as [d|d]; destruct d; simpl;
    (split; [try reflexivity; apply string_of_uint_decimal | discriminate]).
Qed.

Lemma eqb_first_char (c d : ascii) (r t : string) :
  c <> d -> String.eqb (String c r) (String d t) = false.
Proof. intros H. apply String.eqb_neq. congruence. Qed.

(** Such a string is a valid name, and not the name [.git]. *)
Lemma decimal_validName (s : string) :
  allChars isDecimalChar s = true -> s <> "" ->
  validName s = true /\ String.eqb s ".git" = false.
Proof.
  intros H Hne.
  assert (Hs : slashFree s = true).
  { clear Hne. induction s as [|c r IH]; [reflexivity|].
    simpl in *. apply andb_prop in H. destruct H as [Hc Hr].
    rewrite (IH Hr), andb_true_r. apply negb_true_iff, Ascii.eqb_neq.
    intros ->. discriminate. }
  destruct s as [|c r]; [contradiction|].
  simpl in H. apply andb_prop in H. destruct H as [Hc _].
  assert (Hdot : c <> "."%char) by (intros ->; discriminate).
  unfold validName, plain. rewrite Hs.
  change "." with (String "." ""). change ".." with (String "." ".").
  change ".git" with (String "." "git").
  rewrite !(eqb_first_char c "." _ _ Hdot). split; reflexivity.
Qed.

Lemma append_assoc (s t u : string) : (s ++ t) ++ u = s ++ t ++ u.
Proof.
  induction s as [|c s IH]; [reflexivity|].
  change (String c ((s ++ t) ++ u) = String c (s ++ t ++ u)). now rewrite IH.
Qed.

(** Cleaning a non-empty path followed by a separator and a valid name:
    the name ends up on top of the stack of the clean form. *)
Lemma Clean_append_name (p x : string) :
  String.eqb p "" = false -> validName x = true ->
  exists stack : list string,
    stackOK (strs.HasPrefix p "/") (x :: stack) = true /\
    filepath.Clean (p ++ "/" ++ x) = render (strs.HasPrefix p "/") (rev (x :: stack)).
Proof.
  intros Hp Hx.
  exists (fold_left (filepath.cleanStep (strs.HasPrefix p "/")) (filepath.splitSlash p) []).
  split.
  - apply stackOK_push; [apply Clean_stackOK | exact Hx].
  - rewrite Clean_render_eq, (prefix_slash_app _ _ Hp). f_equal.
    unfold filepath.cleanElems. f_equal.
    assert (Hsx : slashFree x = true).
    { unfold validName in Hx. apply andb_prop in Hx. now apply plain_slashFree. }
    rewrite splitSlash_app, (splitSlash_slashFree x Hsx), fold_left_app.
    simpl. now apply cleanStep_push.
Qed.

(** The workspace path is of the clean form and ends with the decimal
    workspace identifier. *)
Lemma GetWorkspacePath_clean (fs : FileSystem) (userID workspaceID : Z) :
  exists (rooted : bool) (stack : list string),
    stackOK rooted (fmt.Sprintf_d workspaceID :: stack) = true /\
    GetWorkspacePath fs userID workspaceID
    = render rooted (rev (fmt.Sprintf_d workspaceID :: stack)).
Proof.
  destruct (Sprintf_d_decimal userID) as [_ Hu].
  destruct (Sprintf_d_decimal workspaceID) as [Hwc Hw].
  destruct (decimal_validName _ Hwc Hw) as [Hvalid _].
  apply String.eqb_neq in Hu.
  unfold GetWorkspacePath, filepath.Join.
  destruct (String.eqb (RootDir fs) "") eqn:Er.
  - rewrite Hu.
    change (filepath.joinSlash [fmt.Sprintf_d userID; fmt.Sprintf_d workspaceID])
      with (fmt.Sprintf_d userID ++ "/" ++ fmt.Sprintf_d workspaceID).
    destruct (Clean_append_name _ _ Hu Hvalid) as (stack & Hok & Hc).
    now exists (strs.HasPrefix (fmt.Sprintf_d userID) "/"), stack.
  - change (filepath.joinSlash [RootDir fs; fmt.Sprintf_d userID; fmt.Sprintf_d workspaceID])
      with (RootDir fs ++ "/" ++ fmt.Sprintf_d userID ++ "/" ++ fmt.Sprintf_d workspaceID).
    assert (Hne : String.eqb (RootDir fs ++ "/" ++ fmt.Sprintf_d userID) "" = false).
    { destruct (RootDir fs); [discriminate | reflexivity]. }
    destruct (Clean_append_name _ _ Hne Hvalid) as (stack & Hok & Hc).
    rewrite !append_assoc in Hc.
    now exists (strs.HasPrefix (RootDir fs ++ "/" ++ fmt.Sprintf_d userID) "/"), stack.
Qed.

(** The last element of a clean path is what [filepath.Base] returns. *)
Lemma Base_render (rooted : bool) (stack : list string) (x : string) :
  stackOK rooted (x :: stack) = true ->
  filepath.Base (render rooted (rev (x :: stack))) = x.
Proof.
  intros H. pose proof (stackOK_plain _ _ H) as Hpl.
  unfold filepath.Base. rewrite (render_nonempty _ _ Hpl).
  assert (Hsplit : filepath.splitSlash (filepath.joinSlash (rev (x :: stack)))
                   = rev (x :: stack)).
  { apply splitSlash_joinSlash; [|now apply plain_elems_slashFree].
    simpl. now destruct (rev stack). }
  assert (Hx : negb (String.eqb x "") = true).
  { unfold stackOK in H. simpl in H. unfold plain in H.
    destruct (String.eqb x ""); [discriminate | reflexivity]. }
  assert (Hrooted : filepath.splitSlash (render true (rev (x :: stack)))
                    = "" :: rev (x :: stack)).
  { unfold render.
    change ("/" ++ filepath.joinSlash (rev (x :: stack)))
      with ("" ++ "/" ++ filepath.joinSlash (rev (x :: stack))).
    now rewrite splitSlash_app, Hsplit. }
  assert (Hplainp : filepath.splitSlash (render false (rev (x :: stack)))
                    = rev (x :: stack)).
  { unfold render. destruct (rev (x :: stack)) eqn:E; [|exact Hsplit].
    simpl in E. now destruct (rev stack). }
  destruct rooted.
  - rewrite Hrooted. simpl rev. rewrite rev_app_distr, rev_involutive. simpl.
    now rewrite Hx.
  - rewrite Hplainp, rev_involutive. simpl. now rewrite Hx.
Qed.

(** ** Search by name *)

Lemma matchingPaths_app {U : strs.Unicode} (filename : string) (l1 l2 : list (list string * string)) :
  matchingPaths filename (l1 ++ l2)
  = (matchingPaths filename l1 ++ matchingPaths filename l2)%list.
Proof. unfold matchingPaths. now rewrite List.filter_app, map_app. Qed.

Lemma below_snoc (stack names : list string) (x : string) :
  x :: below stack names = below stack (names ++ [x]).
Proof. unfold below. now rewrite rev_app_distr. Qed.

Lemma forallb_snoc {A : Type} (p : A -> bool) (l : list A) (x : A) :
  forallb p l = true -> p x = true -> forallb p (l ++ [x]) = true.
Proof. intros Hl Hx. rewrite forallb_app, Hl. simpl. now rewrite Hx. Qed.

(** The path of the entry [x] of the directory that lies [names] below a
    clean path. *)
Lemma Join_below (rooted : bool) (stack names : list string) (x : string) :
  stackOK rooted stack = true -> forallb validName names = true ->
  validName x = true ->
  filepath.Join [render rooted (rev (below stack names)); x]
  = render rooted (rev (below stack (names ++ [x]))).
Proof.
  intros H Hn Hx. rewrite <- below_snoc.
  apply Join_render; [now apply stackOK_below | exact Hx].
Qed.

Section FindWalk.

Context {U : strs.Unicode}.

Variables (rooted : bool) (base : list string) (filename : string).
Hypothesis base_ok : stackOK rooted base = true.

Local Abbreviation root := (render rooted (rev base)).
Local Abbreviation walksEntry := (findsBelow rooted base filename).

Lemma walkNames_find (entries : list (string * os.node)) :
  Forall walksEntry entries ->
  forall (names found : list string),
    forallb validName names = true ->
    walker.walkNames
      (map (fun xc => os.MkDirEntry (fst xc) (snd xc)
                        (walker.walk (findFn root filename) (fst xc) (snd xc)))
           entries)
      (render rooted (rev (below base names))) found
    = ((found ++
        matchingPaths filename
          (flat_map (fun e => os.descend e (names ++ [os.Name e])%list)
             (map (fun xc => os.MkDirEntry (fst xc) (snd xc)
                               (filesInWalkOrder (fst xc) (snd xc)))
                  entries)))%list,
       None).
Proof.
  induction 1 as [|xc entries [Hx Hwalk] Hall IH]; intros names found Hn.
  - simpl. now rewrite app_nil_r.
  - cbn [map walker.walkNames flat_map os.Name os.descend].
    rewrite (Join_below _ _ _ _ base_ok Hn Hx).
    rewrite (Hwalk _ found (forallb_snoc _ _ _ Hn Hx)).
    rewrite (IH names _ Hn), matchingPaths_app, <- app_assoc. reflexivity.
Qed.

Lemma walk_find (n : os.node) :
  forall (name : string) (names found : list string),
    validNames n = true -> readableAll n = true ->
    forallb validName names = true ->
    walker.walk (findFn root filename) name n
                (render rooted (rev (below base names))) found
    = ((found ++ matchingPaths filename (filesInWalkOrder name n names))%list, None).
Proof.
  induction n as [content|r es IH] using node_nested_ind;
    intros name names found Hvalid Hread Hn.
  - cbn [walker.walk filesInWalkOrder]. unfold findFn. cbn [walker.infoOf
      walker.infoIsDir walker.infoName os.isDir negb].
    rewrite (Rel_below _ _ _ base_ok Hn).
    unfold matchingPaths. cbn [List.filter snd fst map].
    destruct (strs.EqualFold name filename); [reflexivity | now rewrite app_nil_r].
  - simpl in Hread. apply andb_prop in Hread. destruct Hread as [-> Hread].
    assert (Hentries : Forall walksEntry es).
    { simpl in Hvalid. rewrite forallb_forall in Hvalid, Hread.
      rewrite List.Forall_forall in IH. apply List.Forall_forall. intros xc Hin.
      pose proof (Hvalid xc Hin) as Hv. apply andb_prop in Hv. destruct Hv as [Hx Hv].
      split; [exact Hx|]. intros names' found' Hn'.
      apply (IH xc Hin); [exact Hv | exact (Hread xc Hin) | exact Hn']. }
    apply (Permutation_Forall (Permutation_sym (sortBy_perm fst es))) in Hentries.
    change (walker.walk (findFn root filename) name (os.Dir true es)
              (render rooted (rev (below base names))) found)
      with (walker.walkNames
              (os.sortBy os.Name
                 (map (fun xc => os.MkDirEntry (fst xc) (snd xc)
                                   (walker.walk (findFn root filename) (fst xc) (snd xc)))
                      es))
              (render rooted (rev (below base names))) found).
    change (filesInWalkOrder name (os.Dir true es) names)
      with (flat_map (fun e => os.descend e (names ++ [os.Name e])%list)
              (os.sortBy os.Name
                 (map (fun xc => os.MkDirEntry (fst xc) (snd xc)
                                   (filesInWalkOrder (fst xc) (snd xc)))
                      es))).
    rewrite !sortBy_map. now apply walkNames_find.
Qed.

End FindWalk.




(** Both notes are found for the query [a.md] whatever the case tables
    are outside ASCII. *)
Example FindFileByName_twoNotes {U : strs.Unicode} :
  FindFileByName sample.fs (sample.diskOf sample_find.twoNotes) 7 12 "a.md"
  = Ok ["NOTES/a.MD"; "notes/A.md"].
Proof.
  assert (E1 : strs.EqualFold "a.MD" "a.md" = true)
    by (now rewrite strs.EqualFold_ascii).
  assert (E2 : strs.EqualFold "A.md" "a.md" = true)
    by (now rewrite strs.EqualFold_ascii).
  cbv -[strs.EqualFold]. rewrite E1, E2. reflexivity.
Qed.

Example FindFileByName_samples :
  (* walk order, not the order of the resulting strings *)
  FindFileByName sample.fs (sample.diskOf sample_find.dotted) 7 12 "X.MD"
  = Ok ["a/x.md"; "a.d/x.md"] /\
  String.ltb "a.d/x.md" "a/x.md" = true /\
  (* no match *)
  FindFileByName sample.fs sample.plainDisk 7 12 "c.md" = Err ErrFileNotFound /\
  (* files at several depths *)
  FindFileByName sample.fs sample.plainDisk 7 12 "A.MD"
  = Ok ["NOTES/a.MD"; "a.md"; "notes/A.md"] /\
  (* only files match, not directories *)
  FindFileByName sample.fs sample.plainDisk 7 12 "notes" = Err ErrFileNotFound /\
  (* a missing workspace and an unreadable directory: the error of the walk *)
  FindFileByName sample.fs sample.plainDisk 7 13 "a.md" = Err ErrNotExist /\
  FindFileByName sample.fs sample.disk 7 12 "zzz" = Err ErrPermission.
Proof. repeat split; vm_compute; reflexivity. Qed.

(** ** Statistics *)

Lemma wrap64_add (a b : Z) :
  wrap64 (wrap64 a + b) = wrap64 (a + b).
Proof.
  unfold wrap64.
  replace ((a + 2 ^ 63) mod 2 ^ 64 - 2 ^ 63 + b + 2 ^ 63)
    with ((a + 2 ^ 63) mod 2 ^ 64 + b) by ring.
  rewrite Zplus_mod_idemp_l. f_equal. f_equal. ring.
Qed.

Lemma wrap64_small (z : Z) : - 2 ^ 63 <= z < 2 ^ 63 -> wrap64 z = z.
Proof.
  intros H. unfold wrap64. rewrite Z.mod_small; lia.
Qed.

Lemma sumZ_app (l1 l2 : list Z) : sumZ (l1 ++ l2) = sumZ l1 + sumZ l2.
Proof.
  induction l1 as [|x l1 IH]; simpl; [reflexivity|].
  unfold sumZ in *. simpl. rewrite IH. ring.
Qed.

Lemma sumZ_perm (l1 l2 : list Z) : Permutation l1 l2 -> sumZ l1 = sumZ l2.
Proof.
  induction 1 as [|x l1 l2 _ IH|x y l|l1 l2 l3 _ IH1 _ IH2]; unfold sumZ in *; simpl;
    [reflexivity | now rewrite IH | ring | now rewrite IH1].
Qed.

Section CountWalk.

Variables (rooted : bool) (base : list string).
Hypothesis base_ok : stackOK rooted base = true.

Local Abbreviation root := (render rooted (rev base)).
Local Abbreviation countsEntry := (countsBelow rooted base).

Lemma walkDirEntries_count (entries : list (string * os.node)) :
  Forall countsEntry entries ->
  forall (names : list string) (a b : Z),
    forallb validName names = true ->
    walker.walkDirEntries
      (map (fun xc => os.MkDirEntry (fst xc) (snd xc)
                        (walker.walkDir (countFn root) (fst xc) (snd xc)))
           entries)
      (render rooted (rev (below base names)))
      {| TotalFiles := wrap64 a; TotalSize := wrap64 b |}
    = (counted a b (flat_map (fun xc => countedSizes (fst xc) (snd xc)) entries), None).
Proof.
  induction 1 as [|xc entries [Hx Hwalk] Hall IH]; intros names a b Hn.
  - unfold counted. simpl. unfold sumZ. simpl. now rewrite !Z.add_0_r.
  - cbn [map walker.walkDirEntries flat_map os.Name os.descend].
    rewrite (Join_below _ _ _ _ base_ok Hn Hx).
    rewrite (Hwalk _ a b (forallb_snoc _ _ _ Hn Hx)).
    unfold counted at 1. rewrite (IH names _ _ Hn). unfold counted.
    rewrite length_app, Nat2Z.inj_add, sumZ_app, !Z.add_assoc. reflexivity.
Qed.

Lemma walkDir_count (n : os.node) :
  forall (name : string) (names : list string) (a b : Z),
    validNames n = true -> readableOutsideGit name n = true ->
    forallb validName names = true ->
    walker.walkDir (countFn root) name n (render rooted (rev (below base names)))
                   {| TotalFiles := wrap64 a; TotalSize := wrap64 b |}
    = (counted a b (countedSizes name n), None).
Proof.
  induction n as [content|r es IH] using node_nested_ind;
    intros name names a b Hvalid Hread Hn.
  - cbn [walker.walkDir countedSizes]. unfold countFn. cbn [walker.infoOf
      walker.infoIsDir walker.infoName walker.infoSize os.isDir negb andb].
    rewrite (Rel_below _ _ _ base_ok Hn).
    unfold counted. cbn [TotalFiles TotalSize List.length]. unfold add64, sumZ.
    rewrite !wrap64_add. simpl fold_right. now rewrite Z.add_0_r.
  - cbn [countedSizes]. simpl in Hread.
    destruct (String.eqb name ".git") eqn:Egit.
    + change (walker.walkDir (countFn root) name (os.Dir r es)
                (render rooted (rev (below base names)))
                {| TotalFiles := wrap64 a; TotalSize := wrap64 b |})
        with (let '(s1, err) :=
                countFn root (render rooted (rev (below base names)))
                        (Some (walker.infoOf name (os.Dir r es))) None
                        {| TotalFiles := wrap64 a; TotalSize := wrap64 b |} in
              match err with
              | Some e => (s1, if isSkipDir e then None else Some e)
              | None =>
                  match os.ReadDir r
                          (map (fun xc => os.MkDirEntry (fst xc) (snd xc)
                                            (walker.walkDir (countFn root) (fst xc) (snd xc)))
                               es) with
                  | Ok dirs =>
                      walker.walkDirEntries dirs (render rooted (rev (below base names))) s1
                  | Err e =>
                      let '(s2, err2) :=
                        countFn root (render rooted (rev (below base names)))
                                (Some (walker.infoOf name (os.Dir r es))) (Some e) s1 in
                      match err2 with
                      | Some e2 => (s2, if isSkipDir e2 then None else Some e2)
                      | None => (s2, None)
                      end
                  end
              end).
      unfold countFn at 1. cbn [walker.infoOf walker.infoIsDir walker.infoName os.isDir andb].
      rewrite Egit. unfold counted. simpl. unfold sumZ. simpl. now rewrite !Z.add_0_r.
    + simpl in Hread. apply andb_prop in Hread. destruct Hread as [-> Hread].
      assert (Hentries : Forall countsEntry es).
      { simpl in Hvalid. rewrite forallb_forall in Hvalid, Hread.
        rewrite List.Forall_forall in IH. apply List.Forall_forall. intros xc Hin.
        pose proof (Hvalid xc Hin) as Hv. apply andb_prop in Hv. destruct Hv as [Hx Hv].
        split; [exact Hx|]. intros names' a' b' Hn'.
        apply (IH xc Hin); [exact Hv | exact (Hread xc Hin) | exact Hn']. }
      pose proof (sortBy_perm fst es) as Hperm.
      apply (Permutation_Forall (Permutation_sym Hperm)) in Hentries.
      change (walker.walkDir (countFn root) name (os.Dir true es)
                (render rooted (rev (below base names)))
                {| TotalFiles := wrap64 a; TotalSize := wrap64 b |})
        with (let '(s1, err) :=
                countFn root (render rooted (rev (below base names)))
                        (Some (walker.infoOf name (os.Dir true es))) None
                        {| TotalFiles := wrap64 a; TotalSize := wrap64 b |} in
              match err with
              | Some e => (s1, if isSkipDir e then None else Some e)
              | None =>
                  walker.walkDirEntries
                    (os.sortBy os.Name
                       (map (fun xc => os.MkDirEntry (fst xc) (snd xc)
                                         (walker.walkDir (countFn root) (fst xc) (snd xc)))
                            es))
                    (render rooted (rev (below base names))) s1
              end).
      unfold countFn at 1. cbn [walker.infoOf walker.infoIsDir walker.infoName os.isDir
                                  andb negb].
      rewrite Egit. cbv iota beta.
      rewrite sortBy_map.
      etransitivity; [apply (walkDirEntries_count _ Hentries names a b Hn)|].
      pose proof (Permutation_flat_map
                    (fun xc : string * os.node => countedSizes (fst xc) (snd xc)) Hperm)
        as Hflat.
      unfold counted.
      now rewrite (Permutation_length Hflat), (sumZ_perm _ _ Hflat).
Qed.

End CountWalk.

Lemma allFiles_prefix (n : os.node) :
  forall (rel : list string) (f : list string * Z),
    In f (allFiles n rel) -> exists more, fst f = (rel ++ more)%list.
Proof.
  induction n as [content|r es IH] using node_nested_ind; intros rel f Hin.
  - destruct Hin as [<-|[]]. exists []. simpl. now rewrite app_nil_r.
  - cbn [allFiles] in Hin. apply in_flat_map in Hin. destruct Hin as (xc & Hxc & Hin).
    rewrite List.Forall_forall in IH.
    destruct (IH xc Hxc _ _ Hin) as (more & ->).
    exists (fst xc :: more). now rewrite <- app_assoc.
Qed.

Lemma filter_none {A : Type} (p : A -> bool) (l : list A) :
  (forall x, In x l -> p x = false) -> List.filter p l = [].
Proof.
  induction l as [|x l IH]; intros H; simpl; [reflexivity|].
  rewrite (H x (or_introl eq_refl)). apply IH. intros y Hy. apply H. now right.
Qed.

Lemma underGit_inside (rel more : list string) :
  existsb (fun x => String.eqb x ".git") rel = true -> more <> [] ->
  underGit (rel ++ more) = true.
Proof.
  intros H Hne. unfold underGit.
  rewrite (removelast_app rel Hne), existsb_app, H. reflexivity.
Qed.

Lemma flat_map_filter_map {A B C : Type} (f : A -> list B) (p : B -> bool) (g : B -> C)
    (l : list A) :
  map g (List.filter p (flat_map f l))
  = flat_map (fun a => map g (List.filter p (f a))) l.
Proof.
  induction l as [|a l IH]; simpl; [reflexivity|].
  now rewrite List.filter_app, map_app, IH.
Qed.

Lemma flat_map_ext_Forall {A B : Type} (f g : A -> list B) (l : list A) :
  Forall (fun a => f a = g a) l -> flat_map f l = flat_map g l.
Proof. induction 1 as [|a l Ha _ IH]; simpl; [reflexivity | now rewrite Ha, IH]. Qed.

(** What the walk counts below an object is what lies in no [.git]
    directory, the object's own name included. *)
Lemma countedSizes_allFiles (n : os.node) :
  forall (name : string) (above : list string),
    existsb (fun x => String.eqb x ".git") above = false ->
    map snd (List.filter (fun f => negb (underGit (fst f)))
                         (allFiles n (above ++ [name])))
    = countedSizes name n.
Proof.
  induction n as [content|r es IH] using node_nested_ind; intros name above Habove.
  - cbn [allFiles countedSizes List.filter fst]. unfold underGit.
    rewrite removelast_last, Habove. reflexivity.
  - cbn [countedSizes]. destruct (String.eqb name ".git") eqn:Egit.
    + rewrite filter_none; [reflexivity|]. intros f Hin.
      cbn [allFiles] in Hin. apply in_flat_map in Hin. destruct Hin as (xc & _ & Hin).
      destruct (allFiles_prefix _ _ _ Hin) as (more & ->).
      rewrite <- app_assoc. apply negb_false_iff.
      apply underGit_inside; [|discriminate].
      rewrite existsb_app. simpl. now rewrite Egit, orb_true_r.
    + cbn [allFiles]. rewrite flat_map_filter_map. apply flat_map_ext_Forall.
      rewrite List.Forall_forall in IH. apply List.Forall_forall. intros xc Hin.
      apply (IH xc Hin). rewrite existsb_app. simpl. now rewrite Habove, Egit.
Qed.

Lemma workspaceSizes_counted (n : os.node) (name : string) :
  String.eqb name ".git" = false -> workspaceSizes n = countedSizes name n.
Proof.
  intros Egit. unfold workspaceSizes. destruct n as [content|r es].
  - reflexivity.
  - cbn [allFiles countedSizes]. rewrite Egit, flat_map_filter_map.
    apply flat_map_ext_Forall, List.Forall_forall. intros xc _.
    now apply (countedSizes_allFiles (snd xc) (fst xc) []).
Qed.

Lemma workspaceReadable_outside (n : os.node) (name : string) :
  String.eqb name ".git" = false -> readableOutsideGit name n = workspaceReadable n.
Proof. intros Egit. destruct n; simpl; [reflexivity | now rewrite Egit]. Qed.

Lemma sumZ_sizes_nonneg (n : os.node) : 0 <= sumZ (workspaceSizes n).
Proof.
  unfold workspaceSizes.
  assert (H : forall l : list (list string * Z),
             Forall (fun f => 0 <= snd f) l -> 0 <= sumZ (map snd l)).
  { induction 1 as [|f l Hf _ IH]; unfold sumZ in *; simpl; lia. }
  apply H, Forall_filter_keep. generalize (@nil string).
  induction n as [content|r es IH] using node_nested_ind; intros rel.
  - repeat constructor. simpl. lia.
  - cbn [allFiles]. apply List.Forall_forall. intros f Hin.
    apply in_flat_map in Hin. destruct Hin as (xc & Hxc & Hin).
    rewrite List.Forall_forall in IH.
    pose proof (IH xc Hxc (rel ++ [fst xc])%list) as Hall.
    rewrite List.Forall_forall in Hall. now apply Hall.
Qed.

(** C9. On a workspace whose directories outside [.git] can be read,
    [GetFileStats] counts the files that lie in no directory called
    [.git], each once: the file count is their number and the total size
    the sum of their sizes (in 64-bit arithmetic, so exactly these numbers
    as long as they are below 2^63); what lies in a [.git] directory is
    neither counted nor visited, so that an unreadable directory there
    does not matter. *)
Theorem GetFileStats_skips_git (fs : FileSystem) (disk n : os.node)
    (userID workspaceID : Z) :
  os.Stat disk (GetWorkspacePath fs userID workspaceID) = Ok n ->
  validNames n = true ->
  workspaceReadable n = true ->
  let count := Z.of_nat (List.length (workspaceSizes n)) in
  let total := sumZ (workspaceSizes n) in
  GetFileStats fs disk userID workspaceID
  = Ok {| TotalFiles := wrap64 count; TotalSize := wrap64 total |} /\
  (count < 2 ^ 63 -> wrap64 count = count) /\
  (total < 2 ^ 63 -> wrap64 total = total).
Proof.
  intros Hstat Hvalid Hread. cbv zeta.
  split; [|split; intros H; apply wrap64_small;
           [lia | pose proof (sumZ_sizes_nonneg n); lia]].
  destruct (GetWorkspacePath_clean fs userID workspaceID) as (rooted & stack & Hok & Hws).
  destruct (Sprintf_d_decimal workspaceID) as [Hwc Hw].
  destruct (decimal_validName _ Hwc Hw) as [_ Egit].
  unfold GetFileStats, countFilesInPath, walker.WalkDir. rewrite Hstat.
  cbn [os.IsNotExist]. rewrite Hws, (Base_render _ _ _ Hok).
  rewrite <- (workspaceReadable_outside n _ Egit) in Hread.
  pose proof (walkDir_count rooted _ Hok n (fmt.Sprintf_d workspaceID) [] 0 0
                Hvalid Hread eq_refl) as Hwalk.
  unfold below in Hwalk. simpl app in Hwalk.
  change (wrap64 0) with 0 in Hwalk. rewrite Hwalk.
  rewrite <- (workspaceSizes_counted n _ Egit). reflexivity.
Qed.

Lemma GetFileStats_skips_git_witness :
  GetFileStats sample.fs sample.disk 7 12 = Ok {| TotalFiles := 5; TotalSize := 7 |}.
Proof.
  destruct (GetFileStats_skips_git sample.fs sample.disk sample.workspace 7 12)
    as (H & _ & _); [reflexivity | reflexivity | reflexivity |].
  exact H.
Defined.

Example GetFileStats_samples :
  (* the [.git] directory of the sample holds two files, one of them in an
     unreadable directory; without it the numbers are the same *)
  map fst (allFiles sample.workspace [])
  = [["notes"; "A.md"]; ["NOTES"; "a.MD"]; ["b.txt"]; ["B.txt"]; ["a.md"];
     [".git"; "config"]; [".git"; "objects"; "x"]] /\
  workspaceSizes sample.workspace = [2; 1; 0; 1; 3] /\
  GetFileStats sample.fs sample.plainDisk 7 12 = Ok {| TotalFiles := 5; TotalSize := 7 |} /\
  (* a regular file called [.git] is counted *)
  GetFileStats sample.fs (sample.diskOf (os.Dir true [(".git", os.File [x01])])) 7 12
  = Ok {| TotalFiles := 1; TotalSize := 1 |} /\
  (* a [.git] directory deeper in the tree is skipped as well *)
  GetFileStats sample.fs
    (sample.diskOf (os.Dir true [("sub", os.Dir true [(".git", os.Dir true [("x", os.File [x01])]);
                                                      ("y", os.File [x01; x02])])]))
    7 12
  = Ok {| TotalFiles := 1; TotalSize := 2 |} /\
  (* no workspace directory *)
  GetFileStats sample.fs sample.disk 7 13 = Err ErrWorkspaceMissing.
Proof. repeat split; vm_compute; reflexivity. Qed.

(** * Further properties of the code *)

(** ** The registry: disabling *)

(** X1. [DisableGitRepo] touches one key only: the handle of every other
    (user, workspace) pair is looked up as before, also when the user's
    inner map is dropped because it became empty. *)
Theorem DisableGitRepo_other (fs : FileSystem) (userID workspaceID u1 w1 : Z) :
  (u1, w1) <> (userID, workspaceID) ->
  getGitRepo (DisableGitRepo fs userID workspaceID) u1 w1 = getGitRepo fs u1 w1.
Proof.
  intros Hne. unfold getGitRepo.
  destruct (GitRepos fs !! userID) as [userRepos|] eqn:E.
  - rewrite (DisableGitRepo_lookup _ _ _ _ E).
    destruct (bool_decide_reflect (delete workspaceID userRepos = ∅)) as [He|_].
    + destruct (decide (u1 = userID)) as [->|Hu].
      * rewrite lookup_delete_eq, E.
        assert (Hw : w1 <> workspaceID) by congruence.
        rewrite <- (lookup_delete_ne userRepos workspaceID w1) by congruence.
        now rewrite He, lookup_empty.
      * now rewrite lookup_delete_ne by congruence.
    + destruct (decide (u1 = userID)) as [->|Hu].
      * rewrite lookup_insert_eq, E.
        assert (Hw : w1 <> workspaceID) by congruence.
        now rewrite lookup_delete_ne by congruence.
      * now rewrite lookup_insert_ne by congruence.
  - unfold DisableGitRepo. now rewrite E.
Qed.

Lemma DisableGitRepo_other_witness :
  getGitRepo (DisableGitRepo sample_registry.fs 7 13) 7 12 = Some sample_registry.handle.
Proof.
  rewrite (DisableGitRepo_other sample_registry.fs 7 13 7 12); [reflexivity|].
  congruence.
Defined.

(** X2. Disabling undoes enabling: on a registry that keeps its invariant
    and has no handle for the pair, [SetupGitRepo] followed by
    [DisableGitRepo] gives back the file system value it started from,
    whether or not [EnsureRepo] succeeded. *)
Theorem DisableGitRepo_SetupGitRepo (env : git.Env) (fs : FileSystem)
    (userID workspaceID : Z) (gitURL gitUser gitToken : string) (w : git.World) :
  registry_inv (GitRepos fs) ->
  getGitRepo fs userID workspaceID = None ->
  DisableGitRepo
    (fst (fst (SetupGitRepo env fs userID workspaceID gitURL gitUser gitToken w)))
    userID workspaceID
  = fs.
Proof.
  intros Hinv Hget. rewrite SetupGitRepo_unfold. cbv zeta. cbn [fst snd].
  set (c := fst (fst (git.EnsureRepo _ _ _))). clearbody c.
  destruct fs as [root repos]. unfold getGitRepo in Hget. cbn [GitRepos RootDir] in *.
  unfold DisableGitRepo. cbn [GitRepos RootDir]. rewrite lookup_insert_eq.
  destruct (repos !! userID) as [userRepos|] eqn:E; cbn [default].
  - rewrite (delete_insert_id userRepos workspaceID c Hget).
    rewrite bool_decide_eq_false_2.
    + now rewrite !insert_insert_eq, (insert_id repos userID userRepos E).
    + intros Hs. apply map_size_empty_iff in Hs. now apply (Hinv userID userRepos).
  - rewrite delete_insert_id by apply lookup_empty.
    rewrite map_size_empty, bool_decide_eq_true_2 by reflexivity.
    now rewrite !insert_insert_eq, (delete_insert_id repos userID _ E).
Qed.

Lemma DisableGitRepo_SetupGitRepo_witness :
  DisableGitRepo
    (fst (fst (SetupGitRepo sample_git.online sample_registry.fs 7 13
                 sample_git.url "ann" "secret" sample_git.world))) 7 13
  = sample_registry.fs.
Proof.
  apply (DisableGitRepo_SetupGitRepo sample_git.online sample_registry.fs 7 13).
  - exact sample_registry_inv.
  - reflexivity.
Defined.

(** ** The git client: outcomes *)

Lemma Pull_clone_stays (env : git.Env) (c : git.client) (w w1 : git.World)
    (err : option error) (workDir : string) :
  git.Pull env c w = (w1, err) ->
  is_Some (git.clones w !! workDir) -> is_Some (git.clones w1 !! workDir).
Proof.
  intros H Hs. git_unfold. simpl in H. git_cases; inversion H; subst; simpl;
    try assumption.
  all: rewrite lookup_insert; destruct (decide _); eauto.
Qed.

(** After a successful [EnsureRepo] the handle is open on its working
    directory and the working directory holds a clone. *)
Lemma EnsureRepo_ok (env : git.Env) (c c1 : git.client) (w w1 : git.World) :
  git.EnsureRepo env c w = (c1, w1, None) ->
  git.config c1 = git.config c /\
  git.repo c1 = Some (git.WorkDir (git.config c)) /\
  is_Some (git.clones w1 !! git.WorkDir (git.config c)).
Proof.
  intros H. unfold git.EnsureRepo in H.
  destruct (git.clones w !! git.WorkDir (git.config c)) as [lr|] eqn:E.
  - unfold git.PlainOpen in H. cbv zeta in H.
    change (git.clones (git.record (git.OpPlainOpen (git.WorkDir (git.config c))) w))
      with (git.clones w) in H.
    rewrite E in H.
    destruct (env (git.OpPlainOpen _)); [discriminate|].
    destruct (git.Pull env _ _) as [w2 err] eqn:Hp. inversion H; subst.
    repeat split. apply (Pull_clone_stays _ _ _ _ _ _ Hp).
    change (is_Some (git.clones w !! git.WorkDir (git.config c))). rewrite E. eauto.
  - destruct (Clone_spec _ _ _ _ _ _ H) as (Hcfg & _ & Hok).
    destruct (Hok eq_refl) as [Hr Hs]. now repeat split.
Qed.

(** X3. After a successful [SetupGitRepo] the pair has a handle that
    carries the URL and the credential given, is open on the workspace
    path, and finds a clone there: the synchronisation calls that follow
    fail neither for a missing handle nor for a repository that is not
    initialised. *)
Theorem SetupGitRepo_success (env : git.Env) (fs fs' : FileSystem)
    (userID workspaceID : Z) (gitURL gitUser gitToken : string) (w w' : git.World) :
  SetupGitRepo env fs userID workspaceID gitURL gitUser gitToken w = (fs', w', None) ->
  exists c : git.client,
    getGitRepo fs' userID workspaceID = Some c /\
    git.config c
    = git.MkConfig gitURL gitUser gitToken (GetWorkspacePath fs userID workspaceID) "" "" /\
    git.repo c = Some (GetWorkspacePath fs userID workspaceID) /\
    is_Some (git.clones w' !! GetWorkspacePath fs userID workspaceID).
Proof.
  intros H. rewrite SetupGitRepo_unfold in H. cbv zeta in H.
  destruct (git.EnsureRepo env _ w) as [[c1 w1] err] eqn:He. cbn [fst snd] in H.
  inversion H; subst.
  destruct (EnsureRepo_ok _ _ _ _ _ He) as (Hcfg & Hrepo & Hclone).
  exists c1. repeat split; try assumption.
  unfold getGitRepo. cbn [GitRepos]. now rewrite !lookup_insert_eq.
Qed.

Lemma SetupGitRepo_success_witness :
  exists c : git.client,
    getGitRepo
      (fst (fst (SetupGitRepo sample_git.online sample.fs 7 12
                   sample_git.url "ann" "secret" sample_git.world))) 7 12
    = Some c /\
    git.config c = git.MkConfig sample_git.url "ann" "secret" "/data/7/12" "" "" /\
    git.repo c = Some "/data/7/12" /\
    is_Some (git.clones
               (snd (fst (SetupGitRepo sample_git.online sample.fs 7 12
                            sample_git.url "ann" "secret" sample_git.world)))
             !! "/data/7/12").
Proof.
  apply (SetupGitRepo_success sample_git.online sample.fs _ 7 12
           sample_git.url "ann" "secret" sample_git.world).
  rewrite SetupGitRepo_unfold. reflexivity.
Defined.

(** X4. When [SetupGitRepo] fails on a workspace path that holds no clone
    yet, the failure is that of the clone: the error returned wraps a
    library error as a failure to clone the repository, the one library
    call made is the clone into the workspace path, from the URL and with
    the credential given, and no remote has changed. *)
Theorem SetupGitRepo_failed_clone (env : git.Env) (fs fs' : FileSystem)
    (userID workspaceID : Z) (gitURL gitUser gitToken : string)
    (w w' : git.World) (e : error) :
  git.clones w !! GetWorkspacePath fs userID workspaceID = None ->
  SetupGitRepo env fs userID workspaceID gitURL gitUser gitToken w = (fs', w', Some e) ->
  (exists e0 : error, e = ErrWrap "failed to clone repository" e0) /\
  git.trace w'
  = (git.trace w ++ [git.OpPlainClone (GetWorkspacePath fs userID workspaceID) gitURL
                       (git.MkBasicAuth gitUser gitToken)])%list /\
  git.remotes w' = git.remotes w.
Proof.
  intros Hnone H. rewrite SetupGitRepo_unfold in H. cbv zeta in H.
  destruct (git.EnsureRepo env _ w) as [[c w1] err] eqn:He. cbn [fst snd] in H.
  inversion H; subst.
  unfold git.EnsureRepo in He.
  change (git.WorkDir (git.config (newGitRepo gitURL gitUser gitToken
                                     (GetWorkspacePath fs userID workspaceID))))
    with (GetWorkspacePath fs userID workspaceID) in He.
  rewrite Hnone in He. git_unfold. simpl in He. rewrite Hnone in He.
  git_cases; inversion He; subst; simpl; repeat split; eauto.
Qed.

Lemma SetupGitRepo_failed_clone_witness :
  (exists e0 : error,
      ErrWrap "failed to clone repository" (ErrLibrary "clone")
      = ErrWrap "failed to clone repository" e0) /\
  git.trace (snd (fst (SetupGitRepo sample_git.offline sample.fs 7 12
                         sample_git.url "ann" "secret" sample_git.world)))
  = (git.trace sample_git.world
       ++ [git.OpPlainClone (GetWorkspacePath sample.fs 7 12) sample_git.url
             (git.MkBasicAuth "ann" "secret")])%list /\
  git.remotes (snd (fst (SetupGitRepo sample_git.offline sample.fs 7 12
                           sample_git.url "ann" "secret" sample_git.world)))
  = git.remotes sample_git.world.
Proof.
  apply (SetupGitRepo_failed_clone sample_git.offline sample.fs
           (fst (fst (SetupGitRepo sample_git.offline sample.fs 7 12
                        sample_git.url "ann" "secret" sample_git.world)))
           7 12 sample_git.url "ann" "secret" sample_git.world).
  - reflexivity.
  - rewrite SetupGitRepo_unfold. reflexivity.
Defined.

(** X5. The up-to-date sentinel of the library never reaches the caller
    of [Pull] or [Push]: an error they return is the not-initialised error
    or a cause wrapped under one of the client's own messages, and that
    cause is not the sentinel. *)
Theorem Pull_Push_errors (env : git.Env) (c : git.client) (w : git.World) :
  (forall (w1 : git.World) (e : error),
      git.Pull env c w = (w1, Some e) ->
      surfaced ["failed to get worktree"; "failed to pull changes"] e) /\
  (forall (w1 : git.World) (e : error),
      git.Push env c w = (w1, Some e) ->
      surfaced ["failed to push changes"] e).
Proof.
  split; intros w1 e H.
  - unfold git.Pull in H. destruct (git.repo c) as [r|]; [|inversion H; now left].
    destruct (git.Worktree env r w) as [w2 [wt|e2]] eqn:Hw.
    + destruct (git.WorktreePull env wt (git.authOf c) w2) as [w3 [e3|]];
        [|discriminate].
      destruct (isAlreadyUpToDate e3) eqn:E; [discriminate|].
      inversion H; subst. right. exists "failed to pull changes", e3. simpl. tauto.
    + inversion H; subst. right.
      exists "failed to get worktree", e2. split; [reflexivity|]. split; [simpl; tauto|].
      unfold git.Worktree in Hw. cbv zeta in Hw.
      destruct (env (git.OpWorktree r)); inversion Hw; reflexivity.
  - unfold git.Push in H. destruct (git.repo c) as [r|]; [|inversion H; now left].
    destruct (git.RepositoryPush env r (git.authOf c) w) as [w2 [e2|]]; [|discriminate].
    destruct (isAlreadyUpToDate e2) eqn:E; [discriminate|].
    inversion H; subst. right. exists "failed to push changes", e2. simpl. tauto.
Qed.

Lemma Pull_Push_errors_witness :
  surfaced ["failed to get worktree"; "failed to pull changes"]
           (ErrWrap "failed to get worktree" (ErrLibrary "worktree")).
Proof.
  destruct (Pull_Push_errors sample_git.offline sample_sync.handle sample_sync.world)
    as [Hpull _].
  apply (Hpull (fst (git.Pull sample_git.offline sample_sync.handle sample_sync.world))).
  reflexivity.
Defined.

(** A [Push] that returns nil leaves the remote of the clone with the
    history of the clone, whether it had to send something or not. *)
Lemma Push_ok_remote (env : git.Env) (c : git.client) (r : git.Repository)
    (lr : git.LocalRepo) (w w1 : git.World) :
  git.repo c = Some r ->
  git.clones w !! r = Some lr ->
  git.Push env c w = (w1, None) ->
  git.remotes w1 !! git.Origin lr = Some (git.History lr) /\
  git.clones w1 = git.clones w.
Proof.
  intros Hr Hlr H. unfold git.Push in H. rewrite Hr in H.
  unfold git.RepositoryPush in H. cbv zeta in H.
  change (git.clones (git.record (git.OpPush r (git.authOf c)) w))
    with (git.clones w) in H.
  change (git.remotes (git.record (git.OpPush r (git.authOf c)) w))
    with (git.remotes w) in H.
  rewrite Hlr in H.
  destruct (env _); [discriminate|].
  destruct (git.remotes w !! git.Origin lr) as [h|] eqn:Eh; [|discriminate].
  destruct (bool_decide_reflect (h = git.History lr)) as [->|Hne].
  - inversion H; subst. now split.
  - destruct (bool_decide _); [|discriminate].
    inversion H; subst. simpl. split; [apply lookup_insert_eq | reflexivity].
Qed.

(** X6. When [StageCommitAndPush] returns nil, a commit with the message
    and the identity of the handle is on top of the local history, and the
    remote the clone tracks has exactly that history: nothing stays
    behind. *)
Theorem StageCommitAndPush_delivers (env : git.Env) (fs : FileSystem)
    (userID workspaceID : Z) (message : string) (w w2 : git.World) :
  StageCommitAndPush env fs userID workspaceID message w = (w2, None) ->
  exists (repo : git.client) (r : git.Repository) (lr : git.LocalRepo),
    getGitRepo fs userID workspaceID = Some repo /\
    git.repo repo = Some r /\
    git.clones w !! r = Some lr /\
    let history :=
      git.MkCommit message (git.CommitName (git.config repo))
                   (git.CommitEmail (git.config repo)) :: git.History lr in
    git.clones w2 !! r = Some (git.MkLocalRepo (git.Origin lr) history) /\
    git.remotes w2 !! git.Origin lr = Some history.
Proof.
  intros H. unfold StageCommitAndPush in H.
  destruct (getGitRepo fs userID workspaceID) as [repo|] eqn:Hget; [|discriminate].
  destruct (git.Commit env repo message w) as [w1 [h|e]] eqn:Hc; [|discriminate].
  destruct (Commit_ok _ _ _ _ _ _ Hc) as (r & lr & Hr & Hlr & -> & Hcl & _ & _).
  assert (Hlr1 : git.clones w1 !! r
                 = Some (git.MkLocalRepo (git.Origin lr)
                           (git.MkCommit message (git.CommitName (git.config repo))
                              (git.CommitEmail (git.config repo)) :: git.History lr))).
  { rewrite Hcl. apply lookup_insert_eq. }
  destruct (Push_ok_remote _ _ _ _ _ _ Hr Hlr1 H) as [Hrem Hcl2].
  exists repo, r, lr. cbv zeta. repeat split; try assumption.
  now rewrite Hcl2.
Qed.

Lemma StageCommitAndPush_delivers_witness :
  git.remotes
    (fst (StageCommitAndPush sample_git.online sample_sync.fs 7 12 "edit"
            sample_sync.world))
  !! sample_git.url
  = Some [git.MkCommit "edit" "Ann" "ann@example.org"; sample_git.initial].
Proof.
  destruct (StageCommitAndPush_delivers sample_git.online sample_sync.fs 7 12 "edit"
              sample_sync.world
              (fst (StageCommitAndPush sample_git.online sample_sync.fs 7 12 "edit"
                      sample_sync.world)))
    as (repo & r & lr & Hget & Hr & Hlr & _ & Hrem); [reflexivity|].
  change (getGitRepo sample_sync.fs 7 12) with (Some sample_sync.handle) in Hget.
  injection Hget as <-.
  change (git.repo sample_sync.handle) with (Some "/data/7/12") in Hr.
  injection Hr as <-.
  change (git.clones sample_sync.world !! "/data/7/12")
    with (Some (git.MkLocalRepo sample_git.url [sample_git.initial])) in Hlr.
  injection Hlr as <-.
  exact Hrem.
Defined.

(** ** Files: deleting, overwriting, and what stays untouched *)

Lemma find_set_other (x y : string) (c : os.node) (entries : list (string * os.node)) :
  x <> y -> os.find y (os.set x c entries) = os.find y entries.
Proof.
  intros Hne. induction entries as [|[z c0] rest IH]; simpl.
  - destruct (String.eqb y x) eqn:E; [|reflexivity].
    apply String.eqb_eq in E. congruence.
  - destruct (String.eqb x z) eqn:Exz; simpl.
    + apply String.eqb_eq in Exz. subst z.
      destruct (String.eqb y x) eqn:E; [|reflexivity].
      apply String.eqb_eq in E. congruence.
    + now rewrite IH.
Qed.

Lemma set_find_id (x : string) (c : os.node) (entries : list (string * os.node)) :
  os.find x entries = Some c -> os.set x c entries = entries.
Proof.
  induction entries as [|[z c0] rest IH]; simpl; [discriminate|].
  destruct (String.eqb x z) eqn:E.
  - apply String.eqb_eq in E. subst z. now intros [= ->].
  - intros H. now rewrite (IH H).
Qed.

Lemma find_unset (x : string) (entries : list (string * os.node)) :
  os.find x (os.unset x entries) = None.
Proof.
  induction entries as [|[z c0] rest IH]; simpl; [reflexivity|].
  destruct (String.eqb x z) eqn:E; simpl; [exact IH | now rewrite E].
Qed.

Lemma find_unset_other (x y : string) (entries : list (string * os.node)) :
  x <> y -> os.find y (os.unset x entries) = os.find y entries.
Proof.
  intros Hne. induction entries as [|[z c0] rest IH]; simpl; [reflexivity|].
  destruct (String.eqb x z) eqn:E; simpl.
  - apply String.eqb_eq in E. subst z.
    destruct (String.eqb y x) eqn:E'; [|exact IH].
    apply String.eqb_eq in E'. congruence.
  - now rewrite IH.
Qed.

Lemma unset_absent (x : string) (entries : list (string * os.node)) :
  os.find x entries = None -> os.unset x entries = entries.
Proof.
  induction entries as [|[z c0] rest IH]; simpl; [reflexivity|].
  destruct (String.eqb x z) eqn:E; [discriminate|].
  intros H. simpl. now rewrite (IH H).
Qed.

Lemma lookup_cons (x : string) (rest : list string) (r : bool)
    (entries : list (string * os.node)) :
  os.lookup (x :: rest) (os.Dir r entries)
  = match os.find x entries with
    | Some c => os.lookup rest c
    | None => Err ErrNotExist
    end.
Proof. reflexivity. Qed.

(** What was removed is not there. *)
Lemma remove_lookup (elems : list string) :
  forall n n' : os.node,
    os.remove elems n = Ok n' -> os.lookup elems n' = Err ErrNotExist.
Proof.
  induction elems as [|x rest IH]; intros n n' H.
  - destruct n; simpl in H; discriminate.
  - destruct n as [|r entries]; simpl in H; [discriminate|].
    destruct rest as [|y rest'].
    + destruct (os.find x entries) as [[|r0 [|e0 l0]]|]; inversion H; subst;
        now rewrite lookup_cons, find_unset.
    + destruct (os.find x entries) as [c|]; [|discriminate].
      destruct (os.remove (y :: rest') c) as [c'|e] eqn:Hr; [|discriminate].
      inversion H; subst. rewrite lookup_cons, find_set. now apply (IH c).
Qed.

(** A regular file below a directory can be removed. *)
Lemma remove_file (elems : list string) :
  forall (r : bool) (entries : list (string * os.node)) (content : list byte),
    os.lookup elems (os.Dir r entries) = Ok (os.File content) ->
    exists n', os.remove elems (os.Dir r entries) = Ok n'.
Proof.
  induction elems as [|x rest IH]; intros r entries content H; [discriminate|].
  rewrite lookup_cons in H. cbn [os.remove].
  destruct (os.find x entries) as [c|]; [|discriminate].
  destruct rest as [|y rest'].
  - simpl in H. inversion H; subst. eauto.
  - destruct c as [|r0 es0]; [discriminate|].
    destruct (IH r0 es0 content H) as (c' & ->). eauto.
Qed.

(** What cannot be found for lack of an entry cannot be removed, for the
    same reason. *)
Lemma remove_missing (elems : list string) :
  forall (r : bool) (entries : list (string * os.node)),
    os.lookup elems (os.Dir r entries) = Err ErrNotExist ->
    os.remove elems (os.Dir r entries) = Err ErrNotExist.
Proof.
  induction elems as [|x rest IH]; intros r entries H; [discriminate|].
  rewrite lookup_cons in H. cbn [os.remove].
  destruct (os.find x entries) as [c|]; [|now destruct rest].
  destruct rest as [|y rest']; [discriminate|].
  destruct c as [|r0 es0]; [discriminate|].
  now rewrite (IH r0 es0 H).
Qed.

Lemma writeFile_root_dir (elems : list string) (content : list byte) (n n' : os.node) :
  os.writeFile elems content n = Ok n' ->
  exists r entries, n' = os.Dir r entries.
Proof.
  intros H. destruct n as [|r entries]; [destruct elems; discriminate|].
  destruct elems as [|x rest]; simpl in H; [discriminate|].
  destruct rest as [|y rest'].
  - destruct (os.find x entries) as [[|]|]; inversion H; eauto.
  - destruct (os.find x entries) as [c|]; [|discriminate].
    destruct (os.writeFile (y :: rest') content c); inversion H; eauto.
Qed.

(** X7. What [SaveFile] saved can be deleted, and is then gone: after a
    successful [SaveFile], [DeleteFile] of the same path succeeds and
    [GetFileContent] of it fails with the not-exist error. *)
Theorem SaveFile_DeleteFile (fs : FileSystem) (disk disk1 : os.node)
    (userID workspaceID : Z) (filePath : string) (content : list byte) :
  SaveFile fs disk userID workspaceID filePath content = (disk1, None) ->
  exists disk2 : os.node,
    DeleteFile fs disk1 userID workspaceID filePath = (disk2, None) /\
    GetFileContent fs disk2 userID workspaceID filePath = Err ErrNotExist.
Proof.
  unfold SaveFile, DeleteFile, GetFileContent. intros H.
  destruct (ValidatePath fs userID workspaceID filePath) as [fullPath|e];
    [|inversion H].
  destruct (os.MkdirAll disk (filepath.Dir fullPath)) as [disk0 [e|]];
    [inversion H|].
  unfold os.WriteFile in H.
  destruct (os.writeFile (os.resolve fullPath) content disk0) as [d|e] eqn:Hw;
    inversion H; subst.
  pose proof (writeFile_lookup _ _ _ _ Hw) as Hl.
  destruct (writeFile_root_dir _ _ _ _ Hw) as (r & entries & ->).
  destruct (remove_file _ _ _ _ Hl) as (disk2 & Hr).
  exists disk2. unfold os.Remove, os.ReadFile. rewrite Hr. split; [reflexivity|].
  now rewrite (remove_lookup _ _ _ Hr).
Qed.

Lemma SaveFile_DeleteFile_witness :
  exists disk2 : os.node,
    DeleteFile sample.fs
      (fst (SaveFile sample.fs sample.disk 7 12 "new/dir/f.bin" [xff; x00]))
      7 12 "new/dir/f.bin" = (disk2, None) /\
    GetFileContent sample.fs disk2 7 12 "new/dir/f.bin" = Err ErrNotExist.
Proof.
  apply (SaveFile_DeleteFile sample.fs sample.disk _ 7 12 "new/dir/f.bin" [xff; x00]).
  vm_compute. reflexivity.
Defined.

(** X8. [DeleteFile] of a path that [GetFileContent] cannot read because
    it does not exist fails with the not-exist error and leaves the file
    system as it is; and whenever [DeleteFile] succeeds, the path is gone
    for [GetFileContent]. *)
Theorem DeleteFile_missing_and_gone (fs : FileSystem) (disk : os.node)
    (userID workspaceID : Z) (filePath : string) :
  (os.isDir disk = true ->
   GetFileContent fs disk userID workspaceID filePath = Err ErrNotExist ->
   DeleteFile fs disk userID workspaceID filePath = (disk, Some ErrNotExist)) /\
  (forall disk' : os.node,
      DeleteFile fs disk userID workspaceID filePath = (disk', None) ->
      GetFileContent fs disk' userID workspaceID filePath = Err ErrNotExist).
Proof.
  unfold DeleteFile, GetFileContent, os.Remove, os.ReadFile. split.
  - intros Hdir H.
    destruct (ValidatePath fs userID workspaceID filePath) as [fullPath|e];
      [|now inversion H].
    destruct disk as [|r entries]; [discriminate|].
    destruct (os.lookup (os.resolve fullPath) (os.Dir r entries)) as [[|]|e] eqn:Hl;
      try discriminate.
    inversion H; subst. now rewrite (remove_missing _ _ _ Hl).
  - intros disk' H.
    destruct (ValidatePath fs userID workspaceID filePath) as [fullPath|e];
      [|discriminate].
    destruct (os.remove (os.resolve fullPath) disk) as [d|e] eqn:Hr; inversion H; subst.
    now rewrite (remove_lookup _ _ _ Hr).
Qed.

Lemma DeleteFile_missing_and_gone_witness :
  DeleteFile sample.fs sample.disk 7 12 "notes/none.md" = (sample.disk, Some ErrNotExist) /\
  GetFileContent sample.fs (fst (DeleteFile sample.fs sample.disk 7 12 "notes/A.md"))
                 7 12 "notes/A.md" = Err ErrNotExist.
Proof.
  destruct (DeleteFile_missing_and_gone sample.fs sample.disk 7 12 "notes/none.md")
    as [Hmissing _].
  destruct (DeleteFile_missing_and_gone sample.fs sample.disk 7 12 "notes/A.md")
    as [_ Hgone].
  split.
  - apply Hmissing; reflexivity.
  - apply Hgone. vm_compute. reflexivity.
Defined.

Example DeleteFile_directories :
  (* a directory with entries is not removed, an empty one is *)
  snd (DeleteFile sample.fs sample.disk 7 12 "notes")
  = Some (ErrLibrary "directory not empty") /\
  snd (DeleteFile sample.fs sample.disk 7 12 "Zed") = None /\
  snd (DeleteFile sample.fs sample.disk 7 12 "../13/x") = Some ErrOutsideWorkspace.
Proof. repeat split; vm_compute; reflexivity. Qed.

(** ** Directories: creating the workspace *)

(** [mkdirAll] keeps what exists: an object stays where it is and of the
    same kind, and a regular file stays the same. *)
Lemma mkdirAll_keeps (elems : list string) :
  forall (n n' : os.node) (p : list string) (m : os.node),
    os.mkdirAll elems n = Ok n' ->
    os.lookup p n = Ok m ->
    exists m', os.lookup p n' = Ok m' /\ os.isDir m' = os.isDir m /\
               (os.isDir m = false -> m' = m).
Proof.
  induction elems as [|x rest IH]; intros n n' p m H Hl.
  - destruct n; simpl in H; inversion H; subst; eauto.
  - destruct n as [|r entries]; simpl in H; [discriminate|].
    destruct (os.mkdirAll rest match os.find x entries with
                               | Some c => c
                               | None => os.Dir true []
                               end) as [c'|e] eqn:Hm; inversion H; subst.
    destruct p as [|y p'].
    + simpl in Hl. inversion Hl; subst. eexists; split; [reflexivity|].
      split; [reflexivity | discriminate].
    + rewrite lookup_cons in Hl. rewrite lookup_cons.
      destruct (decide (x = y)) as [->|Hne].
      * rewrite find_set.
        destruct (os.find y entries) as [d|]; [|discriminate].
        exact (IH _ _ _ _ Hm Hl).
      * rewrite (find_set_other _ _ _ _ Hne).
        destruct (os.find y entries) as [d|]; [|discriminate]. eauto.
Qed.

(** What [mkdirAll] names is a directory afterwards. *)
Lemma mkdirAll_dir (elems : list string) :
  forall n n' : os.node,
    os.mkdirAll elems n = Ok n' ->
    exists r entries, os.lookup elems n' = Ok (os.Dir r entries).
Proof.
  induction elems as [|x rest IH]; intros n n' H.
  - destruct n; simpl in H; inversion H; subst. simpl. eauto.
  - destruct n as [|r entries]; simpl in H; [discriminate|].
    destruct (os.mkdirAll rest match os.find x entries with
                               | Some c => c
                               | None => os.Dir true []
                               end) as [c'|e] eqn:Hm; inversion H; subst.
    rewrite lookup_cons, find_set. exact (IH _ _ Hm).
Qed.

(** What is a directory already is left alone. *)
Lemma mkdirAll_existing (elems : list string) :
  forall (n : os.node) (r : bool) (entries : list (string * os.node)),
    os.lookup elems n = Ok (os.Dir r entries) -> os.mkdirAll elems n = Ok n.
Proof.
  induction elems as [|x rest IH]; intros n r entries H.
  - simpl in H. inversion H; subst. reflexivity.
  - destruct n as [|r0 es0]; [discriminate|].
    rewrite lookup_cons in H. simpl.
    destruct (os.find x es0) as [d|] eqn:Hf; [|discriminate].
    rewrite (IH _ _ _ H). now rewrite (set_find_id _ _ _ Hf).
Qed.

Lemma mkdirAll_idem (elems : list string) (n n' : os.node) :
  os.mkdirAll elems n = Ok n' -> os.mkdirAll elems n' = Ok n'.
Proof.
  intros H. destruct (mkdirAll_dir _ _ _ H) as (r & entries & Hl).
  exact (mkdirAll_existing _ _ _ _ Hl).
Qed.

(** [mkdirAll] fails only at a regular file on the way. *)
Lemma mkdirAll_blocked (pre post : list string) :
  forall (n : os.node) (content : list byte),
    os.lookup pre n = Ok (os.File content) ->
    os.mkdirAll (pre ++ post) n = Err ErrNotDir.
Proof.
  induction pre as [|x pre IH]; intros n content H.
  - simpl in H. inversion H; subst. now destruct post.
  - destruct n as [|r entries]; [discriminate|]. rewrite lookup_cons in H.
    destruct (os.find x entries) as [c|] eqn:Hf; [|discriminate].
    simpl. now rewrite Hf, (IH _ _ H).
Qed.

(** X9. A successful [InitializeUserWorkspace] leaves a directory at the
    workspace path, destroys nothing (whatever existed still exists and is
    of the same kind, and every file reads as before), and doing it again
    changes nothing. *)
Theorem InitializeUserWorkspace_creates (fs : FileSystem) (disk disk' : os.node)
    (userID workspaceID : Z) :
  InitializeUserWorkspace fs disk userID workspaceID = (disk', None) ->
  (exists r entries,
      os.Stat disk' (GetWorkspacePath fs userID workspaceID) = Ok (os.Dir r entries)) /\
  (forall (path : string) (m : os.node),
      os.Stat disk path = Ok m ->
      exists m', os.Stat disk' path = Ok m' /\ os.isDir m' = os.isDir m) /\
  (forall (path : string) (content : list byte),
      os.ReadFile disk path = Ok content -> os.ReadFile disk' path = Ok content) /\
  InitializeUserWorkspace fs disk' userID workspaceID = (disk', None).
Proof.
  unfold InitializeUserWorkspace, os.MkdirAll, os.Stat, os.ReadFile. cbv zeta.
  intros H.
  destruct (os.mkdirAll (os.resolve (GetWorkspacePath fs userID workspaceID)) disk)
    as [d|e] eqn:Hm; inversion H; subst.
  split; [exact (mkdirAll_dir _ _ _ Hm)|].
  split; [|split].
  - intros path m Hl.
    destruct (mkdirAll_keeps _ _ _ _ _ Hm Hl) as (m' & Hl' & Hk & _). eauto.
  - intros path content Hr.
    destruct (os.lookup (os.resolve path) disk) as [[c|]|] eqn:Hl; inversion Hr; subst.
    destruct (mkdirAll_keeps _ _ _ _ _ Hm Hl) as (m' & -> & _ & Hsame).
    now rewrite (Hsame eq_refl).
  - now rewrite (mkdirAll_idem _ _ _ Hm).
Qed.

Lemma InitializeUserWorkspace_creates_witness :
  (exists r entries,
      os.Stat (fst (InitializeUserWorkspace sample.fs sample.disk 7 13))
              (GetWorkspacePath sample.fs 7 13) = Ok (os.Dir r entries)) /\
  os.Stat sample.disk (GetWorkspacePath sample.fs 7 13) = Err ErrNotExist.
Proof.
  split.
  - apply (InitializeUserWorkspace_creates sample.fs sample.disk _ 7 13).
    vm_compute. reflexivity.
  - vm_compute. reflexivity.
Defined.

(** X10. A regular file in the way of the workspace path, at the path
    itself or at one of the directories that lead to it, makes
    [InitializeUserWorkspace] fail: the error is the wrapped
    not-a-directory error, and nothing has been created. *)
Theorem InitializeUserWorkspace_blocked (fs : FileSystem) (disk : os.node)
    (userID workspaceID : Z) (pre post : list string) (content : list byte) :
  os.resolve (GetWorkspacePath fs userID workspaceID) = (pre ++ post)%list ->
  os.lookup pre disk = Ok (os.File content) ->
  InitializeUserWorkspace fs disk userID workspaceID
  = (disk, Some (ErrWrap "failed to create workspace directory" ErrNotDir)).
Proof.
  intros Hres Hfile. unfold InitializeUserWorkspace, os.MkdirAll. cbv zeta.
  now rewrite Hres, (mkdirAll_blocked pre post disk content Hfile).
Qed.

Lemma InitializeUserWorkspace_blocked_witness :
  InitializeUserWorkspace sample.fs (os.Dir true [("data", os.File [])]) 7 12
  = (os.Dir true [("data", os.File [])],
     Some (ErrWrap "failed to create workspace directory" ErrNotDir)).
Proof.
  exact (InitializeUserWorkspace_blocked sample.fs (os.Dir true [("data", os.File [])])
           7 12 ["data"] ["7"; "12"] [] eq_refl eq_refl).
Defined.

(** ** Files: what a write and a removal leave alone *)

Lemma lookup_below_file (p : list string) (content c : list byte) :
  os.lookup p (os.File content) = Ok (os.File c) -> p = [].
Proof. destruct p; [reflexivity | discriminate]. Qed.

(** [writeFile] changes the file it names and no other file. *)
Lemma writeFile_frame (elems : list string) (content : list byte) :
  forall (n n' : os.node) (p : list string) (c : list byte),
    os.writeFile elems content n = Ok n' ->
    p <> elems ->
    os.lookup p n = Ok (os.File c) -> os.lookup p n' = Ok (os.File c).
Proof.
  induction elems as [|x rest IH]; intros n n' p c H Hne Hl.
  - destruct n; simpl in H; discriminate.
  - destruct n as [|r entries]; simpl in H; [discriminate|].
    destruct p as [|y p']; [discriminate|].
    rewrite lookup_cons in Hl.
    destruct (os.find y entries) as [d|] eqn:Hy; [|discriminate].
    destruct rest as [|z rest'].
    + assert (n' = os.Dir r (os.set x (os.File content) entries) /\
              forall r0 es0, os.find x entries <> Some (os.Dir r0 es0)) as [-> Hnd].
      { destruct (os.find x entries) as [[|]|]; inversion H; subst;
          (split; [reflexivity | congruence]). }
      rewrite lookup_cons.
      destruct (decide (x = y)) as [->|Hxy].
      * rewrite Hy in Hnd. destruct d as [c0|r0 es0]; [|now destruct (Hnd r0 es0)].
        apply lookup_below_file in Hl. congruence.
      * now rewrite (find_set_other _ _ _ _ Hxy), Hy.
    + destruct (os.find x entries) as [c0|] eqn:Hx; [|discriminate].
      destruct (os.writeFile (z :: rest') content c0) as [c'|e] eqn:Hw; inversion H; subst.
      rewrite lookup_cons.
      destruct (decide (x = y)) as [->|Hxy].
      * rewrite find_set. rewrite Hy in Hx. inversion Hx; subst.
        apply (IH _ _ _ _ Hw); [congruence | exact Hl].
      * now rewrite (find_set_other _ _ _ _ Hxy), Hy.
Qed.

(** [writeFile] keeps the directories. *)
Lemma writeFile_keeps_dirs (elems : list string) (content : list byte) :
  forall (n n' : os.node) (p : list string) (r : bool) (es : list (string * os.node)),
    os.writeFile elems content n = Ok n' ->
    os.lookup p n = Ok (os.Dir r es) ->
    exists r' es', os.lookup p n' = Ok (os.Dir r' es').
Proof.
  induction elems as [|x rest IH]; intros n n' p r es H Hl.
  - destruct n; simpl in H; discriminate.
  - destruct (writeFile_root_dir _ _ _ _ H) as (r1 & es1 & ->).
    destruct p as [|y p']; [simpl; eauto|].
    destruct n as [|r0 entries]; simpl in H; [discriminate|].
    inversion H as [H']. clear H'.
    rewrite lookup_cons in Hl.
    destruct (os.find y entries) as [d|] eqn:Hy; [|discriminate].
    destruct rest as [|z rest'].
    + assert (os.Dir r1 es1 = os.Dir r0 (os.set x (os.File content) entries) /\
              forall r2 es2, os.find x entries <> Some (os.Dir r2 es2)) as [-> Hnd].
      { destruct (os.find x entries) as [[|]|]; inversion H; subst;
          (split; [reflexivity | congruence]). }
      rewrite lookup_cons.
      destruct (decide (x = y)) as [->|Hxy].
      * rewrite Hy in Hnd. destruct d as [c0|r2 es2]; [|now destruct (Hnd r2 es2)].
        destruct p'; discriminate.
      * rewrite (find_set_other _ _ _ _ Hxy), Hy. eauto.
    + destruct (os.find x entries) as [c0|] eqn:Hx; [|discriminate].
      destruct (os.writeFile (z :: rest') content c0) as [c'|e] eqn:Hw; inversion H; subst.
      rewrite lookup_cons.
      destruct (decide (x = y)) as [->|Hxy].
      * rewrite find_set. rewrite Hy in Hx. inversion Hx; subst.
        exact (IH _ _ _ _ _ Hw Hl).
      * rewrite (find_set_other _ _ _ _ Hxy), Hy. eauto.
Qed.

(** An existing regular file can be written again. *)
Lemma writeFile_over (elems : list string) (content : list byte) :
  forall (r : bool) (entries : list (string * os.node)) (c : list byte),
    os.lookup elems (os.Dir r entries) = Ok (os.File c) ->
    exists n', os.writeFile elems content (os.Dir r entries) = Ok n'.
Proof.
  induction elems as [|x rest IH]; intros r entries c H; [discriminate|].
  rewrite lookup_cons in H. cbn [os.writeFile].
  destruct (os.find x entries) as [d|]; [|discriminate].
  destruct rest as [|y rest'].
  - simpl in H. inversion H; subst. eauto.
  - destruct d as [|r0 es0]; [discriminate|].
    destruct (IH r0 es0 c H) as (c' & ->). eauto.
Qed.

(** [remove] takes away what it names and no other file. *)
Lemma remove_frame (elems : list string) :
  forall (n n' : os.node) (p : list string) (c : list byte),
    os.remove elems n = Ok n' ->
    p <> elems ->
    os.lookup p n = Ok (os.File c) -> os.lookup p n' = Ok (os.File c).
Proof.
  induction elems as [|x rest IH]; intros n n' p c H Hne Hl.
  - destruct n; simpl in H; discriminate.
  - destruct n as [|r entries]; simpl in H; [discriminate|].
    destruct p as [|y p']; [discriminate|].
    rewrite lookup_cons in Hl.
    destruct (os.find y entries) as [d|] eqn:Hy; [|discriminate].
    destruct rest as [|z rest'].
    + assert (n' = os.Dir r (os.unset x entries) /\
              forall r0 e0 es0, os.find x entries <> Some (os.Dir r0 (e0 :: es0)))
        as [-> Hnd].
      { destruct (os.find x entries) as [[|r0 [|e0 es0]]|]; inversion H; subst;
          (split; [reflexivity | congruence]). }
      rewrite lookup_cons.
      destruct (decide (x = y)) as [->|Hxy].
      * rewrite Hy in Hnd. destruct d as [c0|r0 [|e0 es0]].
        -- apply lookup_below_file in Hl. congruence.
        -- destruct p'; discriminate.
        -- now destruct (Hnd r0 e0 es0).
      * now rewrite (find_unset_other _ _ _ Hxy), Hy.
    + destruct (os.find x entries) as [c0|] eqn:Hx; [|discriminate].
      destruct (os.remove (z :: rest') c0) as [c'|e] eqn:Hw; inversion H; subst.
      rewrite lookup_cons.
      destruct (decide (x = y)) as [->|Hxy].
      * rewrite find_set. rewrite Hy in Hx. inversion Hx; subst.
        apply (IH _ _ _ _ Hw); [congruence | exact Hl].
      * now rewrite (find_set_other _ _ _ _ Hxy), Hy.
Qed.

Lemma ReadFile_lookup (disk : os.node) (path : string) (content : list byte) :
  os.ReadFile disk path = Ok content <->
  os.lookup (os.resolve path) disk = Ok (os.File content).
Proof.
  unfold os.ReadFile.
  destruct (os.lookup (os.resolve path) disk) as [[c|]|]; split; congruence.
Qed.

(** X11. A successful [SaveFile] changes no file but the one it writes:
    every file at a path that does not lead to the written file reads
    afterwards as it did before, although the directories on the way may
    have been created. *)
Theorem SaveFile_frame (fs : FileSystem) (disk disk' : os.node)
    (userID workspaceID : Z) (filePath : string) (content : list byte) :
  SaveFile fs disk userID workspaceID filePath content = (disk', None) ->
  exists fullPath : string,
    ValidatePath fs userID workspaceID filePath = Ok fullPath /\
    forall (other : string) (c : list byte),
      os.resolve other <> os.resolve fullPath ->
      os.ReadFile disk other = Ok c -> os.ReadFile disk' other = Ok c.
Proof.
  unfold SaveFile, os.MkdirAll, os.WriteFile. cbv zeta. intros H.
  destruct (ValidatePath fs userID workspaceID filePath) as [fullPath|e];
    [|inversion H].
  exists fullPath. split; [reflexivity|].
  destruct (os.mkdirAll (os.resolve (filepath.Dir fullPath)) disk) as [d0|e] eqn:Hm;
    [|inversion H].
  destruct (os.writeFile (os.resolve fullPath) content d0) as [d1|e] eqn:Hw;
    inversion H; subst.
  intros other c Hne Hr. apply ReadFile_lookup in Hr. apply ReadFile_lookup.
  destruct (mkdirAll_keeps _ _ _ _ _ Hm Hr) as (m' & Hl & _ & Hsame).
  rewrite (Hsame eq_refl) in Hl.
  exact (writeFile_frame _ _ _ _ _ _ Hw Hne Hl).
Qed.

Lemma SaveFile_frame_witness :
  os.ReadFile (fst (SaveFile sample.fs sample.disk 7 12 "notes/new.md" [x01]))
              "/data/7/12/notes/A.md" = Ok [x68; x69].
Proof.
  destruct (SaveFile_frame sample.fs sample.disk
              (fst (SaveFile sample.fs sample.disk 7 12 "notes/new.md" [x01]))
              7 12 "notes/new.md" [x01]) as (fullPath & Hv & Hframe);
    [vm_compute; reflexivity|].
  change (ValidatePath sample.fs 7 12 "notes/new.md")
    with (@Ok string "/data/7/12/notes/new.md") in Hv.
  injection Hv as <-.
  apply Hframe; [vm_compute; discriminate | vm_compute; reflexivity].
Defined.

(** X12. A successful [DeleteFile] removes nothing but what it names:
    every file at a path that does not lead to the deleted object reads
    afterwards as it did before. *)
Theorem DeleteFile_frame (fs : FileSystem) (disk disk' : os.node)
    (userID workspaceID : Z) (filePath : string) :
  DeleteFile fs disk userID workspaceID filePath = (disk', None) ->
  exists fullPath : string,
    ValidatePath fs userID workspaceID filePath = Ok fullPath /\
    forall (other : string) (c : list byte),
      os.resolve other <> os.resolve fullPath ->
      os.ReadFile disk other = Ok c -> os.ReadFile disk' other = Ok c.
Proof.
  unfold DeleteFile, os.Remove. intros H.
  destruct (ValidatePath fs userID workspaceID filePath) as [fullPath|e];
    [|inversion H].
  exists fullPath. split; [reflexivity|].
  destruct (os.remove (os.resolve fullPath) disk) as [d1|e] eqn:Hw; inversion H; subst.
  intros other c Hne Hr. apply ReadFile_lookup in Hr. apply ReadFile_lookup.
  exact (remove_frame _ _ _ _ _ Hw Hne Hr).
Qed.

Lemma DeleteFile_frame_witness :
  os.ReadFile (fst (DeleteFile sample.fs sample.disk 7 12 "notes/A.md"))
              "/data/7/12/NOTES/a.MD" = Ok [x00].
Proof.
  destruct (DeleteFile_frame sample.fs sample.disk
              (fst (DeleteFile sample.fs sample.disk 7 12 "notes/A.md"))
              7 12 "notes/A.md") as (fullPath & Hv & Hframe);
    [vm_compute; reflexivity|].
  change (ValidatePath sample.fs 7 12 "notes/A.md")
    with (@Ok string "/data/7/12/notes/A.md") in Hv.
  injection Hv as <-.
  apply Hframe; [vm_compute; discriminate | vm_compute; reflexivity].
Defined.

(** X13. A saved file can be saved again, and the last content wins:
    after a successful [SaveFile], a second [SaveFile] of the same path
    succeeds whatever it writes, and [GetFileContent] then returns the
    second content. *)
Theorem SaveFile_overwrite (fs : FileSystem) (disk disk1 : os.node)
    (userID workspaceID : Z) (filePath : string) (first second : list byte) :
  SaveFile fs disk userID workspaceID filePath first = (disk1, None) ->
  exists disk2 : os.node,
    SaveFile fs disk1 userID workspaceID filePath second = (disk2, None) /\
    GetFileContent fs disk2 userID workspaceID filePath = Ok second.
Proof.
  unfold SaveFile, GetFileContent, os.MkdirAll, os.WriteFile, os.ReadFile. cbv zeta.
  intros H.
  destruct (ValidatePath fs userID workspaceID filePath) as [fullPath|e];
    [|inversion H].
  destruct (os.mkdirAll (os.resolve (filepath.Dir fullPath)) disk) as [d0|e] eqn:Hm;
    [|inversion H].
  destruct (os.writeFile (os.resolve fullPath) first d0) as [d1|e] eqn:Hw;
    inversion H; subst.
  destruct (mkdirAll_dir _ _ _ Hm) as (r & es & Hd).
  destruct (writeFile_keeps_dirs _ _ _ _ _ _ _ Hw Hd) as (r' & es' & Hd').
  rewrite (mkdirAll_existing _ _ _ _ Hd').
  pose proof (writeFile_lookup _ _ _ _ Hw) as Hl.
  destruct (writeFile_root_dir _ _ _ _ Hw) as (r1 & es1 & ->).
  destruct (writeFile_over _ second _ _ _ Hl) as (disk2 & Hw2).
  exists disk2. rewrite Hw2. split; [reflexivity|].
  now rewrite (writeFile_lookup _ _ _ _ Hw2).
Qed.

Lemma SaveFile_overwrite_witness :
  exists disk2 : os.node,
    SaveFile sample.fs (fst (SaveFile sample.fs sample.disk 7 12 "deep/er/f" [x01]))
             7 12 "deep/er/f" [x02; x03] = (disk2, None) /\
    GetFileContent sample.fs disk2 7 12 "deep/er/f" = Ok [x02; x03].
Proof.
  apply (SaveFile_overwrite sample.fs sample.disk _ 7 12 "deep/er/f" [x01]).
  vm_compute. reflexivity.
Defined.

(** ** Workspaces: deleting, and starting afresh *)

Lemma last_snoc {A : Type} (l : list A) (x d : A) : List.last (l ++ [x]) d = x.
Proof. induction l as [|y [|z l] IH]; [reflexivity | reflexivity | exact IH]. Qed.

(** The last element of the workspace path, as [os.RemoveAll] looks at
    it, is the decimal workspace identifier. *)
Lemma GetWorkspacePath_last (fs : FileSystem) (userID workspaceID : Z) :
  List.last (filepath.splitSlash (GetWorkspacePath fs userID workspaceID)) ""
  = fmt.Sprintf_d workspaceID.
Proof.
  destruct (GetWorkspacePath_clean fs userID workspaceID) as (rooted & stack & Hok & ->).
  pose proof (stackOK_plain _ _ Hok) as Hpl.
  assert (Hsplit : filepath.splitSlash
                     (filepath.joinSlash (rev (fmt.Sprintf_d workspaceID :: stack)))
                   = rev (fmt.Sprintf_d workspaceID :: stack)).
  { apply splitSlash_joinSlash; [|now apply plain_elems_slashFree].
    simpl. now destruct (rev stack). }
  destruct rooted; unfold render.
  - change ("/" ++ filepath.joinSlash (rev (fmt.Sprintf_d workspaceID :: stack)))
      with ("" ++ "/" ++ filepath.joinSlash (rev (fmt.Sprintf_d workspaceID :: stack))).
    rewrite splitSlash_app, Hsplit. simpl rev.
    rewrite app_assoc. apply last_snoc.
  - destruct (rev (fmt.Sprintf_d workspaceID :: stack)) eqn:E.
    + simpl in E. now destruct (rev stack).
    + rewrite Hsplit. simpl in E. rewrite <- E. apply last_snoc.
Qed.

(** [os.RemoveAll] of a workspace path is the removal of what its
    elements name. *)
Lemma RemoveAll_workspace (fs : FileSystem) (disk : os.node) (userID workspaceID : Z) :
  os.RemoveAll disk (GetWorkspacePath fs userID workspaceID)
  = os.removeAll (os.resolve (GetWorkspacePath fs userID workspaceID)) disk.
Proof.
  unfold os.RemoveAll. rewrite GetWorkspacePath_last.
  destruct (GetWorkspacePath_clean fs userID workspaceID) as (rooted & stack & Hok & Hws).
  rewrite Hws at 1. rewrite (render_nonempty _ _ (stackOK_plain _ _ Hok)).
  destruct (Sprintf_d_decimal workspaceID) as [Hwc Hw].
  destruct (decimal_validName _ Hwc Hw) as [Hvalid _].
  unfold validName, plain in Hvalid.
  destruct (String.eqb (fmt.Sprintf_d workspaceID) ".");
    [now rewrite andb_false_r in Hvalid | reflexivity].
Qed.

(** What [removeAll] removed without error is not there. *)
Lemma removeAll_lookup (elems : list string) :
  forall n n' : os.node,
    os.removeAll elems n = (n', None) -> os.lookup elems n' = Err ErrNotExist.
Proof.
  induction elems as [|x rest IH]; intros n n' H.
  - destruct n; simpl in H; discriminate.
  - destruct n as [|r entries]; simpl in H; [discriminate|].
    destruct rest as [|y rest'].
    + destruct (os.find x entries) as [c|] eqn:Hf.
      * destruct (os.purge c); inversion H; subst.
        now rewrite lookup_cons, find_unset.
      * inversion H; subst. now rewrite lookup_cons, Hf.
    + destruct (os.find x entries) as [c|] eqn:Hf.
      * destruct (os.removeAll (y :: rest') c) as [c' err] eqn:Hr; inversion H; subst.
        rewrite lookup_cons, find_set. exact (IH _ _ Hr).
      * inversion H; subst. now rewrite lookup_cons, Hf.
Qed.

(** Where nothing is, [removeAll] changes nothing. *)
Lemma removeAll_missing (elems : list string) :
  forall (r : bool) (entries : list (string * os.node)),
    os.lookup elems (os.Dir r entries) = Err ErrNotExist ->
    os.removeAll elems (os.Dir r entries) = (os.Dir r entries, None).
Proof.
  induction elems as [|x rest IH]; intros r entries H; [discriminate|].
  rewrite lookup_cons in H. cbn [os.removeAll].
  destruct (os.find x entries) as [c|] eqn:Hf.
  - destruct rest as [|y rest']; [discriminate|].
    destruct c as [|r0 es0]; [discriminate|].
    now rewrite (IH r0 es0 H), (set_find_id _ _ _ Hf).
  - now destruct rest.
Qed.

(** X14. After a successful [DeleteUserWorkspace] the workspace is gone
    for every reader: [GetFileStats] reports the missing workspace, and
    [ListFilesRecursively] and [FindFileByName] fail with the not-exist
    error, whatever is asked. *)
Theorem DeleteUserWorkspace_gone {U : strs.Unicode} (fs : FileSystem) (disk disk' : os.node)
    (userID workspaceID : Z) :
  DeleteUserWorkspace fs disk userID workspaceID = (disk', None) ->
  GetFileStats fs disk' userID workspaceID = Err ErrWorkspaceMissing /\
  (forall sort_Slice,
      ListFilesRecursively sort_Slice fs disk' userID workspaceID = Err ErrNotExist) /\
  (forall filename : string,
      FindFileByName fs disk' userID workspaceID filename = Err ErrNotExist).
Proof.
  unfold DeleteUserWorkspace. cbv zeta. rewrite RemoveAll_workspace. intros H.
  destruct (os.removeAll (os.resolve (GetWorkspacePath fs userID workspaceID)) disk)
    as [d [e|]] eqn:Hr; inversion H; subst.
  assert (Hstat : os.Stat disk' (GetWorkspacePath fs userID workspaceID)
                  = Err ErrNotExist) by exact (removeAll_lookup _ _ _ Hr).
  split; [|split].
  - unfold GetFileStats. cbv zeta. now rewrite Hstat.
  - intros sort_Slice. unfold ListFilesRecursively. cbv zeta. now rewrite Hstat.
  - intros filename. unfold FindFileByName, walker.Walk. cbv zeta. now rewrite Hstat.
Qed.

Lemma DeleteUserWorkspace_gone_witness :
  let disk' := fst (DeleteUserWorkspace sample.fs sample.plainDisk 7 12) in
  GetFileStats sample.fs disk' 7 12 = Err ErrWorkspaceMissing /\
  (forall sort_Slice,
      ListFilesRecursively sort_Slice sample.fs disk' 7 12 = Err ErrNotExist) /\
  (forall filename : string,
      FindFileByName sample.fs disk' 7 12 filename = Err ErrNotExist).
Proof.
  apply (DeleteUserWorkspace_gone sample.fs sample.plainDisk _ 7 12).
  vm_compute. reflexivity.
Defined.

Example DeleteUserWorkspace_partial :
  (* a directory that cannot be read stays, with what leads to it; the
     rest of the workspace is gone all the same *)
  DeleteUserWorkspace sample.fs sample.disk 7 12
  = (sample.diskOf
       (os.Dir true
          [(".git", os.Dir true
                      [("objects", os.Dir false [("x", os.File [x01; x02])])])]),
     Some (ErrWrap "failed to delete workspace directory" ErrPermission)).
Proof. vm_compute. reflexivity. Qed.

(** X15. [DeleteUserWorkspace] of a workspace that does not exist is no
    error and changes nothing; so deleting a workspace twice is the same
    as deleting it once. *)
Theorem DeleteUserWorkspace_absent (fs : FileSystem) (disk : os.node)
    (userID workspaceID : Z) :
  os.isDir disk = true ->
  os.Stat disk (GetWorkspacePath fs userID workspaceID) = Err ErrNotExist ->
  DeleteUserWorkspace fs disk userID workspaceID = (disk, None).
Proof.
  intros Hdir Hstat. destruct disk as [|r entries]; [discriminate|].
  unfold DeleteUserWorkspace. cbv zeta. rewrite RemoveAll_workspace.
  now rewrite (removeAll_missing _ _ _ Hstat).
Qed.

Lemma DeleteUserWorkspace_absent_witness :
  DeleteUserWorkspace sample.fs sample.disk 7 13 = (sample.disk, None).
Proof.
  apply (DeleteUserWorkspace_absent sample.fs sample.disk 7 13);
    vm_compute; reflexivity.
Defined.

(** [mkdirAll] below a new, empty directory. *)
Lemma mkdirAll_empty (elems : list string) :
  exists n', os.mkdirAll elems (os.Dir true []) = Ok n' /\
             os.lookup elems n' = Ok (os.Dir true []).
Proof.
  induction elems as [|x rest (c' & Hm & Hl)]; [now exists (os.Dir true [])|].
  exists (os.Dir true (os.set x c' [])). cbn [os.mkdirAll os.find].
  rewrite Hm. split; [reflexivity|]. now rewrite lookup_cons, find_set.
Qed.

(** Where nothing is, [mkdirAll] puts an empty directory. *)
Lemma mkdirAll_fresh (elems : list string) :
  forall (r : bool) (entries : list (string * os.node)),
    os.lookup elems (os.Dir r entries) = Err ErrNotExist ->
    exists n', os.mkdirAll elems (os.Dir r entries) = Ok n' /\
               os.lookup elems n' = Ok (os.Dir true []).
Proof.
  induction elems as [|x rest IH]; intros r entries H; [discriminate|].
  rewrite lookup_cons in H. cbn [os.mkdirAll].
  destruct (os.find x entries) as [c|] eqn:Hf.
  - destruct c as [|r0 es0]; [destruct rest; discriminate|].
    destruct (IH r0 es0 H) as (c' & -> & Hl).
    eexists; split; [reflexivity|]. now rewrite lookup_cons, find_set.
  - destruct (mkdirAll_empty rest) as (c' & -> & Hl).
    eexists; split; [reflexivity|]. now rewrite lookup_cons, find_set.
Qed.

(** X16. A workspace that [InitializeUserWorkspace] creates where none
    was is empty: the call succeeds, the listing is empty, the statistics
    count no file and no byte, and no file name is found. *)
Theorem InitializeUserWorkspace_fresh {U : strs.Unicode}
    (sort_Slice : forall A : Type, (A -> A -> bool) -> list A -> list A)
    (fs : FileSystem) (disk : os.node) (userID workspaceID : Z) :
  sortsSlices sort_Slice ->
  os.isDir disk = true ->
  os.Stat disk (GetWorkspacePath fs userID workspaceID) = Err ErrNotExist ->
  exists disk' : os.node,
    InitializeUserWorkspace fs disk userID workspaceID = (disk', None) /\
    ListFilesRecursively sort_Slice fs disk' userID workspaceID = Ok [] /\
    GetFileStats fs disk' userID workspaceID
    = Ok {| TotalFiles := 0; TotalSize := 0 |} /\
    (forall filename : string,
        FindFileByName fs disk' userID workspaceID filename = Err ErrFileNotFound).
Proof.
  intros Hsort Hdir Hstat. destruct disk as [|r entries]; [discriminate|].
  destruct (mkdirAll_fresh _ _ _ Hstat) as (disk' & Hm & Hl).
  exists disk'. unfold InitializeUserWorkspace, os.MkdirAll. cbv zeta. rewrite Hm.
  split; [reflexivity|].
  change (os.Stat disk' (GetWorkspacePath fs userID workspaceID)
          = Ok (os.Dir true [])) in Hl.
  destruct (GetWorkspacePath_clean fs userID workspaceID) as (rooted & stack & Hok & Hws).
  destruct (Sprintf_d_decimal workspaceID) as [Hwc Hw].
  destruct (decimal_validName _ Hwc Hw) as [_ Egit].
  split; [|split].
  - unfold ListFilesRecursively. cbv zeta. rewrite Hl, walkDirectory_Dir.
    cbn [map os.ReadDir os.sortByName os.sortBy fold_right List.filter].
    assert (Hnil : forall less, sort_Slice (os.DirEntry listing) less [] = []).
    { intros less. destruct (Hsort _ less []) as [Hperm _].
      now apply Permutation_sym, Permutation_nil in Hperm. }
    now rewrite !Hnil.
  - unfold GetFileStats, countFilesInPath, walker.WalkDir. rewrite Hl.
    cbn [os.IsNotExist]. rewrite Hws, (Base_render _ _ _ Hok).
    assert (Hread : readableOutsideGit (fmt.Sprintf_d workspaceID) (os.Dir true [])
                    = true)
      by now rewrite (workspaceReadable_outside _ _ Egit).
    pose proof (walkDir_count rooted _ Hok (os.Dir true []) (fmt.Sprintf_d workspaceID)
                  [] 0 0 eq_refl Hread eq_refl) as Hwalk.
    unfold below in Hwalk. simpl app in Hwalk.
    change (wrap64 0) with 0 in Hwalk. rewrite Hwalk.
    cbn [countedSizes]. rewrite Egit. reflexivity.
  - intros filename. unfold FindFileByName, walker.Walk. rewrite Hl, Hws.
    rewrite (Base_render _ _ _ Hok).
    pose proof (walk_find rooted _ filename Hok (os.Dir true [])
                  (fmt.Sprintf_d workspaceID) [] [] eq_refl eq_refl eq_refl) as Hwalk.
    unfold below in Hwalk. simpl app in Hwalk. rewrite Hwalk. reflexivity.
Qed.

Lemma InitializeUserWorkspace_fresh_witness :
  exists disk' : os.node,
    InitializeUserWorkspace sample.fs sample.disk 7 13 = (disk', None) /\
    ListFilesRecursively insertionSort sample.fs disk' 7 13 = Ok [] /\
    GetFileStats sample.fs disk' 7 13 = Ok {| TotalFiles := 0; TotalSize := 0 |} /\
    (forall filename : string,
        FindFileByName sample.fs disk' 7 13 filename = Err ErrFileNotFound).
Proof.
  apply (InitializeUserWorkspace_fresh insertionSort sample.fs sample.disk 7 13).
  - exact insertionSort_sortsSlices.
  - reflexivity.
  - vm_compute. reflexivity.
Defined.

(** ** Paths without [..]: what [ValidatePath] makes of them *)

Lemma kept_validName (x : string) :
  slashFree x = true -> kept x = true -> String.eqb x ".." = false ->
  validName x = true.
Proof.
  unfold kept, validName, plain. intros Hs Hk Hd.
  apply negb_true_iff, orb_false_iff in Hk. destruct Hk as [-> ->].
  now rewrite Hs, Hd.
Qed.

(** Scanning elements none of which is [..] pushes the kept ones. *)
Lemma cleanStep_fold_kept (rooted : bool) (segs : list string) :
  Forall (fun x => slashFree x = true) segs ->
  noDotDot segs = true ->
  forallb validName (List.filter kept segs) = true /\
  forall stack : list string,
    fold_left (filepath.cleanStep rooted) segs stack
    = below stack (List.filter kept segs).
Proof.
  induction 1 as [|seg segs Hseg Hall IH]; intros Hdd; [now split|].
  simpl in Hdd. apply andb_prop in Hdd. destruct Hdd as [Hd Hdd].
  apply negb_true_iff in Hd. destruct (IH Hdd) as [Hvalid Hfold].
  cbn [List.filter fold_left]. destruct (kept seg) eqn:Hk.
  - pose proof (kept_validName _ Hseg Hk Hd) as Hv. split.
    + simpl. now rewrite Hv, Hvalid.
    + intros stack. rewrite (cleanStep_push _ _ _ Hv), Hfold.
      unfold below. simpl. now rewrite <- app_assoc.
  - split; [exact Hvalid|]. intros stack.
    unfold filepath.cleanStep. unfold kept in Hk. apply negb_false_iff in Hk.
    rewrite Hk. apply Hfold.
Qed.

Lemma keptNames_valid (path : string) :
  dotDotFree path = true -> forallb validName (keptNames path) = true.
Proof.
  intros H.
  exact (proj1 (cleanStep_fold_kept false _ (splitSlash_elems path) H)).
Qed.

(** Joining a clean, non-empty path and a path without [..]. *)
Lemma Join_dotDotFree (rooted : bool) (stack : list string) (path : string) :
  stackOK rooted stack = true -> stack <> [] -> dotDotFree path = true ->
  filepath.Join [render rooted (rev stack); path]
  = render rooted (rev (below stack (keptNames path))).
Proof.
  intros H Hne Hdd. pose proof (stackOK_plain _ _ H) as Hpl.
  assert (Hp : String.eqb (render rooted (rev stack)) "" = false)
    by exact (render_nonempty _ _ Hpl).
  unfold filepath.Join. rewrite Hp.
  change (filepath.joinSlash [render rooted (rev stack); path])
    with (render rooted (rev stack) ++ "/" ++ path).
  rewrite Clean_render_eq, (prefix_slash_app _ _ Hp), (HasPrefix_render _ _ Hpl).
  f_equal. unfold filepath.cleanElems. f_equal.
  rewrite splitSlash_app, fold_left_app, (render_fold_stack _ _ H).
  exact (proj2 (cleanStep_fold_kept rooted _ (splitSlash_elems path) Hdd) stack).
Qed.

Lemma joinSlash_app (elems names : list string) :
  elems <> [] -> names <> [] ->
  filepath.joinSlash (elems ++ names)
  = filepath.joinSlash elems ++ "/" ++ filepath.joinSlash names.
Proof.
  intros He Hn. induction elems as [|x elems IH]; [contradiction|].
  destruct elems as [|y elems].
  - destruct names as [|n names]; [contradiction | reflexivity].
  - change (filepath.joinSlash ((x :: y :: elems) ++ names))
      with (x ++ "/" ++ filepath.joinSlash ((y :: elems) ++ names)).
    change (filepath.joinSlash (x :: y :: elems))
      with (x ++ "/" ++ filepath.joinSlash (y :: elems)).
    rewrite IH by discriminate. now rewrite !append_assoc.
Qed.

(** The clean path of what [names] lead to from a clean, non-empty path
    is that path followed by the names. *)
Lemma render_under (rooted : bool) (stack names : list string) :
  stack <> [] ->
  render rooted (rev (below stack names)) = under (render rooted (rev stack)) names.
Proof.
  intros Hne. unfold below. rewrite rev_app_distr, rev_involutive.
  destruct names as [|n names]; [now rewrite app_nil_r|].
  assert (Hr : rev stack <> []).
  { intros E. apply (f_equal (@rev string)) in E. now rewrite rev_involutive in E. }
  unfold under, render. rewrite (joinSlash_app _ (n :: names) Hr) by discriminate.
  destruct rooted.
  - now rewrite append_assoc.
  - destruct (rev stack) as [|y l] eqn:E; [contradiction | reflexivity].
Qed.

Lemma prefix_under (root : string) (names : list string) :
  String.prefix root (under root names) = true.
Proof.
  unfold under. destruct names; [|apply prefix_append].
  induction root as [|a s IH]; simpl; [reflexivity|].
  destruct (ascii_dec a a) as [_|Hne]; [exact IH | contradiction].
Qed.

(** [ValidatePath] on a path without [..], from the clean form of the
    workspace path. *)
Lemma ValidatePath_below (fs : FileSystem) (userID workspaceID : Z) (path : string)
    (rooted : bool) (stack : list string) :
  stackOK rooted stack = true -> stack <> [] ->
  GetWorkspacePath fs userID workspaceID = render rooted (rev stack) ->
  dotDotFree path = true ->
  ValidatePath fs userID workspaceID path
  = Ok (render rooted (rev (below stack (keptNames path)))).
Proof.
  intros H Hne Hws Hdd. rewrite ValidatePath_prefix. cbv zeta.
  rewrite Hws, (Join_dotDotFree _ _ _ H Hne Hdd).
  rewrite (Clean_render _ _ (stackOK_below _ _ _ H (keptNames_valid _ Hdd))).
  rewrite (render_under _ _ _ Hne). now rewrite prefix_under.
Qed.

(** X17. [ValidatePath] accepts every path none of whose elements is
    [..], whether it is relative, absolute, empty or full of doubled
    separators and [.]: the result is the workspace path followed by the
    elements of the path that are neither empty nor [.]. *)
Theorem ValidatePath_dotDotFree (fs : FileSystem) (userID workspaceID : Z)
    (path : string) :
  dotDotFree path = true ->
  ValidatePath fs userID workspaceID path
  = Ok (under (GetWorkspacePath fs userID workspaceID) (keptNames path)).
Proof.
  intros Hdd.
  destruct (GetWorkspacePath_clean fs userID workspaceID) as (rooted & stack & Hok & Hws).
  rewrite (ValidatePath_below fs userID workspaceID path rooted _ Hok) by
    (discriminate || assumption).
  rewrite Hws. now rewrite render_under.
Qed.

Lemma ValidatePath_dotDotFree_witness :
  ValidatePath sample.fs 7 12 "/etc//./passwd/"
  = Ok (under (GetWorkspacePath sample.fs 7 12) (keptNames "/etc//./passwd/")) /\
  under (GetWorkspacePath sample.fs 7 12) (keptNames "/etc//./passwd/")
  = "/data/7/12/etc/passwd".
Proof.
  split.
  - apply (ValidatePath_dotDotFree sample.fs 7 12 "/etc//./passwd/"). reflexivity.
  - reflexivity.
Defined.

(** ** Workspaces do not overlap *)

(** [%d] writes different integers differently. *)
Lemma Sprintf_d_inj (a b : Z) : fmt.Sprintf_d a = fmt.Sprintf_d b -> a = b.
Proof.
  unfold fmt.Sprintf_d. intros H. apply DecimalZ.to_int_inj.
  assert (Hn : forall z, Z.to_int z <> Decimal.Pos Nil /\ Z.to_int z <> Decimal.Neg Nil).
  { intros [|p|p]; simpl; split; try discriminate;
      intros [= E]; now apply Unsigned.to_uint_nonnil in E. }
  destruct (Hn a) as [Ha1 Ha2]. destruct (Hn b) as [Hb1 Hb2].
  pose proof (NilZero.isi _ Ha1 Ha2) as Ea. pose proof (NilZero.isi _ Hb1 Hb2) as Eb.
  rewrite H in Ea. congruence.
Qed.

Lemma Sprintf_d_validName (n : Z) : validName (fmt.Sprintf_d n) = true.
Proof.
  destruct (Sprintf_d_decimal n) as [Hc Hne].
  exact (proj1 (decimal_validName _ Hc Hne)).
Qed.

(** The clean form of the workspace path: the elements of the root
    directory, the user and the workspace. *)
Lemma GetWorkspacePath_elems (fs : FileSystem) (userID workspaceID : Z) :
  let rooted := strs.HasPrefix (RootDir fs) "/" in
  let base := fold_left (filepath.cleanStep rooted) (filepath.splitSlash (RootDir fs)) [] in
  stackOK rooted (fmt.Sprintf_d workspaceID :: fmt.Sprintf_d userID :: base) = true /\
  GetWorkspacePath fs userID workspaceID
  = render rooted (rev (fmt.Sprintf_d workspaceID :: fmt.Sprintf_d userID :: base)).
Proof.
  cbv zeta.
  pose proof (Sprintf_d_validName userID) as Hu.
  pose proof (Sprintf_d_validName workspaceID) as Hw.
  pose proof (Clean_stackOK (RootDir fs)) as Hbase.
  split; [now repeat apply stackOK_push|].
  assert (Hsu : slashFree (fmt.Sprintf_d userID) = true).
  { unfold validName in Hu. apply andb_prop in Hu. now apply plain_slashFree. }
  assert (Hsw : slashFree (fmt.Sprintf_d workspaceID) = true).
  { unfold validName in Hw. apply andb_prop in Hw. now apply plain_slashFree. }
  unfold GetWorkspacePath.
  destruct (String.eqb (RootDir fs) "") eqn:Er.
  - apply String.eqb_eq in Er. rewrite Er.
    change (filepath.Join [""; fmt.Sprintf_d userID; fmt.Sprintf_d workspaceID])
      with (filepath.Join [render false (rev [fmt.Sprintf_d userID]);
                           fmt.Sprintf_d workspaceID]).
    apply Join_render; [|exact Hw].
    now apply (stackOK_push false []).
  - unfold filepath.Join. rewrite Er.
    change (filepath.joinSlash [RootDir fs; fmt.Sprintf_d userID; fmt.Sprintf_d workspaceID])
      with (RootDir fs ++ "/" ++ fmt.Sprintf_d userID ++ "/" ++ fmt.Sprintf_d workspaceID).
    rewrite Clean_render_eq, (prefix_slash_app _ _ Er). f_equal.
    unfold filepath.cleanElems. f_equal.
    rewrite !splitSlash_app, !fold_left_app.
    rewrite (splitSlash_slashFree _ Hsu), (splitSlash_slashFree _ Hsw).
    cbn [fold_left]. now rewrite !cleanStep_push.
Qed.

Lemma dropDotDot_app (l m : list string) (x : string) :
  String.eqb x ".." = false ->
  os.dropDotDot (l ++ x :: m) = (os.dropDotDot l ++ x :: m)%list.
Proof.
  intros Hx. induction l as [|y l IH]; simpl; [now rewrite Hx|].
  destruct (String.eqb y ".."); [exact IH | reflexivity].
Qed.

Lemma resolve_render (rooted : bool) (stack : list string) :
  stackOK rooted stack = true ->
  os.resolve (render rooted (rev stack)) = os.dropDotDot (rev stack).
Proof.
  intros H. unfold os.resolve.
  rewrite (HasPrefix_render _ _ (stackOK_plain _ _ H)).
  now rewrite (cleanElems_render _ _ H).
Qed.

(** The elements that lead to the workspace: those of the root
    directory, then the user, then the workspace. *)
Lemma resolve_GetWorkspacePath (fs : FileSystem) (userID workspaceID : Z) :
  os.resolve (GetWorkspacePath fs userID workspaceID)
  = (os.resolve (RootDir fs) ++ [fmt.Sprintf_d userID; fmt.Sprintf_d workspaceID])%list.
Proof.
  destruct (GetWorkspacePath_elems fs userID workspaceID) as [Hok ->].
  rewrite (resolve_render _ _ Hok). simpl rev. rewrite <- app_assoc.
  apply dropDotDot_app.
  pose proof (Sprintf_d_validName userID) as Hu. unfold validName in Hu.
  apply andb_prop in Hu. now apply negb_true_iff.
Qed.

(** The elements that lead to what [ValidatePath] returns for a path
    without [..]: those of the workspace, then the names in the path. *)
Lemma resolve_ValidatePath (fs : FileSystem) (userID workspaceID : Z) (path : string) :
  dotDotFree path = true ->
  exists fullPath : string,
    ValidatePath fs userID workspaceID path = Ok fullPath /\
    os.resolve fullPath
    = (os.resolve (RootDir fs)
       ++ fmt.Sprintf_d userID :: fmt.Sprintf_d workspaceID :: keptNames path)%list.
Proof.
  intros Hdd. destruct (GetWorkspacePath_elems fs userID workspaceID) as [Hok Hws].
  eexists. split.
  - apply (ValidatePath_below fs userID workspaceID path _ _ Hok);
      [discriminate | exact Hws | exact Hdd].
  - rewrite (resolve_render _ _ (stackOK_below _ _ _ Hok (keptNames_valid _ Hdd))).
    unfold below. rewrite rev_app_distr, rev_involutive. simpl rev.
    rewrite <- !app_assoc. apply dropDotDot_app.
    pose proof (Sprintf_d_validName userID) as Hu. unfold validName in Hu.
    apply andb_prop in Hu. now apply negb_true_iff.
Qed.

(** Two workspaces are apart: no path of one leads through the other. *)
Lemma workspaces_apart (fs : FileSystem) (u w u' w' : Z) (names post : list string) :
  (u', w') <> (u, w) ->
  (os.resolve (RootDir fs) ++ fmt.Sprintf_d u' :: fmt.Sprintf_d w' :: names)%list
  <> ((os.resolve (RootDir fs) ++ [fmt.Sprintf_d u; fmt.Sprintf_d w]) ++ post)%list.
Proof.
  intros Hne E. rewrite <- app_assoc in E. apply app_inv_head in E.
  simpl in E. injection E as Eu Ew _.
  apply Sprintf_d_inj in Eu, Ew. congruence.
Qed.

(** [removeAll] takes away nothing outside of what it names, whether it
    ends with an error or not. *)
Lemma removeAll_frame (elems : list string) :
  forall (n n' : os.node) (err : option error) (p : list string) (c : list byte),
    os.removeAll elems n = (n', err) ->
    (forall post, p <> (elems ++ post)%list) ->
    os.lookup p n = Ok (os.File c) -> os.lookup p n' = Ok (os.File c).
Proof.
  induction elems as [|x rest IH]; intros n n' err p c H Hne Hl.
  - destruct n; simpl in H; inversion H; now subst.
  - destruct n as [|r entries]; simpl in H; [inversion H; now subst|].
    destruct p as [|y p']; [discriminate|].
    rewrite lookup_cons in Hl.
    destruct (os.find y entries) as [d|] eqn:Hy; [|discriminate].
    destruct rest as [|z rest'].
    + destruct (decide (x = y)) as [->|Hd]; [now destruct (Hne p')|].
      destruct (os.find x entries) as [c0|] eqn:Hx.
      * destruct (os.purge c0); inversion H; subst; rewrite lookup_cons.
        -- now rewrite (find_set_other _ _ _ _ Hd), Hy.
        -- now rewrite (find_unset_other _ _ _ Hd), Hy.
      * inversion H; subst. now rewrite lookup_cons, Hy.
    + destruct (os.find x entries) as [c0|] eqn:Hx.
      * destruct (os.removeAll (z :: rest') c0) as [c' e'] eqn:Hw; inversion H; subst.
        rewrite lookup_cons.
        destruct (decide (x = y)) as [->|Hd].
        -- rewrite find_set. rewrite Hy in Hx. inversion Hx; subst.
           apply (IH _ _ _ _ _ Hw); [|exact Hl].
           intros post E. apply (Hne post). simpl. now rewrite E.
        -- now rewrite (find_set_other _ _ _ _ Hd), Hy.
      * inversion H; subst. now rewrite lookup_cons, Hy.
Qed.

(** X18. Saving or deleting a file in one workspace leaves the files of
    every other workspace as they are, for paths without [..]: what
    [GetFileContent] read there before, it reads after. *)
Theorem SaveFile_DeleteFile_isolated (fs : FileSystem) (disk disk' : os.node)
    (userID workspaceID otherUser otherWorkspace : Z)
    (filePath otherPath : string) (content c : list byte) :
  (otherUser, otherWorkspace) <> (userID, workspaceID) ->
  dotDotFree filePath = true -> dotDotFree otherPath = true ->
  SaveFile fs disk userID workspaceID filePath content = (disk', None) \/
  DeleteFile fs disk userID workspaceID filePath = (disk', None) ->
  GetFileContent fs disk otherUser otherWorkspace otherPath = Ok c ->
  GetFileContent fs disk' otherUser otherWorkspace otherPath = Ok c.
Proof.
  intros Hne Hp Hq Hchange.
  destruct (resolve_ValidatePath fs userID workspaceID filePath Hp) as (full & Hv & Hr).
  destruct (resolve_ValidatePath fs otherUser otherWorkspace otherPath Hq)
    as (other & Hv' & Hr').
  assert (Hapart : os.resolve other <> os.resolve full).
  { rewrite Hr, Hr'. intros E.
    apply (workspaces_apart fs userID workspaceID otherUser otherWorkspace
             (keptNames otherPath) (keptNames filePath) Hne).
    rewrite E. now rewrite <- app_assoc. }
  unfold GetFileContent. rewrite Hv'. rewrite !ReadFile_lookup. intros Hl.
  destruct Hchange as [H|H].
  - unfold SaveFile, os.MkdirAll, os.WriteFile in H. cbv zeta in H. rewrite Hv in H.
    destruct (os.mkdirAll (os.resolve (filepath.Dir full)) disk) as [d0|e] eqn:Hm;
      [|inversion H].
    destruct (os.writeFile (os.resolve full) content d0) as [d1|e] eqn:Hw;
      inversion H; subst.
    destruct (mkdirAll_keeps _ _ _ _ _ Hm Hl) as (m' & Hl0 & _ & Hsame).
    rewrite (Hsame eq_refl) in Hl0.
    exact (writeFile_frame _ _ _ _ _ _ Hw Hapart Hl0).
  - unfold DeleteFile, os.Remove in H. rewrite Hv in H.
    destruct (os.remove (os.resolve full) disk) as [d1|e] eqn:Hw; inversion H; subst.
    exact (remove_frame _ _ _ _ _ Hw Hapart Hl).
Qed.

Lemma SaveFile_DeleteFile_isolated_witness :
  GetFileContent sample.fs
    (fst (SaveFile sample.fs
            (fst (SaveFile sample.fs sample.disk 7 13 "notes/A.md" [x01]))
            7 12 "notes/A.md" [x02]))
    7 13 "notes/A.md" = Ok [x01].
Proof.
  apply (SaveFile_DeleteFile_isolated sample.fs
           (fst (SaveFile sample.fs sample.disk 7 13 "notes/A.md" [x01])) _
           7 12 7 13 "notes/A.md" "notes/A.md" [x02] [x01]).
  - intros [= E].
  - reflexivity.
  - reflexivity.
  - left. vm_compute. reflexivity.
  - vm_compute. reflexivity.
Defined.

(** X19. Deleting a workspace leaves the files of every other workspace
    as they are, for paths without [..], whether the deletion succeeds
    or stops with an error. *)
Theorem DeleteUserWorkspace_isolated (fs : FileSystem) (disk disk' : os.node)
    (userID workspaceID otherUser otherWorkspace : Z)
    (otherPath : string) (c : list byte) (err : option error) :
  (otherUser, otherWorkspace) <> (userID, workspaceID) ->
  dotDotFree otherPath = true ->
  DeleteUserWorkspace fs disk userID workspaceID = (disk', err) ->
  GetFileContent fs disk otherUser otherWorkspace otherPath = Ok c ->
  GetFileContent fs disk' otherUser otherWorkspace otherPath = Ok c.
Proof.
  intros Hne Hq H.
  destruct (resolve_ValidatePath fs otherUser otherWorkspace otherPath Hq)
    as (other & Hv' & Hr').
  unfold GetFileContent. rewrite Hv'. rewrite !ReadFile_lookup. intros Hl.
  unfold DeleteUserWorkspace in H. cbv zeta in H. rewrite RemoveAll_workspace in H.
  destruct (os.removeAll (os.resolve (GetWorkspacePath fs userID workspaceID)) disk)
    as [d e] eqn:Hrm.
  assert (d = disk') as -> by (destruct e; now inversion H).
  apply (removeAll_frame _ _ _ _ _ _ Hrm); [|exact Hl].
  intros post. rewrite Hr', resolve_GetWorkspacePath.
  now apply workspaces_apart.
Qed.

Lemma DeleteUserWorkspace_isolated_witness :
  GetFileContent sample.fs
    (fst (DeleteUserWorkspace sample.fs
            (fst (SaveFile sample.fs sample.disk 7 13 "notes/A.md" [x01])) 7 12))
    7 13 "notes/A.md" = Ok [x01].
Proof.
  apply (DeleteUserWorkspace_isolated sample.fs
           (fst (SaveFile sample.fs sample.disk 7 13 "notes/A.md" [x01])) _
           7 12 7 13 "notes/A.md" [x01]
           (Some (ErrWrap "failed to delete workspace directory" ErrPermission))).
  - intros [= E].
  - reflexivity.
  - vm_compute. reflexivity.
  - vm_compute. reflexivity.
Defined.

Example SaveFile_crosses_workspaces :
  (* with [..] in the path, a save in workspace 12 overwrites a file of
     workspace 123 *)
  let disk := fst (SaveFile sample.fs sample.disk 7 123 "secret.md" [x01]) in
  let disk' := fst (SaveFile sample.fs disk 7 12 "../123/secret.md" [x02]) in
  GetFileContent sample.fs disk 7 123 "secret.md" = Ok [x01] /\
  GetFileContent sample.fs disk' 7 123 "secret.md" = Ok [x02].
Proof. split; vm_compute; reflexivity. Qed.

(** ** The listing: when it fails *)

(** The loop over the directories fails with the permission error as
    soon as one of them does, when no other failure is possible. *)
Lemma addDirs_unreadable (dirs : list (os.DirEntry listing)) :
  Forall (fun e : os.DirEntry listing =>
            forall d p, (exists ch, os.descend e d p = Ok ch) \/
                        os.descend e d p = Err ErrPermission) dirs ->
  Exists (fun e : os.DirEntry listing =>
            forall d p, os.descend e d p = Err ErrPermission) dirs ->
  forall (dir pre : string) (nodes : list FileNode),
    addDirs dirs dir pre nodes = Err ErrPermission.
Proof.
  induction 1 as [|e dirs He Hall IH]; intros Hex dir pre nodes;
    [now apply Exists_nil in Hex|].
  simpl.
  destruct (He (filepath.Join [dir; os.Name e]) (filepath.Join [pre; os.Name e]))
    as [(ch & Hch)|Hch]; rewrite Hch; [|reflexivity].
  apply Exists_cons in Hex. destruct Hex as [Hbad|Hex]; [|now apply IH].
  specialize (Hbad (filepath.Join [dir; os.Name e]) (filepath.Join [pre; os.Name e])).
  congruence.
Qed.

Section ListingFailure.

Context {U : strs.Unicode}.

Variable sort_Slice : forall A : Type, (A -> A -> bool) -> list A -> list A.
Hypothesis sort_Slice_ok : sortsSlices sort_Slice.

Lemma walkDirectory_unreadable (n : os.node) :
  os.isDir n = true ->
  readableAll n = false ->
  forall dir pre : string, walkDirectory sort_Slice n dir pre = Err ErrPermission.
Proof.
  induction n as [content|r es IH] using node_nested_ind; [discriminate|].
  intros _ Hread dir pre. rewrite walkDirectory_Dir.
  destruct r; [|reflexivity]. simpl in Hread.
  set (mk := fun xc : string * os.node =>
               os.MkDirEntry (fst xc) (snd xc) (walkDirectory sort_Slice (snd xc))).
  unfold os.ReadDir.
  set (dirs := sort_Slice _ lessLower
                 (List.filter (fun e => os.IsDir e) (os.sortByName (map mk es)))).
  assert (Hin : forall e, In e dirs <-> exists xc, In xc es /\ e = mk xc /\
                                                   os.isDir (snd xc) = true).
  { intros e. subst dirs. split.
    - intros He.
      apply (Permutation_in _ (proj1 (sort_Slice_ok _ lessLower _))) in He.
      apply filter_In in He. destruct He as [He Hd].
      apply (Permutation_in _ (sortByName_perm _)) in He.
      apply in_map_iff in He. destruct He as (xc & <- & Hxc). now exists xc.
    - intros (xc & Hxc & -> & Hd).
      apply (Permutation_in _ (Permutation_sym (proj1 (sort_Slice_ok _ lessLower _)))).
      apply filter_In. split; [|exact Hd].
      apply (Permutation_in _ (Permutation_sym (sortByName_perm _))).
      now apply in_map. }
  rewrite (addDirs_unreadable dirs); [reflexivity| |].
  - apply List.Forall_forall. intros e He. apply Hin in He.
    destruct He as (xc & Hxc & -> & Hd). intros d p. cbn [mk os.descend].
    destruct (readableAll (snd xc)) eqn:Hr.
    + left. destruct (walkDirectory_ordered sort_Slice sort_Slice_ok _ Hr Hd d p)
        as (nodes & -> & _). eauto.
    + right. rewrite List.Forall_forall in IH. exact (IH xc Hxc Hd Hr d p).
  - apply List.Exists_exists.
    assert (Hbad : exists xc, In xc es /\ readableAll (snd xc) = false).
    { clear -Hread. induction es as [|xc es IHes]; [discriminate|].
      simpl in Hread. destruct (readableAll (snd xc)) eqn:Hr.
      - destruct (IHes Hread) as (y & Hy & Hry). exists y. split; [now right | exact Hry].
      - exists xc. split; [now left | exact Hr]. }
    destruct Hbad as (xc & Hxc & Hr).
    assert (Hd : os.isDir (snd xc) = true) by (destruct (snd xc); [discriminate | reflexivity]).
    exists (mk xc). split; [apply Hin; now exists xc|].
    intros d p. cbn [mk os.descend].
    rewrite List.Forall_forall in IH. exact (IH xc Hxc Hd Hr d p).
Qed.

End ListingFailure.

(** X20. [ListFilesRecursively] gives the whole listing or none: for a
    workspace directory it succeeds when every directory in it can be
    read, and as soon as one directory anywhere below cannot, the result
    is the permission error and no listing. *)
Theorem ListFilesRecursively_all_or_nothing {U : strs.Unicode}
    (sort_Slice : forall A : Type, (A -> A -> bool) -> list A -> list A)
    (fs : FileSystem) (disk n : os.node) (userID workspaceID : Z) :
  sortsSlices sort_Slice ->
  os.Stat disk (GetWorkspacePath fs userID workspaceID) = Ok n ->
  os.isDir n = true ->
  if readableAll n
  then exists nodes, ListFilesRecursively sort_Slice fs disk userID workspaceID = Ok nodes
  else ListFilesRecursively sort_Slice fs disk userID workspaceID = Err ErrPermission.
Proof.
  intros Hsort Hstat Hdir. unfold ListFilesRecursively. cbv zeta. rewrite Hstat.
  destruct (readableAll n) eqn:Hr.
  - destruct (walkDirectory_ordered sort_Slice Hsort n Hr Hdir
                (GetWorkspacePath fs userID workspaceID) "") as (nodes & -> & _).
    eauto.
  - exact (walkDirectory_unreadable sort_Slice Hsort n Hdir Hr _ _).
Qed.

Lemma ListFilesRecursively_all_or_nothing_witness :
  ListFilesRecursively insertionSort sample.fs sample.disk 7 12 = Err ErrPermission.
Proof.
  exact (ListFilesRecursively_all_or_nothing insertionSort sample.fs sample.disk
           sample.workspace 7 12 insertionSort_sortsSlices eq_refl eq_refl).
Defined.

(** ** The listing: what is in it *)

Lemma listedBelow_eq (rel : list string) (name : string) (n : os.node) :
  listedBelow rel name n
  = (filepath.joinSlash (rel ++ [name]), name, filepath.joinSlash (rel ++ [name]),
     os.isDir n) :: listedIn (rel ++ [name]) n.
Proof. destruct n; reflexivity. Qed.

(** The identifier of the entry [x] of the directory that [rel] leads
    to. *)
Lemma Join_prefixOf (rel : list string) (x : string) :
  forallb validName rel = true -> validName x = true ->
  filepath.Join [prefixOf rel; x] = filepath.joinSlash (rel ++ [x]).
Proof.
  intros Hrel Hx.
  assert (H0 : stackOK false [] = true) by reflexivity.
  destruct rel as [|y rel].
  - assert (Hne : String.eqb x "" = false).
    { unfold validName, plain in Hx. now destruct (String.eqb x ""). }
    change (filepath.Join [prefixOf []; x]) with (filepath.Join [x]).
    unfold filepath.Join. rewrite Hne.
    change (filepath.joinSlash [x]) with (render false (rev [x])).
    rewrite Clean_render; [reflexivity | now apply (stackOK_push false [])].
  - pose proof (stackOK_below false [] (y :: rel) H0 Hrel) as Hok.
    unfold below in Hok. rewrite app_nil_r in Hok.
    pose proof (Join_render false (rev (y :: rel)) x Hok Hx) as HJ.
    change (rev (x :: rev (y :: rel))) with (rev (rev (y :: rel)) ++ [x])%list in HJ.
    rewrite !rev_involutive in HJ. exact HJ.
Qed.

Lemma flat_map_map {A B C : Type} (f : A -> B) (g : B -> list C) (l : list A) :
  flat_map g (map f l) = flat_map (fun a => g (f a)) l.
Proof. induction l as [|a l IH]; simpl; [reflexivity | now rewrite IH]. Qed.

(** The loop over the directories lists each of them with what is in
    it. *)
Lemma addDirs_listed (rel : list string) (dirs : list (os.DirEntry listing)) :
  forallb validName rel = true ->
  Forall (listsBelow rel) dirs ->
  forall (dir : string) (nodes : list FileNode),
  exists dnodes : list FileNode,
    addDirs dirs dir (prefixOf rel) nodes = Ok (nodes ++ dnodes)%list /\
    Permutation (flat_map flatten dnodes) (flat_map (listedEntry rel) dirs).
Proof.
  intros Hrel. induction 1 as [|e dirs (Hx & Hd & He) Hall IH]; intros dir nodes; simpl.
  - exists []. now rewrite app_nil_r.
  - rewrite (Join_prefixOf _ _ Hrel Hx).
    destruct (He (filepath.Join [dir; os.Name e])) as (children & Hdesc & Hperm).
    rewrite Hdesc.
    destruct (IH dir (nodes ++ [{| ID := filepath.joinSlash (rel ++ [os.Name e]);
                                   Name := os.Name e;
                                   Path := filepath.joinSlash (rel ++ [os.Name e]);
                                   Children := Some children |}])%list)
      as (dnodes & -> & Hrest).
    exists ({| ID := filepath.joinSlash (rel ++ [os.Name e]); Name := os.Name e;
               Path := filepath.joinSlash (rel ++ [os.Name e]);
               Children := Some children |} :: dnodes).
    rewrite <- app_assoc. split; [reflexivity|].
    cbn [flat_map flatten]. unfold listedEntry at 1. rewrite listedBelow_eq.
    unfold os.IsDir in Hd. rewrite Hd.
    rewrite <- !app_comm_cons. apply perm_skip.
    now apply Permutation_app.
Qed.

(** The loop over the files lists each of them. *)
Lemma addFiles_listed (rel : list string) (files : list (os.DirEntry listing)) :
  forallb validName rel = true ->
  Forall (fun e : os.DirEntry listing =>
            validName (os.Name e) = true /\ os.IsDir e = false) files ->
  flat_map flatten (map (fileNodeOf (prefixOf rel)) files)
  = flat_map (listedEntry rel) files.
Proof.
  intros Hrel. induction 1 as [|e files [Hx Hd] Hall IH]; [reflexivity|].
  cbn [map flat_map]. rewrite IH. f_equal.
  unfold fileNodeOf, listedEntry. rewrite listedBelow_eq, (Join_prefixOf _ _ Hrel Hx).
  unfold os.IsDir in Hd. rewrite Hd. cbn [flatten app].
  destruct (os.Node e); [reflexivity | discriminate].
Qed.

Section ListingContent.

Context {U : strs.Unicode}.

Variable sort_Slice : forall A : Type, (A -> A -> bool) -> list A -> list A.
Hypothesis sort_Slice_ok : sortsSlices sort_Slice.

Lemma walkDirectory_listed (n : os.node) :
  os.isDir n = true -> readableAll n = true -> validNames n = true ->
  forall (dir : string) (rel : list string),
    forallb validName rel = true ->
    exists nodes : list FileNode,
      walkDirectory sort_Slice n dir (prefixOf rel) = Ok nodes /\
      Permutation (flat_map flatten nodes) (listedIn rel n).
Proof.
  induction n as [content|r es IH] using node_nested_ind; [discriminate|].
  intros _ Hread Hvalid dir rel Hrel. simpl in Hread.
  apply andb_prop in Hread. destruct Hread as [-> Hread].
  rewrite walkDirectory_Dir.
  set (mk := fun xc : string * os.node =>
               os.MkDirEntry (fst xc) (snd xc) (walkDirectory sort_Slice (snd xc))).
  unfold os.ReadDir.
  set (sorted := os.sortByName (map mk es)).
  assert (Hsorted : Permutation sorted (map mk es)) by apply sortByName_perm.
  assert (Hent : forall e, In e sorted ->
                           validName (os.Name e) = true /\
                           (os.IsDir e = true -> listsBelow rel e)).
  { intros e He. apply (Permutation_in _ Hsorted) in He.
    apply in_map_iff in He. destruct He as (xc & <- & Hxc).
    simpl in Hvalid. rewrite forallb_forall in Hvalid.
    specialize (Hvalid xc Hxc). apply andb_prop in Hvalid. destruct Hvalid as [Hx Hv].
    rewrite forallb_forall in Hread. specialize (Hread xc Hxc).
    split; [exact Hx|]. intros Hd. split; [exact Hx|]. split; [exact Hd|].
    intros d. rewrite List.Forall_forall in IH.
    destruct (IH xc Hxc Hd Hread Hv d (rel ++ [fst xc])%list
                (forallb_snoc _ _ _ Hrel Hx)) as (nodes & Hw & Hp).
    exists nodes. split; [|exact Hp].
    cbn [mk os.descend os.Name]. rewrite <- Hw. f_equal.
    unfold prefixOf. now destruct rel. }
  clearbody sorted.
  set (dirs := sort_Slice _ lessLower (List.filter (fun e => os.IsDir e) sorted)).
  set (files := sort_Slice _ lessLower
                  (List.filter (fun e => negb (os.IsDir e)) sorted)).
  assert (Hpd : Permutation dirs (List.filter (fun e => os.IsDir e) sorted))
    by apply (proj1 (sort_Slice_ok _ lessLower _)).
  assert (Hpf : Permutation files (List.filter (fun e => negb (os.IsDir e)) sorted))
    by apply (proj1 (sort_Slice_ok _ lessLower _)).
  assert (Hdirs : Forall (listsBelow rel) dirs).
  { apply List.Forall_forall. intros e He. apply (Permutation_in _ Hpd) in He.
    apply filter_In in He. destruct He as [He Hd]. exact (proj2 (Hent e He) Hd). }
  assert (Hfiles : Forall (fun e : os.DirEntry listing =>
                             validName (os.Name e) = true /\ os.IsDir e = false) files).
  { apply List.Forall_forall. intros e He. apply (Permutation_in _ Hpf) in He.
    apply filter_In in He. destruct He as [He Hd]. apply negb_true_iff in Hd.
    split; [exact (proj1 (Hent e He)) | exact Hd]. }
  destruct (addDirs_listed rel dirs Hrel Hdirs dir []) as (dnodes & -> & Hdn).
  rewrite addFiles_spec. simpl app.
  exists (dnodes ++ map (fileNodeOf (prefixOf rel)) files)%list.
  split; [reflexivity|].
  rewrite flat_map_app, (addFiles_listed rel files Hrel Hfiles), Hdn.
  rewrite <- flat_map_app.
  change (listedIn rel (os.Dir true es))
    with (flat_map (fun xc => listedEntry rel (mk xc)) es).
  rewrite <- (flat_map_map mk (listedEntry rel)).
  apply Permutation_flat_map.
  rewrite Hpd, Hpf, filter_split_perm. exact Hsorted.
Qed.

End ListingContent.

(** X21. The listing is the workspace: for a workspace directory all of
    whose directories can be read (and whose entries have names a file
    system allows), [ListFilesRecursively] lists every file and every
    directory in it, at every depth and the [.git] directory with its
    content included, exactly once and nothing else; each node has the
    path relative to the workspace as [ID] and as [Path], the name of the
    object as [Name], and children exactly when the object is a
    directory. *)
Theorem ListFilesRecursively_content {U : strs.Unicode}
    (sort_Slice : forall A : Type, (A -> A -> bool) -> list A -> list A)
    (fs : FileSystem) (disk n : os.node) (userID workspaceID : Z) :
  sortsSlices sort_Slice ->
  os.Stat disk (GetWorkspacePath fs userID workspaceID) = Ok n ->
  os.isDir n = true -> readableAll n = true -> validNames n = true ->
  exists nodes : list FileNode,
    ListFilesRecursively sort_Slice fs disk userID workspaceID = Ok nodes /\
    Permutation (flat_map flatten nodes) (listedIn [] n).
Proof.
  intros Hsort Hstat Hdir Hread Hvalid. unfold ListFilesRecursively. cbv zeta.
  rewrite Hstat.
  exact (walkDirectory_listed sort_Slice Hsort n Hdir Hread Hvalid _ [] eq_refl).
Qed.

Lemma ListFilesRecursively_content_witness :
  exists nodes : list FileNode,
    ListFilesRecursively insertionSort sample.fs sample.plainDisk 7 12 = Ok nodes /\
    Permutation (flat_map flatten nodes) (listedIn [] sample.plainWorkspace).
Proof.
  exact (ListFilesRecursively_content insertionSort sample.fs sample.plainDisk
           sample.plainWorkspace 7 12 insertionSort_sortsSlices
           eq_refl eq_refl eq_refl eq_refl).
Defined.

Example listedIn_sample :
  listedIn [] sample.plainWorkspace
  = [("notes", "notes", "notes", true);
     ("notes/A.md", "A.md", "notes/A.md", false);
     ("NOTES", "NOTES", "NOTES", true);
     ("NOTES/a.MD", "a.MD", "NOTES/a.MD", false);
     ("b.txt", "b.txt", "b.txt", false);
     ("B.txt", "B.txt", "B.txt", false);
     ("a.md", "a.md", "a.md", false);
     ("Zed", "Zed", "Zed", true)].
Proof. reflexivity. Qed.

(** ** The search: the case of the query *)

Lemma EqualFold_query {U : strs.Unicode} (name q q' : string) :
  strs.EqualFold q q' = true -> strs.EqualFold name q = strs.EqualFold name q'.
Proof.
  intros H.
  destruct (strs.EqualFold name q) eqn:E1, (strs.EqualFold name q') eqn:E2;
    try reflexivity.
  - now rewrite <- E2, (strs.EqualFold_transitive name q q' E1 H).
  - rewrite strs.EqualFold_symmetric in H.
    now rewrite <- E1, (strs.EqualFold_transitive name q' q E2 H).
Qed.

Section WalkExt.

Context {U : strs.Unicode}.

Context {S : Type}.
Variables fn fn' : @walker.WalkFunc S.
Hypothesis fn_ext : forall path info err s, fn path info err s = fn' path info err s.

Lemma walkNames_ext (entries : list (string * os.node)) :
  Forall (fun xc => forall name path s,
              walker.walk fn name (snd xc) path s = walker.walk fn' name (snd xc) path s)
         entries ->
  forall (path : string) (s : S),
    walker.walkNames
      (map (fun xc => os.MkDirEntry (fst xc) (snd xc) (walker.walk fn (fst xc) (snd xc)))
           entries) path s
    = walker.walkNames
        (map (fun xc => os.MkDirEntry (fst xc) (snd xc) (walker.walk fn' (fst xc) (snd xc)))
             entries) path s.
Proof.
  induction 1 as [|xc entries Hx Hall IH]; intros path s; [reflexivity|].
  cbn [map walker.walkNames os.Name os.descend]. cbv zeta.
  rewrite Hx. unfold os.IsDir. cbn [os.Node].
  destruct (walker.walk fn' (fst xc) (snd xc) (filepath.Join [path; fst xc]) s)
    as [s1 [er|]]; [|apply IH].
  destruct (negb (os.isDir (snd xc)) || negb (isSkipDir er)); [reflexivity | apply IH].
Qed.

(** A walk depends on its callback only through what the callback
    returns. *)
Lemma walk_ext (n : os.node) :
  forall (name path : string) (s : S),
    walker.walk fn name n path s = walker.walk fn' name n path s.
Proof.
  induction n as [content|r es IH] using node_nested_ind; intros name path s.
  - cbn [walker.walk]. apply fn_ext.
  - cbn [walker.walk]. cbv zeta. unfold os.ReadDir. destruct r.
    + rewrite fn_ext.
      destruct (fn' path (Some (walker.infoOf name (os.Dir true es))) None s)
        as [s1 [e|]]; [reflexivity|].
      unfold os.sortByName. rewrite !sortBy_map.
      apply walkNames_ext.
      apply (Permutation_Forall (Permutation_sym (sortBy_perm _ _))). exact IH.
    + now rewrite fn_ext.
Qed.

End WalkExt.

(** X22. [FindFileByName] does not look at the case of the letters of
    the name it is asked for: two names that [strings.EqualFold] holds
    equal give the same result, paths or error, on every file system. *)
Theorem FindFileByName_query_case {U : strs.Unicode} (fs : FileSystem) (disk : os.node)
    (userID workspaceID : Z) (filename filename' : string) :
  strs.EqualFold filename filename' = true ->
  FindFileByName fs disk userID workspaceID filename
  = FindFileByName fs disk userID workspaceID filename'.
Proof.
  intros Heq. unfold FindFileByName, walker.Walk. cbv zeta.
  assert (Hfn : forall path info err s,
             findFn (GetWorkspacePath fs userID workspaceID) filename path info err s
             = findFn (GetWorkspacePath fs userID workspaceID) filename' path info err s).
  { intros path info err s. unfold findFn.
    destruct err; [reflexivity|]. destruct info as [info|]; [|reflexivity].
    now rewrite (EqualFold_query _ _ _ Heq). }
  destruct (os.Stat disk (GetWorkspacePath fs userID workspaceID)) as [n|e].
  - now rewrite (walk_ext _ _ Hfn).
  - now rewrite Hfn.
Qed.

Lemma FindFileByName_query_case_witness :
  FindFileByName sample.fs sample.plainDisk 7 12 "A.MD"
  = FindFileByName sample.fs sample.plainDisk 7 12 "a.md".
Proof.
  apply (FindFileByName_query_case sample.fs sample.plainDisk 7 12 "A.MD" "a.md").
  reflexivity.
Defined.

(** ** The search: what is found can be read *)


Lemma lookup_app (a b : list string) :
  forall n : os.node,
    os.lookup (a ++ b) n
    = match os.lookup a n with
      | Ok m => os.lookup b m
      | Err e => Err e
      end.
Proof.
  induction a as [|x a IH]; intros n; [reflexivity|].
  destruct n as [|r entries]; [reflexivity|].
  rewrite <- app_comm_cons, !lookup_cons.
  destruct (os.find x entries); [apply IH | reflexivity].
Qed.





(** ** A saved file in the workspace *)

Lemma stackOK_tail (rooted : bool) (x : string) (stack : list string) :
  stackOK rooted (x :: stack) = true -> stackOK rooted stack = true.
Proof.
  unfold stackOK. intros H. apply andb_prop in H. destruct H as [Hpl Hdd].
  simpl in Hpl. apply andb_prop in Hpl. destruct Hpl as [_ ->]. simpl.
  destruct rooted.
  - simpl in Hdd. now apply andb_prop in Hdd.
  - now apply dotsAtBottom_tail in Hdd.
Qed.

(** A separator at the end of a path is nothing to [filepath.Clean]. *)
Lemma Clean_trailing_slash (rooted : bool) (stack : list string) :
  stackOK rooted stack = true -> stack <> [] ->
  filepath.Clean (render rooted (rev stack) ++ "/") = render rooted (rev stack).
Proof.
  intros H Hne. pose proof (stackOK_plain _ _ H) as Hpl.
  assert (Hp : String.eqb (render rooted (rev stack)) "" = false)
    by exact (render_nonempty _ _ Hpl).
  change (render rooted (rev stack) ++ "/")
    with (render rooted (rev stack) ++ "/" ++ "").
  rewrite Clean_render_eq, (prefix_slash_app _ _ Hp), (HasPrefix_render _ _ Hpl).
  f_equal. unfold filepath.cleanElems. f_equal.
  rewrite splitSlash_app, fold_left_app, (render_fold_stack _ _ H). reflexivity.
Qed.

(** [filepath.Dir] of a clean path drops its last element. *)
Lemma Dir_render (rooted : bool) (stack : list string) (x : string) :
  stackOK rooted (x :: stack) = true -> stack <> [] ->
  filepath.Dir (render rooted (rev (x :: stack))) = render rooted (rev stack).
Proof.
  intros H Hne. pose proof (stackOK_plain _ _ H) as Hpl.
  pose proof (stackOK_tail _ _ _ H) as Htail.
  assert (Hrev : rev stack <> []).
  { intros E. apply (f_equal (@rev string)) in E. now rewrite rev_involutive in E. }
  assert (Hsplit : filepath.splitSlash (filepath.joinSlash (rev (x :: stack)))
                   = rev (x :: stack)).
  { apply splitSlash_joinSlash; [|now apply plain_elems_slashFree].
    simpl. now destruct (rev stack). }
  unfold filepath.Dir. destruct rooted.
  - unfold render at 1.
    change ("/" ++ filepath.joinSlash (rev (x :: stack)))
      with ("" ++ "/" ++ filepath.joinSlash (rev (x :: stack))).
    rewrite splitSlash_app, Hsplit.
    change (filepath.splitSlash "") with [""].
    rewrite rev_app_distr, rev_involutive. cbn [rev app].
    destruct (stack ++ [""])%list as [|y l] eqn:E; [now destruct stack|].
    rewrite <- E, rev_app_distr. cbn [rev app].
    replace (filepath.joinSlash ("" :: rev stack)) with (render true (rev stack)).
    + now apply Clean_trailing_slash.
    + unfold render, filepath.joinSlash. cbn [String.concat].
      destruct (rev stack); [contradiction | reflexivity].
  - assert (Hr : render false (rev (x :: stack)) = filepath.joinSlash (rev (x :: stack))).
    { unfold render. destruct (rev (x :: stack)) eqn:E; [|reflexivity].
      simpl in E. now destruct (rev stack). }
    rewrite Hr, Hsplit, rev_involutive.
    destruct stack as [|y l] eqn:E; [contradiction|]. rewrite <- E in *.
    replace (filepath.joinSlash (rev stack)) with (render false (rev stack)).
    + now apply Clean_trailing_slash.
    + unfold render. destruct (rev stack); [contradiction | reflexivity].
Qed.

(** Below an existing object, [mkdirAll] and [writeFile] act on that
    object. *)
Lemma mkdirAll_zoom (a b : list string) :
  forall disk disk0 n : os.node,
    os.lookup a disk = Ok n ->
    os.mkdirAll (a ++ b) disk = Ok disk0 ->
    exists n0, os.mkdirAll b n = Ok n0 /\ os.lookup a disk0 = Ok n0.
Proof.
  induction a as [|x a IH]; intros disk disk0 n Hl Hm.
  - simpl in Hl. inversion Hl; subst. eauto.
  - destruct disk as [|r es]; [discriminate|].
    rewrite lookup_cons in Hl. rewrite <- app_comm_cons in Hm. cbn [os.mkdirAll] in Hm.
    destruct (os.find x es) as [c|]; [|discriminate].
    destruct (os.mkdirAll (a ++ b) c) as [c'|e] eqn:Hc; inversion Hm; subst.
    destruct (IH _ _ _ Hl Hc) as (n0 & Hn0 & Hl0).
    exists n0. split; [exact Hn0|]. now rewrite lookup_cons, find_set.
Qed.

Lemma writeFile_zoom (a b : list string) (content : list byte) :
  b <> [] ->
  forall disk disk1 n : os.node,
    os.lookup a disk = Ok n ->
    os.writeFile (a ++ b) content disk = Ok disk1 ->
    exists n1, os.writeFile b content n = Ok n1 /\ os.lookup a disk1 = Ok n1.
Proof.
  intros Hb. induction a as [|x a IH]; intros disk disk1 n Hl Hw.
  - simpl in Hl. inversion Hl; subst. eauto.
  - destruct disk as [|r es]; [discriminate|].
    rewrite lookup_cons in Hl. rewrite <- app_comm_cons in Hw. cbn [os.writeFile] in Hw.
    destruct (a ++ b)%list as [|y l] eqn:E; [now destruct a, b|]. rewrite <- E in *.
    destruct (os.find x es) as [c|]; [|discriminate].
    destruct (os.writeFile (a ++ b) content c) as [c'|e] eqn:Hc; inversion Hw; subst.
    destruct (IH _ _ _ Hl Hc) as (n1 & Hn1 & Hl1).
    exists n1. split; [exact Hn1|]. now rewrite lookup_cons, find_set.
Qed.

Lemma forallb_set (p : string * os.node -> bool) (x : string) (c : os.node)
    (entries : list (string * os.node)) :
  forallb p entries = true -> p (x, c) = true ->
  forallb p (os.set x c entries) = true.
Proof.
  intros H Hp. induction entries as [|[y d] rest IH]; simpl; [now rewrite Hp|].
  simpl in H. apply andb_prop in H. destruct H as [Hy Hrest].
  destruct (String.eqb x y); simpl.
  - now rewrite Hp, Hrest.
  - now rewrite Hy, IH.
Qed.

(** Directories made under valid names keep the tree of valid names and
    readable. *)
Lemma mkdirAll_wellFormed (elems : list string) :
  forallb validName elems = true ->
  forall n n0 : os.node,
    os.mkdirAll elems n = Ok n0 ->
    validNames n = true -> readableAll n = true ->
    validNames n0 = true /\ readableAll n0 = true /\ os.isDir n0 = true.
Proof.
  induction elems as [|x rest IH]; intros Hn n n0 Hm Hv Hr.
  - destruct n; simpl in Hm; inversion Hm; subst. now repeat split.
  - destruct n as [|r es]; simpl in Hm; [discriminate|].
    simpl in Hn. apply andb_prop in Hn. destruct Hn as [Hx Hrest].
    destruct (os.mkdirAll rest match os.find x es with
                               | Some c => c
                               | None => os.Dir true []
                               end) as [c'|e] eqn:Hc; inversion Hm; subst.
    assert (Hsub : validNames c' = true /\ readableAll c' = true /\ os.isDir c' = true).
    { apply (IH Hrest _ _ Hc).
      - destruct (os.find x es) as [c|] eqn:Hf; [|reflexivity].
        simpl in Hv. clear -Hv Hf. induction es as [|[y d] es IHes]; [discriminate|].
        simpl in *. apply andb_prop in Hv. destruct Hv as [Hy Hes].
        destruct (String.eqb x y); [|now apply IHes].
        inversion Hf; subst. now apply andb_prop in Hy.
      - destruct (os.find x es) as [c|] eqn:Hf; [|reflexivity].
        simpl in Hr. apply andb_prop in Hr. destruct Hr as [_ Hr].
        clear -Hr Hf. induction es as [|[y d] es IHes]; [discriminate|].
        simpl in *. apply andb_prop in Hr. destruct Hr as [Hy Hes].
        destruct (String.eqb x y); [|now apply IHes].
        now inversion Hf; subst. }
    destruct Hsub as (Hv' & Hr' & _). simpl in Hv, Hr.
    apply andb_prop in Hr. destruct Hr as [-> Hr]. simpl.
    repeat split.
    + apply forallb_set; [exact Hv | simpl; now rewrite Hx, Hv'].
    + apply forallb_set; [exact Hr | exact Hr'].
Qed.

(** A file written under valid names keeps the tree of valid names and
    readable. *)
Lemma writeFile_wellFormed (elems : list string) (content : list byte) :
  forallb validName elems = true ->
  forall n n1 : os.node,
    os.writeFile elems content n = Ok n1 ->
    validNames n = true -> readableAll n = true ->
    validNames n1 = true /\ readableAll n1 = true /\ os.isDir n1 = true.
Proof.
  induction elems as [|x rest IH]; intros Hn n n1 Hw Hv Hr.
  - destruct n; simpl in Hw; discriminate.
  - destruct n as [|r es]; simpl in Hw; [discriminate|].
    simpl in Hn. apply andb_prop in Hn. destruct Hn as [Hx Hrest].
    simpl in Hv, Hr. apply andb_prop in Hr. destruct Hr as [-> Hr].
    destruct rest as [|y rest'].
    + assert (n1 = os.Dir true (os.set x (os.File content) es)) as ->
        by (destruct (os.find x es) as [[|]|]; now inversion Hw).
      simpl. repeat split.
      * apply forallb_set; [exact Hv | simpl; now rewrite Hx].
      * apply forallb_set; [exact Hr | reflexivity].
    + destruct (os.find x es) as [c|] eqn:Hf; [|discriminate].
      destruct (os.writeFile (y :: rest') content c) as [c'|e] eqn:Hc;
        inversion Hw; subst.
      assert (Hsub : validNames c' = true /\ readableAll c' = true /\ os.isDir c' = true).
      { apply (IH Hrest _ _ Hc).
        - clear -Hv Hf. induction es as [|[z d] es IHes]; [discriminate|].
          simpl in *. apply andb_prop in Hv. destruct Hv as [Hz Hes].
          destruct (String.eqb x z); [|now apply IHes].
          inversion Hf; subst. now apply andb_prop in Hz.
        - clear -Hr Hf. induction es as [|[z d] es IHes]; [discriminate|].
          simpl in *. apply andb_prop in Hr. destruct Hr as [Hz Hes].
          destruct (String.eqb x z); [|now apply IHes].
          now inversion Hf; subst. }
      destruct Hsub as (Hv' & Hr' & _). simpl. repeat split.
      * apply forallb_set; [exact Hv | simpl; now rewrite Hx, Hv'].
      * apply forallb_set; [exact Hr | exact Hr'].
Qed.

Lemma resolve_workspace_below (fs : FileSystem) (userID workspaceID : Z)
    (names : list string) :
  let rooted := strs.HasPrefix (RootDir fs) "/" in
  let base := fold_left (filepath.cleanStep rooted) (filepath.splitSlash (RootDir fs)) [] in
  forallb validName names = true ->
  os.resolve (render rooted
                (rev (below (fmt.Sprintf_d workspaceID :: fmt.Sprintf_d userID :: base)
                            names)))
  = (os.resolve (GetWorkspacePath fs userID workspaceID) ++ names)%list.
Proof.
  cbv zeta. intros Hn.
  destruct (GetWorkspacePath_elems fs userID workspaceID) as [Hok _].
  rewrite (resolve_render _ _ (stackOK_below _ _ _ Hok Hn)), resolve_GetWorkspacePath.
  unfold below. rewrite rev_app_distr, rev_involutive. simpl rev.
  rewrite <- !app_assoc. unfold os.resolve, filepath.cleanElems. apply dropDotDot_app.
  pose proof (Sprintf_d_validName userID) as Hu. unfold validName in Hu.
  apply andb_prop in Hu. now apply negb_true_iff.
Qed.

(** What a successful [SaveFile] makes of an existing workspace: the
    workspace directory, still of valid names and readable, with the file
    where the names of the path lead. *)
Lemma SaveFile_workspace (fs : FileSystem) (disk disk' n : os.node)
    (userID workspaceID : Z) (filePath : string) (content : list byte) :
  os.Stat disk (GetWorkspacePath fs userID workspaceID) = Ok n ->
  os.isDir n = true -> validNames n = true -> readableAll n = true ->
  dotDotFree filePath = true ->
  SaveFile fs disk userID workspaceID filePath content = (disk', None) ->
  exists n0 n' : os.node,
    os.mkdirAll (removelast (keptNames filePath)) n = Ok n0 /\
    os.writeFile (keptNames filePath) content n0 = Ok n' /\
    os.Stat disk' (GetWorkspacePath fs userID workspaceID) = Ok n' /\
    os.isDir n' = true /\ validNames n' = true /\ readableAll n' = true /\
    keptNames filePath <> [] /\
    os.lookup (keptNames filePath) n' = Ok (os.File content).
Proof.
  intros Hstat Hdir Hvalid Hread Hdd Hsave.
  pose proof (keptNames_valid _ Hdd) as Hvn.
  destruct (GetWorkspacePath_elems fs userID workspaceID) as [Hok Hws].
  set (rooted := strs.HasPrefix (RootDir fs) "/") in *.
  set (B := fmt.Sprintf_d workspaceID :: fmt.Sprintf_d userID
            :: fold_left (filepath.cleanStep rooted)
                 (filepath.splitSlash (RootDir fs)) []) in *.
  assert (HB : B <> []) by discriminate.
  pose proof (ValidatePath_below fs userID workspaceID filePath rooted B Hok HB Hws Hdd)
    as Hv.
  pose proof (resolve_workspace_below fs userID workspaceID _ Hvn) as Hfull.
  cbv zeta in Hfull. fold rooted in Hfull. fold B in Hfull.
  unfold SaveFile, os.MkdirAll, os.WriteFile in Hsave. cbv zeta in Hsave.
  rewrite Hv in Hsave.
  destruct (os.mkdirAll
              (os.resolve (filepath.Dir (render rooted (rev (below B (keptNames filePath))))))
              disk) as [disk0|e] eqn:Hm; [|inversion Hsave].
  destruct (os.writeFile (os.resolve (render rooted (rev (below B (keptNames filePath)))))
                         content disk0) as [disk1|e] eqn:Hw; inversion Hsave; subst disk1.
  rewrite Hfull in Hw. unfold os.Stat in *.
  destruct (keptNames filePath) as [|x0 l0] eqn:Ek using rev_ind.
  - (* the path names the workspace directory itself *)
    exfalso. rewrite app_nil_r in Hw.
    destruct (mkdirAll_keeps _ _ _ _ _ Hm Hstat) as (m' & Hl0 & Hk & _).
    rewrite Hdir in Hk. destruct m' as [|r0 es0]; [discriminate|].
    destruct (writeFile_keeps_dirs _ _ _ _ _ _ _ Hw Hl0) as (r1 & es1 & Hl1).
    rewrite (writeFile_lookup _ _ _ _ Hw) in Hl1. discriminate.
  - rename l0 into names'.
    rewrite forallb_app in Hvn. apply andb_prop in Hvn. destruct Hvn as [Hvn' Hlast].
    assert (Hbelow : below B (names' ++ [x0]) = x0 :: below B names').
    { unfold below. now rewrite rev_app_distr. }
    rewrite Hbelow in Hm.
    assert (Hok' : stackOK rooted (x0 :: below B names') = true).
    { rewrite <- Hbelow. apply stackOK_below; [exact Hok|].
      now rewrite forallb_app, Hvn', Hlast. }
    rewrite (Dir_render _ _ _ Hok') in Hm by (unfold below; now destruct (rev names')).
    pose proof (resolve_workspace_below fs userID workspaceID _ Hvn') as Hdirp.
    cbv zeta in Hdirp. fold rooted in Hdirp. fold B in Hdirp. rewrite Hdirp in Hm.
    destruct (mkdirAll_zoom _ _ _ _ _ Hstat Hm) as (n0 & Hn0 & Hl0).
    assert (Hne : (names' ++ [x0])%list <> []) by now destruct names'.
    destruct (writeFile_zoom _ _ content Hne _ _ _ Hl0 Hw) as (n1 & Hn1 & Hl1).
    destruct (mkdirAll_wellFormed _ Hvn' _ _ Hn0 Hvalid Hread) as (Hv0 & Hr0 & _).
    assert (Hvn : forallb validName (names' ++ [x0]) = true)
      by now rewrite forallb_app, Hvn', Hlast.
    destruct (writeFile_wellFormed _ content Hvn _ _ Hn1 Hv0 Hr0) as (Hv1 & Hr1 & Hd1).
    exists n0, n1. rewrite removelast_last.
    repeat split; try assumption.
    exact (writeFile_lookup _ _ _ _ Hn1).
Qed.

Lemma find_In (x : string) (c : os.node) (entries : list (string * os.node)) :
  os.find x entries = Some c -> In (x, c) entries.
Proof.
  induction entries as [|[y d] rest IH]; simpl; [discriminate|].
  destruct (String.eqb x y) eqn:E.
  - apply String.eqb_eq in E. intros [= ->]. left. now subst.
  - intros H. right. now apply IH.
Qed.

Lemma last_cons (x d : string) (l : list string) :
  List.last (x :: l) d = List.last l x.
Proof.
  revert x d. induction l as [|y l IH]; intros x d; [reflexivity|].
  change (List.last (x :: y :: l) d) with (List.last (y :: l) d).
  now rewrite !IH.
Qed.

Lemma last_default (l : list string) (d d' : string) :
  l <> [] -> List.last l d = List.last l d'.
Proof. destruct l as [|x l]; [contradiction|]. intros _. now rewrite !last_cons. Qed.

(** A file is among the files a walk meets. *)
Lemma lookup_filesInWalkOrder (suffix : list string) :
  forall (n : os.node) (content : list byte) (name : string) (rel : list string),
    os.lookup suffix n = Ok (os.File content) ->
    In ((rel ++ suffix)%list, List.last suffix name) (filesInWalkOrder name n rel).
Proof.
  induction suffix as [|x suffix IH]; intros n content name rel Hl.
  - simpl in Hl. inversion Hl; subst. rewrite app_nil_r. now left.
  - destruct n as [|r es]; [discriminate|]. rewrite lookup_cons in Hl.
    destruct (os.find x es) as [c|] eqn:Hf; [|discriminate].
    cbn [filesInWalkOrder]. apply in_flat_map.
    exists (os.MkDirEntry x c (filesInWalkOrder x c)). split.
    + apply (Permutation_in _ (Permutation_sym (sortByName_perm _))).
      apply in_map_iff. exists (x, c). split; [reflexivity | now apply find_In].
    + cbn [os.descend os.Name]. rewrite last_cons.
      replace (rel ++ x :: suffix)%list with ((rel ++ [x]) ++ suffix)%list
        by now rewrite <- app_assoc.
      exact (IH _ _ _ _ Hl).
Qed.

(** An object of a directory is among what is to be listed. *)
Lemma lookup_listedIn (suffix : list string) :
  suffix <> [] ->
  forall (n m : os.node) (rel : list string),
    os.lookup suffix n = Ok m ->
    In (filepath.joinSlash (rel ++ suffix), List.last suffix "",
        filepath.joinSlash (rel ++ suffix), os.isDir m) (listedIn rel n).
Proof.
  induction suffix as [|x suffix IH]; intros Hne n m rel Hl; [contradiction|].
  destruct n as [|r es]; [discriminate|]. rewrite lookup_cons in Hl.
  destruct (os.find x es) as [c|] eqn:Hf; [|discriminate].
  cbn [listedIn]. apply in_flat_map. exists (x, c).
  split; [now apply find_In|]. cbn [fst snd]. rewrite listedBelow_eq.
  destruct suffix as [|y suffix].
  - simpl in Hl. inversion Hl; subst. now left.
  - right. rewrite last_cons.
    replace (rel ++ x :: y :: suffix)%list with ((rel ++ [x]) ++ y :: suffix)%list
      by now rewrite <- app_assoc.
    rewrite <- (last_default (y :: suffix) "" x) by discriminate.
    apply IH; [discriminate | exact Hl].
Qed.

(** X24. What [SaveFile] saves, [FindFileByName] finds: after a
    successful save, through a path without [..], into an existing
    workspace whose directories can be read (and whose entries have names
    a file system allows), the search for the name of the file succeeds
    and the cleaned relative path of the file is among the paths
    returned. *)
Theorem SaveFile_FindFileByName {U : strs.Unicode} (fs : FileSystem) (disk disk' n : os.node)
    (userID workspaceID : Z) (filePath : string) (content : list byte) :
  os.Stat disk (GetWorkspacePath fs userID workspaceID) = Ok n ->
  os.isDir n = true -> validNames n = true -> readableAll n = true ->
  dotDotFree filePath = true ->
  SaveFile fs disk userID workspaceID filePath content = (disk', None) ->
  exists paths : list string,
    FindFileByName fs disk' userID workspaceID (List.last (keptNames filePath) "")
    = Ok paths /\
    In (filepath.joinSlash (keptNames filePath)) paths.
Proof.
  intros Hstat Hdir Hvalid Hread Hdd Hsave.
  destruct (SaveFile_workspace _ _ _ _ _ _ _ _ Hstat Hdir Hvalid Hread Hdd Hsave)
    as (n0 & n' & _ & _ & Hstat' & _ & Hv' & Hr' & Hne & Hl).
  destruct (GetWorkspacePath_clean fs userID workspaceID) as (rooted & stack & Hok & Hws).
  unfold FindFileByName, walker.Walk. rewrite Hstat', Hws.
  rewrite (Base_render _ _ _ Hok).
  pose proof (walk_find rooted _ (List.last (keptNames filePath) "") Hok n'
                (fmt.Sprintf_d workspaceID) [] [] Hv' Hr' eq_refl) as Hwalk.
  unfold below in Hwalk. simpl app in Hwalk. rewrite Hwalk.
  cbn [walker.rootError].
  assert (Hin : In (filepath.joinSlash (keptNames filePath))
                   (matchingPaths (List.last (keptNames filePath) "")
                      (filesInWalkOrder (fmt.Sprintf_d workspaceID) n' []))).
  { unfold matchingPaths. apply in_map_iff.
    exists (keptNames filePath, List.last (keptNames filePath) (fmt.Sprintf_d workspaceID)).
    split.
    - cbn [fst]. unfold relString. now destruct (keptNames filePath).
    - apply filter_In. split.
      + exact (lookup_filesInWalkOrder _ _ _ (fmt.Sprintf_d workspaceID) [] Hl).
      + cbn [snd]. rewrite (last_default _ _ "" Hne). apply strs.EqualFold_reflexive. }
  destruct (matchingPaths _ _) as [|p0 ps]; [contradiction|]. eauto.
Qed.

Lemma SaveFile_FindFileByName_witness :
  exists paths : list string,
    FindFileByName sample.fs
      (fst (SaveFile sample.fs sample.plainDisk 7 12 "docs//./new.md" [x01]))
      7 12 (List.last (keptNames "docs//./new.md") "") = Ok paths /\
    In (filepath.joinSlash (keptNames "docs//./new.md")) paths.
Proof.
  apply (SaveFile_FindFileByName sample.fs sample.plainDisk _ sample.plainWorkspace
           7 12 "docs//./new.md" [x01]); reflexivity.
Defined.

(** X25. What [SaveFile] saves, [ListFilesRecursively] lists: after a
    successful save, through a path without [..], into an existing
    workspace whose directories can be read (and whose entries have names
    a file system allows), the listing succeeds and has a node without
    children for the file, with the cleaned relative path as [ID] and
    [Path] and the last name of the path as [Name]. *)
Theorem SaveFile_ListFilesRecursively {U : strs.Unicode}
    (sort_Slice : forall A : Type, (A -> A -> bool) -> list A -> list A)
    (fs : FileSystem) (disk disk' n : os.node)
    (userID workspaceID : Z) (filePath : string) (content : list byte) :
  sortsSlices sort_Slice ->
  os.Stat disk (GetWorkspacePath fs userID workspaceID) = Ok n ->
  os.isDir n = true -> validNames n = true -> readableAll n = true ->
  dotDotFree filePath = true ->
  SaveFile fs disk userID workspaceID filePath content = (disk', None) ->
  exists nodes : list FileNode,
    ListFilesRecursively sort_Slice fs disk' userID workspaceID = Ok nodes /\
    In (filepath.joinSlash (keptNames filePath), List.last (keptNames filePath) "",
        filepath.joinSlash (keptNames filePath), false)
       (flat_map flatten nodes).
Proof.
  intros Hsort Hstat Hdir Hvalid Hread Hdd Hsave.
  destruct (SaveFile_workspace _ _ _ _ _ _ _ _ Hstat Hdir Hvalid Hread Hdd Hsave)
    as (n0 & n' & _ & _ & Hstat' & Hd' & Hv' & Hr' & Hne & Hl).
  unfold ListFilesRecursively. cbv zeta. rewrite Hstat'.
  destruct (walkDirectory_listed sort_Slice Hsort n' Hd' Hr' Hv'
              (GetWorkspacePath fs userID workspaceID) [] eq_refl)
    as (nodes & Hw & Hperm).
  exists nodes. split; [exact Hw|].
  apply (Permutation_in _ (Permutation_sym Hperm)).
  exact (lookup_listedIn _ Hne _ _ [] Hl).
Qed.

Lemma SaveFile_ListFilesRecursively_witness :
  exists nodes : list FileNode,
    ListFilesRecursively insertionSort sample.fs
      (fst (SaveFile sample.fs sample.plainDisk 7 12 "docs//./new.md" [x01])) 7 12
    = Ok nodes /\
    In ("docs/new.md", "new.md", "docs/new.md", false) (flat_map flatten nodes).
Proof.
  apply (SaveFile_ListFilesRecursively insertionSort sample.fs sample.plainDisk _
           sample.plainWorkspace 7 12 "docs//./new.md" [x01]);
    try reflexivity.
  exact insertionSort_sortsSlices.
Defined.

(** ** The statistics after a save *)

Lemma set_split (x : string) (c : os.node) (entries : list (string * os.node)) :
  os.find x entries = Some c ->
  exists l1 l2,
    entries = (l1 ++ (x, c) :: l2)%list /\
    forall c', os.set x c' entries = (l1 ++ (x, c') :: l2)%list.
Proof.
  induction entries as [|[y d] rest IH]; simpl; [discriminate|].
  destruct (String.eqb x y) eqn:E.
  - apply String.eqb_eq in E. subst y. intros [= ->]. now exists [], rest.
  - intros H. destruct (IH H) as (l1 & l2 & -> & Hset).
    exists ((y, d) :: l1), l2. split; [reflexivity|].
    intros c'. simpl. now rewrite Hset.
Qed.

Lemma set_absent (x : string) (c' : os.node) (entries : list (string * os.node)) :
  os.find x entries = None -> os.set x c' entries = (entries ++ [(x, c')])%list.
Proof.
  induction entries as [|[y d] rest IH]; simpl; [reflexivity|].
  destruct (String.eqb x y); [discriminate|]. intros H. now rewrite (IH H).
Qed.

(** Making directories adds no file to what is counted. *)
Lemma mkdirAll_counted (elems : list string) :
  forall (n n0 : os.node) (name : string),
    os.mkdirAll elems n = Ok n0 -> countedSizes name n0 = countedSizes name n.
Proof.
  induction elems as [|x rest IH]; intros n n0 name Hm.
  - destruct n; simpl in Hm; now inversion Hm.
  - destruct n as [|r es]; simpl in Hm; [discriminate|].
    destruct (os.mkdirAll rest match os.find x es with
                               | Some c => c
                               | None => os.Dir true []
                               end) as [c'|e] eqn:Hc; inversion Hm; subst.
    cbn [countedSizes]. destruct (String.eqb name ".git"); [reflexivity|].
    pose proof (IH _ _ x Hc) as Hx.
    destruct (os.find x es) as [c|] eqn:Hf.
    + destruct (set_split _ _ _ Hf) as (l1 & l2 & -> & Hset).
      rewrite Hset, !flat_map_app. cbn [flat_map fst snd]. now rewrite Hx.
    + rewrite (set_absent _ _ _ Hf), flat_map_app. cbn [flat_map fst snd].
      rewrite Hx. cbn [countedSizes].
      destruct (String.eqb x ".git"); now rewrite !app_nil_r.
Qed.

(** Making directories makes no file. *)
Lemma mkdirAll_no_file (elems : list string) :
  forall (n n0 : os.node) (p : list string) (content : list byte),
    os.mkdirAll elems n = Ok n0 ->
    os.lookup p n0 = Ok (os.File content) -> os.lookup p n = Ok (os.File content).
Proof.
  induction elems as [|x rest IH]; intros n n0 p content Hm Hl.
  - destruct n; simpl in Hm; inversion Hm; now subst.
  - destruct n as [|r es]; simpl in Hm; [discriminate|].
    destruct (os.mkdirAll rest match os.find x es with
                               | Some c => c
                               | None => os.Dir true []
                               end) as [c'|e] eqn:Hc; inversion Hm; subst.
    destruct p as [|y p']; [discriminate|].
    rewrite lookup_cons in Hl. rewrite lookup_cons.
    destruct (decide (x = y)) as [->|Hne].
    + rewrite find_set in Hl. pose proof (IH _ _ _ _ Hc Hl) as Hl'.
      destruct (os.find y es) as [c|]; [exact Hl'|].
      destruct p'; simpl in Hl'; discriminate.
    + now rewrite (find_set_other _ _ _ _ Hne) in Hl.
Qed.

Lemma sizeAt_mkdirAll (elems names : list string) (n n0 : os.node) :
  os.mkdirAll elems n = Ok n0 -> sizeAt names n0 = sizeAt names n.
Proof.
  intros Hm. unfold sizeAt.
  destruct (os.lookup names n0) as [[c|r es]|e] eqn:H0.
  - now rewrite (mkdirAll_no_file _ _ _ _ _ Hm H0).
  - destruct (os.lookup names n) as [[c|r1 es1]|e1] eqn:H1; try reflexivity.
    destruct (mkdirAll_keeps _ _ _ _ _ Hm H1) as (m' & Hm' & _ & Hsame).
    rewrite (Hsame eq_refl) in Hm'. congruence.
  - destruct (os.lookup names n) as [[c|r1 es1]|e1] eqn:H1; try reflexivity.
    destruct (mkdirAll_keeps _ _ _ _ _ Hm H1) as (m' & Hm' & _ & Hsame).
    rewrite (Hsame eq_refl) in Hm'. congruence.
Qed.

(** The written file takes the place of the file that was there, if
    any, among what is counted. *)
Lemma writeFile_counted (elems : list string) (content : list byte) :
  noGit (removelast elems) = true ->
  forall (n n1 : os.node) (name : string),
    String.eqb name ".git" = false ->
    os.writeFile elems content n = Ok n1 ->
    Permutation (sizeAt elems n ++ countedSizes name n1)
                (Z.of_nat (List.length content) :: countedSizes name n).
Proof.
  induction elems as [|x rest IH]; intros Hgit n n1 name Hname Hw.
  - destruct n; simpl in Hw; discriminate.
  - destruct n as [|r es]; simpl in Hw; [discriminate|].
    unfold sizeAt. rewrite lookup_cons.
    destruct rest as [|y rest'].
    + destruct (os.find x es) as [[old|r0 es0]|] eqn:Hf; inversion Hw; subst;
        cbn [countedSizes]; rewrite !Hname.
      * destruct (set_split _ _ _ Hf) as (l1 & l2 & -> & Hset).
        rewrite Hset, !flat_map_app. cbn [os.lookup flat_map fst snd countedSizes os.size].
        cbn [app]. rewrite <- !Permutation_middle. apply perm_swap.
      * rewrite (set_absent _ _ _ Hf), flat_map_app.
        cbn [flat_map fst snd countedSizes os.size app]. rewrite ?app_nil_r.
        symmetry. apply Permutation_cons_append.
    + destruct (os.find x es) as [c|] eqn:Hf; [|discriminate].
      destruct (os.writeFile (y :: rest') content c) as [c'|e] eqn:Hc;
        inversion Hw; subst.
      cbn [countedSizes]. rewrite !Hname.
      change (removelast (x :: y :: rest')) with (x :: removelast (y :: rest')) in Hgit.
      simpl in Hgit. apply andb_prop in Hgit. destruct Hgit as [Hx Hgit].
      apply negb_true_iff in Hx.
      pose proof (IH Hgit _ _ x Hx Hc) as Hperm. unfold sizeAt in Hperm.
      destruct (set_split _ _ _ Hf) as (l1 & l2 & -> & Hset).
      rewrite Hset, !flat_map_app. cbn [flat_map fst snd].
      set (S := match os.lookup (y :: rest') c with
                | Ok (os.File content0) => [Z.of_nat (List.length content0)]
                | _ => []
                end) in *.
      set (F1 := flat_map (fun xc => countedSizes (fst xc) (snd xc)) l1).
      set (F2 := flat_map (fun xc => countedSizes (fst xc) (snd xc)) l2).
      transitivity (F1 ++ (S ++ countedSizes x c') ++ F2)%list.
      * rewrite <- !app_assoc, !app_assoc.
        apply Permutation_app_tail. rewrite <- !app_assoc.
        rewrite (app_assoc S F1), (Permutation_app_comm S F1), <- app_assoc.
        reflexivity.
      * rewrite Hperm. cbn [app]. symmetry. apply Permutation_middle.
Qed.

Lemma readableAll_outside (n : os.node) :
  readableAll n = true -> forall name, readableOutsideGit name n = true.
Proof.
  induction n as [content|r es IH] using node_nested_ind; intros Hr name;
    [reflexivity|].
  simpl in *. apply andb_prop in Hr. destruct Hr as [-> Hr].
  apply orb_true_iff. right. simpl.
  rewrite forallb_forall in *. rewrite List.Forall_forall in IH.
  intros xc Hin. exact (IH xc Hin (Hr xc Hin) _).
Qed.

(** The statistics of an existing workspace all of whose directories
    can be read. *)
Lemma GetFileStats_counted (fs : FileSystem) (disk n : os.node) (userID workspaceID : Z) :
  os.Stat disk (GetWorkspacePath fs userID workspaceID) = Ok n ->
  validNames n = true -> readableAll n = true ->
  GetFileStats fs disk userID workspaceID
  = Ok (counted 0 0 (countedSizes (fmt.Sprintf_d workspaceID) n)).
Proof.
  intros Hstat Hvalid Hread.
  destruct (GetWorkspacePath_clean fs userID workspaceID) as (rooted & stack & Hok & Hws).
  unfold GetFileStats, countFilesInPath, walker.WalkDir. rewrite Hstat.
  cbn [os.IsNotExist]. rewrite Hws, (Base_render _ _ _ Hok).
  pose proof (walkDir_count rooted _ Hok n (fmt.Sprintf_d workspaceID) [] 0 0
                Hvalid (readableAll_outside n Hread _) eq_refl) as Hwalk.
  unfold below in Hwalk. simpl app in Hwalk.
  change (wrap64 0) with 0 in Hwalk. now rewrite Hwalk.
Qed.

(** X26. The statistics follow a save: after a successful [SaveFile],
    through a path without [..] and through no [.git] directory, into an
    existing workspace whose directories can be read (and whose entries
    have names a file system allows), [GetFileStats] counts one file more
    and the bytes written more when the file is new, and the same number
    of files with the old size replaced by the new one when the file was
    there (in the 64-bit arithmetic of the counters). *)
Theorem SaveFile_GetFileStats (fs : FileSystem) (disk disk' n : os.node)
    (userID workspaceID : Z) (filePath : string) (content : list byte) :
  os.Stat disk (GetWorkspacePath fs userID workspaceID) = Ok n ->
  os.isDir n = true -> validNames n = true -> readableAll n = true ->
  dotDotFree filePath = true ->
  noGit (removelast (keptNames filePath)) = true ->
  SaveFile fs disk userID workspaceID filePath content = (disk', None) ->
  exists before after : FileCountStats,
    GetFileStats fs disk userID workspaceID = Ok before /\
    GetFileStats fs disk' userID workspaceID = Ok after /\
    match GetFileContent fs disk userID workspaceID filePath with
    | Ok old =>
        TotalFiles after = TotalFiles before /\
        TotalSize after
        = wrap64 (TotalSize before - Z.of_nat (List.length old)
                  + Z.of_nat (List.length content))
    | Err _ =>
        TotalFiles after = add64 (TotalFiles before) 1 /\
        TotalSize after = add64 (TotalSize before) (Z.of_nat (List.length content))
    end.
Proof.
  intros Hstat Hdir Hvalid Hread Hdd Hgit Hsave.
  destruct (SaveFile_workspace _ _ _ _ _ _ _ _ Hstat Hdir Hvalid Hread Hdd Hsave)
    as (n0 & n' & Hm & Hw & Hstat' & _ & Hv' & Hr' & Hne & _).
  destruct (Sprintf_d_decimal workspaceID) as [Hwc Hwn].
  destruct (decimal_validName _ Hwc Hwn) as [_ Egit].
  exists (counted 0 0 (countedSizes (fmt.Sprintf_d workspaceID) n)),
         (counted 0 0 (countedSizes (fmt.Sprintf_d workspaceID) n')).
  split; [exact (GetFileStats_counted _ _ _ _ _ Hstat Hvalid Hread)|].
  split; [exact (GetFileStats_counted _ _ _ _ _ Hstat' Hv' Hr')|].
  pose proof (writeFile_counted _ content Hgit _ _ _ Egit Hw) as Hperm.
  rewrite (sizeAt_mkdirAll _ _ _ _ Hm), (mkdirAll_counted _ _ _ _ Hm) in Hperm.
  destruct (resolve_ValidatePath fs userID workspaceID filePath Hdd) as (full & Hv & Hr).
  assert (Hget : os.lookup (os.resolve full) disk = os.lookup (keptNames filePath) n).
  { rewrite Hr.
    change (os.resolve (RootDir fs)
            ++ fmt.Sprintf_d userID :: fmt.Sprintf_d workspaceID :: keptNames filePath)%list
      with (os.resolve (RootDir fs)
            ++ ([fmt.Sprintf_d userID; fmt.Sprintf_d workspaceID]
                ++ keptNames filePath))%list.
    rewrite app_assoc, <- resolve_GetWorkspacePath, lookup_app.
    unfold os.Stat in Hstat. now rewrite Hstat. }
  unfold GetFileContent, os.ReadFile. rewrite Hv, Hget.
  unfold sizeAt in Hperm. unfold counted, add64. cbn [TotalFiles TotalSize].
  set (C := countedSizes (fmt.Sprintf_d workspaceID) n) in *.
  set (C' := countedSizes (fmt.Sprintf_d workspaceID) n') in *.
  assert (Hcases : forall S : list Z,
             Permutation (S ++ C') (Z.of_nat (List.length content) :: C) ->
             Z.of_nat (List.length C') = Z.of_nat (List.length C) + 1
                                         - Z.of_nat (List.length S) /\
             sumZ C' = sumZ C + Z.of_nat (List.length content) - sumZ S).
  { intros S HS. split.
    - apply Permutation_length in HS. rewrite length_app in HS. simpl in HS. lia.
    - apply sumZ_perm in HS. rewrite sumZ_app in HS. simpl in HS. lia. }
  destruct (os.lookup (keptNames filePath) n) as [[old|r es]|e];
    destruct (Hcases _ Hperm) as [Hlen Hsum]; rewrite Hlen, Hsum;
    cbn [List.length sumZ fold_right].
  - split; [f_equal; lia|].
    replace (wrap64 (0 + sumZ C) - Z.of_nat (List.length old)
             + Z.of_nat (List.length content))
      with (wrap64 (0 + sumZ C)
            + (Z.of_nat (List.length content) - Z.of_nat (List.length old))) by ring.
    rewrite wrap64_add. f_equal. lia.
  - rewrite !wrap64_add. split; f_equal; lia.
  - rewrite !wrap64_add. split; f_equal; lia.
Qed.

Lemma SaveFile_GetFileStats_witness :
  exists before after : FileCountStats,
    GetFileStats sample.fs sample.plainDisk 7 12 = Ok before /\
    GetFileStats sample.fs
      (fst (SaveFile sample.fs sample.plainDisk 7 12 "a.md" [x01])) 7 12 = Ok after /\
    match GetFileContent sample.fs sample.plainDisk 7 12 "a.md" with
    | Ok old =>
        TotalFiles after = TotalFiles before /\
        TotalSize after
        = wrap64 (TotalSize before - Z.of_nat (List.length old) + Z.of_nat 1)
    | Err _ =>
        TotalFiles after = add64 (TotalFiles before) 1 /\
        TotalSize after = add64 (TotalSize before) (Z.of_nat 1)
    end.
Proof.
  apply (SaveFile_GetFileStats sample.fs sample.plainDisk _ sample.plainWorkspace
           7 12 "a.md" [x01]); reflexivity.
Defined.

(** ** Git calls stay in the workspace *)

Ltac calls_done :=
  first
    [ exists (@nil git.Op); split; [now rewrite app_nil_r | constructor]
    | eexists [_]; split; [reflexivity | repeat constructor]
    | eexists [_; _]; split; [apply snoc2 | repeat constructor]
    | eexists [_; _; _]; split; [apply snoc3 | repeat constructor] ].

Lemma callsOn_trans (workDir : string) (auth : git.BasicAuth) (w w1 w2 : git.World) :
  callsOn workDir auth w w1 -> callsOn workDir auth w1 w2 -> callsOn workDir auth w w2.
Proof.
  intros (ops1 & H1 & F1) (ops2 & H2 & F2). exists (ops1 ++ ops2)%list.
  split; [now rewrite H2, H1, app_assoc | now apply Forall_app].
Qed.

Lemma Commit_calls (env : git.Env) (c : git.client) (message : string)
    (w w1 : git.World) (res : result git.CommitHash) (r : string) (auth : git.BasicAuth) :
  (forall r', git.repo c = Some r' -> r' = r) ->
  git.Commit env c message w = (w1, res) -> callsOn r auth w w1.
Proof.
  intros Hr H. unfold callsOn. git_unfold.
  destruct (git.repo c) as [r'|]; [rewrite (Hr r' eq_refl) in H|];
    simpl in H; git_cases; inversion H; subst; simpl; calls_done.
Qed.

Lemma Push_calls (env : git.Env) (c : git.client) (w w1 : git.World)
    (err : option error) (r : string) :
  (forall r', git.repo c = Some r' -> r' = r) ->
  git.Push env c w = (w1, err) -> callsOn r (git.authOf c) w w1.
Proof.
  intros Hr H. unfold callsOn. git_unfold.
  destruct (git.repo c) as [r'|]; [rewrite (Hr r' eq_refl) in H|];
    simpl in H; git_cases; inversion H; subst; simpl; calls_done.
Qed.

Lemma Pull_calls (env : git.Env) (c : git.client) (w w1 : git.World)
    (err : option error) (r : string) :
  (forall r', git.repo c = Some r' -> r' = r) ->
  git.Pull env c w = (w1, err) -> callsOn r (git.authOf c) w w1.
Proof.
  intros Hr H. unfold callsOn. git_unfold.
  destruct (git.repo c) as [r'|]; [rewrite (Hr r' eq_refl) in H|];
    simpl in H; git_cases; inversion H; subst; simpl; calls_done.
Qed.

(** [EnsureRepo] calls the library on the working directory of the
    handle only, and leaves the handle closed or open on that
    directory. *)
Lemma EnsureRepo_calls (env : git.Env) (c c1 : git.client) (w w1 : git.World)
    (err : option error) :
  git.EnsureRepo env c w = (c1, w1, err) ->
  git.config c1 = git.config c /\
  (forall r', git.repo c1 = Some r' -> r' = git.WorkDir (git.config c)) /\
  callsOn (git.WorkDir (git.config c)) (git.authOf c) w w1.
Proof.
  intros H. unfold git.EnsureRepo in H.
  destruct (git.clones w !! git.WorkDir (git.config c)) as [lr|] eqn:E.
  - destruct (git.PlainOpen env (git.WorkDir (git.config c)) w) as [w0 ro] eqn:Ho.
    assert (Hopen : callsOn (git.WorkDir (git.config c)) (git.authOf c) w w0 /\
                    forall rp, ro = Ok rp -> rp = git.WorkDir (git.config c)).
    { unfold callsOn. git_unfold. simpl in Ho. git_cases; inversion Ho; subst; simpl;
        (split; [calls_done | intros rp0 Hrp0; now inversion Hrp0]). }
    destruct Hopen as [Hcalls Hrp].
    destruct ro as [rp|e].
    + rewrite (Hrp rp eq_refl) in H.
      destruct (git.Pull env _ w0) as [w2 err2] eqn:Hp. inversion H; subst.
      cbn [git.config git.repo]. split; [reflexivity|]. split; [congruence|].
      apply (callsOn_trans _ _ _ _ _ Hcalls).
      assert (Hr1 : forall r',
                 git.repo (git.MkClient (git.config c) (Some (git.WorkDir (git.config c))))
                 = Some r' -> r' = git.WorkDir (git.config c))
        by (cbn [git.repo]; congruence).
      exact (Pull_calls _ _ _ _ _ _ Hr1 Hp).
    + inversion H; subst. cbn [git.config git.repo].
      split; [reflexivity|]. split; [discriminate | exact Hcalls].
  - unfold callsOn. git_unfold. simpl in H.
    git_cases; inversion H; subst; cbn [git.config git.repo git.trace];
      (split; [reflexivity|]); (split; [congruence || discriminate|]); calls_done.
Qed.

(** X27. The git calls of a workspace stay in the workspace: whatever
    its outcome, [SetupGitRepo] calls the library on the workspace path
    only and with the user name and token given; and every later
    [StageCommitAndPush] and [Pull] for that (user, workspace) does the
    same, under any outside conditions. *)
Theorem git_calls_in_workspace (env : git.Env) (fs fs' : FileSystem)
    (userID workspaceID : Z) (gitURL gitUser gitToken : string) (w w' : git.World)
    (err : option error) :
  SetupGitRepo env fs userID workspaceID gitURL gitUser gitToken w = (fs', w', err) ->
  let workDir := GetWorkspacePath fs userID workspaceID in
  let auth := git.MkBasicAuth gitUser gitToken in
  callsOn workDir auth w w' /\
  forall (env2 : git.Env) (message : string) (w2 : git.World),
    callsOn workDir auth w2
            (fst (StageCommitAndPush env2 fs' userID workspaceID message w2)) /\
    callsOn workDir auth w2 (fst (Pull env2 fs' userID workspaceID w2)).
Proof.
  intros H. cbv zeta. rewrite SetupGitRepo_unfold in H. cbv zeta in H.
  destruct (git.EnsureRepo env _ w) as [[c1 w1] err1] eqn:He. cbn [fst snd] in H.
  inversion H; subst. clear H.
  destruct (EnsureRepo_calls _ _ _ _ _ _ He) as (Hcfg & Hrepo & Hcalls).
  unfold newGitRepo in Hcfg, Hrepo, Hcalls.
  cbn [git.New git.config git.WorkDir git.authOf git.Username git.Token] in *.
  split; [exact Hcalls|]. intros env2 message w2.
  assert (Hauth : git.authOf c1 = git.MkBasicAuth gitUser gitToken)
    by (unfold git.authOf; now rewrite Hcfg).
  unfold StageCommitAndPush, Pull, getGitRepo. cbn [GitRepos].
  rewrite !lookup_insert_eq. split.
  - destruct (git.Commit env2 c1 message w2) as [w3 res] eqn:Hc.
    pose proof (Commit_calls _ _ _ _ _ _ _ (git.MkBasicAuth gitUser gitToken) Hrepo Hc)
      as Hcc.
    destruct res as [h|e]; [|exact Hcc].
    destruct (git.Push env2 c1 w3) as [w4 e4] eqn:Hp.
    apply (callsOn_trans _ _ _ _ _ Hcc). rewrite <- Hauth.
    exact (Push_calls _ _ _ _ _ _ Hrepo Hp).
  - destruct (git.Pull env2 c1 w2) as [w3 e3] eqn:Hp. rewrite <- Hauth.
    exact (Pull_calls _ _ _ _ _ _ Hrepo Hp).
Qed.

Lemma git_calls_in_workspace_witness :
  let r := SetupGitRepo sample_git.online sample.fs 7 12
             sample_git.url "ann" "secret" sample_git.world in
  callsOn "/data/7/12" (git.MkBasicAuth "ann" "secret") sample_git.world (snd (fst r)) /\
  forall (env2 : git.Env) (message : string) (w2 : git.World),
    callsOn "/data/7/12" (git.MkBasicAuth "ann" "secret") w2
            (fst (StageCommitAndPush env2 (fst (fst r)) 7 12 message w2)) /\
    callsOn "/data/7/12" (git.MkBasicAuth "ann" "secret") w2
            (fst (Pull env2 (fst (fst r)) 7 12 w2)).
Proof.
  apply (git_calls_in_workspace sample_git.online sample.fs _ 7 12
           sample_git.url "ann" "secret" sample_git.world _ None).
  rewrite SetupGitRepo_unfold. reflexivity.
Defined.

(** [CreateWorkspaceDirectory] and [InitializeUserWorkspace] do the same
    to the file system; they differ in the wrapping of the error only. *)
Lemma CreateWorkspaceDirectory_InitializeUserWorkspace (fs : FileSystem) (disk : os.node)
    (userID workspaceID : Z) :
  fst (CreateWorkspaceDirectory fs disk userID workspaceID)
  = fst (InitializeUserWorkspace fs disk userID workspaceID) /\
  (snd (CreateWorkspaceDirectory fs disk userID workspaceID) = None <->
   snd (InitializeUserWorkspace fs disk userID workspaceID) = None).
Proof.
  unfold CreateWorkspaceDirectory, InitializeUserWorkspace. cbv zeta.
  destruct (os.MkdirAll disk _) as [d [e|]]; simpl; split; try reflexivity;
    split; discriminate.
Qed.

(** ** Deleting a workspace that cannot be read *)

Lemma find_kept (y : string) (c c' : os.node) (entries : list (string * os.node)) :
  os.find y entries = Some c ->
  os.purge c = Some c' ->
  os.find y (flat_map (fun xc => match os.purge (snd xc) with
                                 | None => []
                                 | Some d => [(fst xc, d)]
                                 end) entries)
  = Some c'.
Proof.
  intros Hf Hp. induction entries as [|[z cz] rest IH]; [discriminate|].
  simpl in Hf. cbn [flat_map fst snd].
  destruct (String.eqb y z) eqn:E.
  - inversion Hf; subst. rewrite Hp. simpl. now rewrite E.
  - destruct (os.purge cz); simpl; [rewrite E|]; now apply IH.
Qed.

(** A directory that cannot be read and is not empty stays where it is,
    as it is, when the tree around it is removed. *)
Lemma purge_keeps (rel : list string) (x : string * os.node)
    (es : list (string * os.node)) :
  forall n : os.node,
    os.lookup rel n = Ok (os.Dir false (x :: es)) ->
    exists n' : os.node,
      os.purge n = Some n' /\ os.lookup rel n' = Ok (os.Dir false (x :: es)).
Proof.
  induction rel as [|y rel IH]; intros n Hl.
  - simpl in Hl. inversion Hl; subst. now exists (os.Dir false (x :: es)).
  - destruct n as [|r entries]; [discriminate|]. rewrite lookup_cons in Hl.
    destruct (os.find y entries) as [c|] eqn:Hf; [|discriminate].
    destruct (IH c Hl) as (c' & Hp & Hl').
    destruct r.
    + pose proof (find_kept y c c' entries Hf Hp) as Hk. cbn [os.purge].
      destruct (flat_map _ entries) as [|k kept]; [discriminate|].
      exists (os.Dir true (k :: kept)). split; [reflexivity|].
      now rewrite lookup_cons, Hk.
    + exists (os.Dir false entries). split.
      * destruct entries; [discriminate | reflexivity].
      * now rewrite lookup_cons, Hf.
Qed.

Lemma removeAll_stuck (elems : list string) :
  elems <> [] ->
  forall n m m' : os.node,
    os.lookup elems n = Ok m -> os.purge m = Some m' ->
    exists n' : os.node,
      os.removeAll elems n = (n', Some ErrPermission) /\ os.lookup elems n' = Ok m'.
Proof.
  induction elems as [|x rest IH]; intros Hne n m m' Hl Hp; [contradiction|].
  destruct n as [|r es]; [discriminate|]. rewrite lookup_cons in Hl.
  cbn [os.removeAll].
  destruct (os.find x es) as [c|]; [|discriminate].
  destruct rest as [|y rest'].
  - simpl in Hl. inversion Hl; subst. rewrite Hp.
    exists (os.Dir r (os.set x m' es)). split; [reflexivity|].
    now rewrite lookup_cons, find_set.
  - assert (Hne' : y :: rest' <> []) by discriminate.
    destruct (IH Hne' c m m' Hl Hp) as (c' & Hr & Hl').
    rewrite Hr. exists (os.Dir r (os.set x c' es)). split; [reflexivity|].
    now rewrite lookup_cons, find_set.
Qed.

(** X28. A workspace that holds, at any depth, a directory that cannot be
    read and is not empty cannot be deleted: [DeleteUserWorkspace] returns
    the wrapped permission error, and that directory is still there, as it
    was. *)
Theorem DeleteUserWorkspace_unreadable (fs : FileSystem) (disk n : os.node)
    (userID workspaceID : Z) (rel : list string) (x : string * os.node)
    (entries : list (string * os.node)) :
  os.Stat disk (GetWorkspacePath fs userID workspaceID) = Ok n ->
  os.lookup rel n = Ok (os.Dir false (x :: entries)) ->
  exists disk' : os.node,
    DeleteUserWorkspace fs disk userID workspaceID
    = (disk', Some (ErrWrap "failed to delete workspace directory" ErrPermission)) /\
    os.lookup (os.resolve (GetWorkspacePath fs userID workspaceID) ++ rel) disk'
    = Ok (os.Dir false (x :: entries)).
Proof.
  intros Hstat Hrel. unfold DeleteUserWorkspace. cbv zeta.
  rewrite RemoveAll_workspace.
  assert (Hne : os.resolve (GetWorkspacePath fs userID workspaceID) <> []).
  { rewrite resolve_GetWorkspacePath. now destruct (os.resolve (RootDir fs)). }
  destruct (purge_keeps rel x entries n Hrel) as (n' & Hp & Hl).
  destruct (removeAll_stuck _ Hne _ _ _ Hstat Hp) as (disk' & Hr & Hl').
  exists disk'. rewrite Hr. split; [reflexivity|].
  now rewrite lookup_app, Hl'.
Qed.

Lemma DeleteUserWorkspace_unreadable_witness :
  exists disk' : os.node,
    DeleteUserWorkspace sample.fs sample.disk 7 12
    = (disk', Some (ErrWrap "failed to delete workspace directory" ErrPermission)) /\
    os.lookup (os.resolve (GetWorkspacePath sample.fs 7 12) ++ [".git"; "objects"]) disk'
    = Ok (os.Dir false [("x", os.File [x01; x02])]).
Proof.
  exact (DeleteUserWorkspace_unreadable sample.fs sample.disk sample.workspace 7 12
           [".git"; "objects"] ("x", os.File [x01; x02]) [] eq_refl eq_refl).
Defined.
